(** * Raspberry_NFC_Player: a shallow embedding of the player's logic

    The development follows the five modules of the repository:
    [rfid_reader.py], [battery_monitor.py], [button_controller.py],
    [video_player.py] and [media_player.py].  Every Python method that a
    property below talks about is transcribed as a Rocq function of the
    same name.  The hardware and library collaborators (GPIO, the MFRC522
    reader, the GStreamer pipeline, the file system, the wall clock) are
    not part of the repository: their answers are explicit arguments of
    the functions, and an answer may always be "the call raised".

    Conventions.
    - [time.time()] and the other Python floats are modelled by the
      rationals [Q], compared with [Qltb] and [Qeq_bool]; floating-point
      rounding is not modelled, except in the battery conversion, whose
      argument is an unbounded [int]: there the float range decides
      whether the expression raises, and [to_float] rounds as binary64
      does.
    - Python [int] is [Z], [str] is [string], [None]-able values are
      [option]s, a [dict] used as a map is a [gmap].
    - A method whose body is wrapped in [try: ... except Exception] is a
      function that handles the "raised" answers itself. *)

From Stdlib Require Import ZArith QArith Qabs Lqa Lia Bool List String Ascii.
From Stdlib Require Import DecimalString DecimalZ DecimalPos.
From stdpp Require Import gmap strings list fin_maps.
Import ListNotations.

Local Open Scope Z_scope.
Local Open Scope string_scope.

(* ===================================================================== *)
(** * Python primitives shared by the modules *)
(* ===================================================================== *)

(** [x < y] on floats, as a boolean. *)
Definition Qltb (x y : Q) : bool :=
  (Qnum x * Zpos (Qden y) <? Qnum y * Zpos (Qden x))%Z.

(** [str(n)] for a Python [int]: the decimal numeral, with a leading
    minus sign for negative numbers. *)
Definition str (n : Z) : string := NilZero.string_of_int (Z.to_int n).

(** [a != b] where [b] may be [None] and [a] is a string. *)
Definition str_ne_opt (a : string) (b : option string) : bool :=
  match b with
  | Some b' => negb (String.eqb a b')
  | None => true
  end.

(** Truth value of an optional string ([None] and [''] are falsy). *)
Definition truthy (p : option string) : bool :=
  match p with
  | Some s => negb (String.eqb s "")
  | None => false
  end.

(** [int(q)] on a float: truncation towards zero. *)
Definition int_of_float (q : Q) : Z := Z.quot (Qnum q) (Zpos (Qden q)).

(** The integer nearest to [n / d] (for [d > 0]), a tie going to the
    even one. *)
Definition round_half_even (n d : Z) : Z :=
  let f := n / d in
  let r := n mod d in
  if (2 * r <? d)%Z then f
  else if (d <? 2 * r)%Z then f + 1
  else if Z.even f then f else f + 1.

(** [floor (log2 (n / d))] for positive [n] and [d]. *)
Definition ilog2 (n d : Z) : Z :=
  let k := Z.log2 n - Z.log2 d in
  if (n * 2 ^ Z.max 0 (- k) <? d * 2 ^ Z.max 0 k)%Z then k - 1 else k.

(** Python floats are IEEE binary64 numbers: 53 significant bits, the
    exponent of the last place never below -1074.  [last_place x] is the
    exponent of the last place at the magnitude of [x <> 0]. *)
Definition last_place (x : Q) : Z :=
  Z.max (ilog2 (Z.abs (Qnum x)) (Zpos (Qden x))) (-1022) - 52.

(** The multiple of [2 ^ last_place x] nearest to [x], ties to even. *)
Definition nearest (x : Q) : Q :=
  let e := last_place x in
  Qmake (round_half_even (Qnum x * 2 ^ Z.max 0 (- e))
                         (Zpos (Qden x) * 2 ^ Z.max 0 e) * 2 ^ Z.max 0 e)
        (Z.to_pos (2 ^ Z.max 0 (- e))).

(** The float an exact result [x] is rounded to, or [None] when the
    rounded value is beyond the largest float (an overflow). *)
Definition to_float (x : Q) : option Q :=
  if (Qnum x =? 0)%Z then Some 0%Q
  else
    let y := nearest x in
    if Qle_bool (inject_Z (2 ^ 1024)) (Qabs y) then None else Some y.

(** Consecutive elements of a list of times are at least [d] apart. *)
Fixpoint spaced (d : Q) (l : list Q) : bool :=
  match l with
  | a :: ((b :: _) as tl) => Qle_bool d (b - a) && spaced d tl
  | _ => true
  end.

(** No element of the list is immediately followed by an equal one. *)
Fixpoint no_repeat {A} (eqb : A -> A -> bool) (l : list A) : bool :=
  match l with
  | a :: ((b :: _) as tl) => negb (eqb a b) && no_repeat eqb tl
  | _ => true
  end.

(* ===================================================================== *)
(** * rfid_reader.py *)
(* ===================================================================== *)

Module RFID.

(** The fields of [RFIDReader] that [read_tag] reads or writes.  The
    [reader] handle itself is opaque hardware. *)
Record RFIDReader := mkReader {
  is_connected : bool;
  last_read_time : Q;
  last_tag_id : option string
}.


(** What the hardware does when [read_tag] reaches
    [self.reader.read_no_block()]: it returns [(id, text)] where [id] may
    be [None], or it raises; in the latter case the reader is initialised
    again and [reinit_ok] tells whether that succeeds. *)
Inductive Poll :=
| PollId (id : option Z)
| PollRaises (reinit_ok : bool).

Definition set_connected (b : bool) (r : RFIDReader) : RFIDReader :=
  {| is_connected := b; last_read_time := last_read_time r;
     last_tag_id := last_tag_id r |}.

(** [RFIDReader.initialize_reader]: [reader_ok] tells whether
    [SimpleMFRC522()] could be built. *)
Definition initialize_reader (reader_ok : bool) (r : RFIDReader)
  : RFIDReader :=
  set_connected reader_ok r.

(** State left by [__init__]. *)
Definition init (reader_ok : bool) : RFIDReader :=
  initialize_reader reader_ok
    {| is_connected := false; last_read_time := 0; last_tag_id := None |}.

Definition set_last_read_time (t : Q) (r : RFIDReader) : RFIDReader :=
  {| is_connected := is_connected r; last_read_time := t;
     last_tag_id := last_tag_id r |}.

Definition set_last_tag_id (i : string) (r : RFIDReader) : RFIDReader :=
  {| is_connected := is_connected r; last_read_time := last_read_time r;
     last_tag_id := Some i |}.

(** [RFIDReader.read_tag], called at wall-clock time [current_time].  The
    hardware is only polled once the one-second gate has been passed. *)
Definition read_tag (r : RFIDReader) (current_time : Q) (hw : Poll)
  : RFIDReader * option string :=
  if negb (is_connected r) then (r, None)
  else if Qltb (current_time - last_read_time r) 1 then (r, None)
  else match hw with
       | PollRaises reinit_ok => (initialize_reader reinit_ok r, None)
       | PollId None => (r, None)
       | PollId (Some id) =>
           let r1 := set_last_read_time current_time r in
           let tag_id := str id in
           if str_ne_opt tag_id (last_tag_id r1)
           then (set_last_tag_id tag_id r1, Some tag_id)
           else (r1, None)
       end.

(** A run of polls: each element is the time of the call and what the
    hardware would answer.  Returns the final reader and the results. *)
Fixpoint read_tags (r : RFIDReader) (polls : list (Q * Poll))
  : RFIDReader * list (option string) :=
  match polls with
  | [] => (r, [])
  | (t, hw) :: rest =>
      let '(r1, out) := read_tag r t hw in
      let '(r2, outs) := read_tags r1 rest in
      (r2, out :: outs)
  end.

(** Polls during which only tag [T] is ever in front of the antenna (the
    tag may be absent, and the hardware may fail). *)
Definition only_tag (T : Z) (p : Q * Poll) : bool :=
  match snd p with
  | PollId (Some id) => Z.eqb id T
  | _ => true
  end.

(** The signals of a run: the time and the tag id of every poll for
    which [read_tag] returned an id, in order. *)
Fixpoint signals (r : RFIDReader) (polls : list (Q * Poll))
  : list (Q * string) :=
  match polls with
  | [] => []
  | (t, hw) :: rest =>
      let '(r1, out) := read_tag r t hw in
      match out with
      | Some s => (t, s) :: signals r1 rest
      | None => signals r1 rest
      end
  end.

End RFID.

(* ===================================================================== *)
(** * battery_monitor.py *)
(* ===================================================================== *)

Module Battery.

(** [BatteryMonitor.battery_level] is the only field [get_level] touches. *)
Record BatteryMonitor := mkMonitor {
  battery_level : Z
}.

(** [__init__]: "Default to 100% if monitoring fails". *)
Definition init : BatteryMonitor := {| battery_level := 100 |}.

Definition min_value : Z := 0.
Definition max_value : Z := 1023.

(** [BatteryMonitor._convert_to_percentage] for a raw [int].  The
    quotient of the two integers is the correctly rounded float, and
    Python raises [OverflowError] when it is beyond the float range; the
    product with 100 is a float again, an infinity when it overflows, and
    [int] of an infinity raises [OverflowError].  [None] stands for that
    exception. *)
Definition _convert_to_percentage (raw_value : Z) : option Z :=
  match to_float (inject_Z (raw_value - min_value)
                  / inject_Z (max_value - min_value)) with
  | None => None
  | Some quotient =>
      match to_float (quotient * 100) with
      | None => None
      | Some percentage =>
          Some (Z.max 0 (Z.min 100 (int_of_float percentage)))
      end
  end.

(** [BatteryMonitor.get_level].  [hw] is the answer of
    [GPIO.input(self.battery_pin)]: [Some raw] when it returns, [None]
    when it raises.  Whatever raises in the [try] block, the read or the
    conversion, the [except] clause returns the stored level. *)
Definition get_level (m : BatteryMonitor) (hw : option Z)
  : BatteryMonitor * Z :=
  match hw with
  | Some raw_value =>
      match _convert_to_percentage raw_value with
      | Some level =>
          let m' := {| battery_level := level |} in
          (m', battery_level m')
      | None => (m, battery_level m)
      end
  | None => (m, battery_level m)
  end.

(** A run of reads from a given monitor: final monitor and the values
    returned, in order. *)
Fixpoint get_levels (m : BatteryMonitor) (hws : list (option Z))
  : BatteryMonitor * list Z :=
  match hws with
  | [] => (m, [])
  | hw :: rest =>
      let '(m1, v) := get_level m hw in
      let '(m2, vs) := get_levels m1 rest in
      (m2, v :: vs)
  end.

(** A read succeeds when the pin answers and the conversion of its
    answer returns; otherwise it fails (the [except] clause runs). *)
Definition succeeds (hw : option Z) : bool :=
  match hw with
  | Some raw_value =>
      match _convert_to_percentage raw_value with
      | Some _ => true
      | None => false
      end
  | None => false
  end.

(** The raw value of the most recent read that succeeded, if any. *)
Fixpoint last_success (hws : list (option Z)) : option Z :=
  match hws with
  | [] => None
  | hw :: rest =>
      match last_success rest with
      | Some raw => Some raw
      | None => if succeeds hw then hw else None
      end
  end.

End Battery.

(* ===================================================================== *)
(** * button_controller.py *)
(* ===================================================================== *)

Module Buttons.

(** The dictionaries of [ButtonController].  A level read from a pin is
    kept as a [bool] ([GPIO.input] answers 0 or 1, which Python compares
    equal to [False] and [True]).  A callback is known by a handle. *)
Record ButtonController := mkController {
  buttons : gmap string Z;
  button_states : gmap string bool;
  last_press_times : gmap string Q;
  callbacks : gmap string nat
}.

(** The part of the configuration the controller reads: the items of
    [config['gpio_pins']] in iteration order and
    [config['player_settings']['button_debounce_time']]. *)
Record Config := mkConfig {
  gpio_pins : list (string * Z);
  button_debounce_time : Q
}.

(** Answers of the GPIO library during [initialize_buttons]. *)
Record GpioInit := mkGpioInit {
  setmode_ok : bool;
  setup_ok : Z -> bool;
  add_event_detect_ok : Z -> bool
}.

(** State at the start of [__init__]. *)
Definition empty : ButtonController :=
  {| buttons := ∅; button_states := ∅; last_press_times := ∅;
     callbacks := ∅ |}.

Definition configure (button_name : string) (pin : Z) (c : ButtonController)
  : ButtonController :=
  {| buttons := <[button_name := pin]> (buttons c);
     button_states := <[button_name := true]> (button_states c);
     last_press_times := <[button_name := 0%Q]> (last_press_times c);
     callbacks := callbacks c |}.

(** The [for] loop of [initialize_buttons]; a raising GPIO call leaves the
    loop (the surrounding [except] only logs). *)
Fixpoint initialize_loop (g : GpioInit) (items : list (string * Z))
    (c : ButtonController) : ButtonController :=
  match items with
  | [] => c
  | (button_name, pin) :: rest =>
      if negb (setup_ok g pin) then c
      else
        let c1 := configure button_name pin c in
        if negb (add_event_detect_ok g pin) then c1
        else initialize_loop g rest c1
  end.

(** [ButtonController.initialize_buttons], run on the empty controller. *)
Definition initialize_buttons (cfg : Config) (g : GpioInit)
  : ButtonController :=
  if negb (setmode_ok g) then empty
  else initialize_loop g (gpio_pins cfg) empty.

(** [ButtonController._button_callback] at time [current_time]; [hw] is
    the answer of [GPIO.input(pin)] ([None]: it raises).  The result holds
    the new controller and the callback invocation, if one is made. *)
Definition _button_callback (cfg : Config) (c : ButtonController)
    (button_name : string) (current_time : Q) (hw : option bool)
  : ButtonController * option (nat * bool) :=
  match buttons c !! button_name with
  | None => (c, None)
  | Some pin =>
    match last_press_times c !! button_name with
    | None => (c, None)
    | Some last =>
      if Qltb (current_time - last) (button_debounce_time cfg) then (c, None)
      else
        match hw with
        | None => (c, None)
        | Some current_state =>
          match button_states c !! button_name with
          | None => (c, None)
          | Some st =>
            if negb (Bool.eqb current_state st) then
              let c' :=
                {| buttons := buttons c;
                   button_states :=
                     <[button_name := current_state]> (button_states c);
                   last_press_times :=
                     <[button_name := current_time]> (last_press_times c);
                   callbacks := callbacks c |} in
              match callbacks c !! button_name with
              | Some cb => (c', Some (cb, current_state))
              | None => (c', None)
              end
            else (c, None)
          end
        end
    end
  end.

(** [ButtonController.register_callback]. *)
Definition register_callback (c : ButtonController) (button_name : string)
    (callback : nat) : ButtonController :=
  {| buttons := buttons c; button_states := button_states c;
     last_press_times := last_press_times c;
     callbacks := <[button_name := callback]> (callbacks c) |}.

(** [ButtonController.get_button_state]:
    [self.button_states.get(button_name, True)]. *)
Definition get_button_state (c : ButtonController) (button_name : string)
  : bool :=
  match button_states c !! button_name with
  | Some st => st
  | None => true
  end.

(** What can happen to a controller after its construction. *)
Inductive Event :=
| Edge (button_name : string) (current_time : Q) (hw : option bool)
| Register (button_name : string) (callback : nat).

Definition step (cfg : Config) (c : ButtonController) (e : Event)
  : ButtonController :=
  match e with
  | Edge b t hw => fst (_button_callback cfg c b t hw)
  | Register b cb => register_callback c b cb
  end.

Definition run (cfg : Config) (c : ButtonController) (es : list Event)
  : ButtonController :=
  fold_left (step cfg) es c.

(** The callback invocations of a run, in order: button name, callback
    handle and the level passed to it. *)
Fixpoint fired (cfg : Config) (c : ButtonController) (es : list Event)
  : list (string * nat * bool) :=
  match es with
  | [] => []
  | Edge b t hw :: rest =>
      let '(c', f) := _button_callback cfg c b t hw in
      match f with
      | Some (cb, level) => (b, cb, level) :: fired cfg c' rest
      | None => fired cfg c' rest
      end
  | Register b cb :: rest => fired cfg (register_callback c b cb) rest
  end.

(** The levels passed to the callbacks of button [b]. *)
Definition levels_of (b : string) (l : list (string * nat * bool))
  : list bool :=
  map snd (List.filter (fun e => String.eqb (fst (fst e)) b) l).

(** The times of the edges of a run that changed the recorded level of
    button [b], in order. *)
Fixpoint change_times (cfg : Config) (b : string) (c : ButtonController)
    (es : list Event) : list Q :=
  match es with
  | [] => []
  | e :: rest =>
      let c' := step cfg c e in
      match e with
      | Edge b' t _ =>
          if String.eqb b' b
             && negb (bool_decide (button_states c' !! b
                                   = button_states c !! b))
          then t :: change_times cfg b c' rest
          else change_times cfg b c' rest
      | Register _ _ => change_times cfg b c' rest
      end
  end.

(** The three dictionaries have the same keys. *)
Definition same_keys (c : ButtonController) : Prop :=
  dom (buttons c) = dom (button_states c) /\
  dom (last_press_times c) = dom (button_states c).

(** Every recorded level is [True] and every recorded time is 0. *)
Definition fresh_entries (c : ButtonController) : Prop :=
  (forall name st, button_states c !! name = Some st -> st = true) /\
  (forall name t, last_press_times c !! name = Some t -> t = 0%Q).

End Buttons.

(* ===================================================================== *)
(** * Exceptions and state: the monad of the player and the application *)
(* ===================================================================== *)

(** The exceptions that travel through the modelled code, with the text
    [str(e)] gives. *)
Inductive Exn :=
| FileNotFoundError (msg : string)
| AttributeError (msg : string)
| KeyError (key : string)
| ExternalError (msg : string).

Definition exn_str (e : Exn) : string :=
  match e with
  | FileNotFoundError m => m
  | AttributeError m => m
  | KeyError k => "'" ++ k ++ "'"
  | ExternalError m => m
  end.

Inductive Res (A : Type) :=
| Ok (a : A)
| Raised (e : Exn).
Arguments Ok {A} a.
Arguments Raised {A} e.

(** A computation over a store [S] that returns or raises. *)
Definition M (S A : Type) : Type := S -> Res A * S.

Definition ret {S A} (a : A) : M S A := fun s => (Ok a, s).

Definition raise {S A} (e : Exn) : M S A := fun s => (Raised e, s).

Definition bind {S A B} (m : M S A) (k : A -> M S B) : M S B :=
  fun s => match m s with
           | (Ok a, s') => k a s'
           | (Raised e, s') => (Raised e, s')
           end.

Definition get {S} : M S S := fun s => (Ok s, s).

Definition modify {S} (f : S -> S) : M S unit := fun s => (Ok tt, f s).

(** [try: m  except Exception as e: h e]. *)
Definition try_except {S A} (m : M S A) (h : Exn -> M S A) : M S A :=
  fun s => match m s with
           | (Ok a, s') => (Ok a, s')
           | (Raised e, s') => h e s'
           end.

(** [try: m  except Exception: logger.error(...)]: the error is logged
    and the method returns [None]. *)
Definition try_log {S} (m : M S unit) : M S unit :=
  try_except m (fun _ => ret tt).

(** [if b: m]. *)
Definition when {S} (b : bool) (m : M S unit) : M S unit :=
  if b then m else ret tt.

Declare Scope py_scope.
Delimit Scope py_scope with py.
Notation "x <- m ;; k" := (bind m (fun x => k))
  (at level 100, m at next level, k at level 200, right associativity)
  : py_scope.
Notation "m ;; k" := (bind m (fun _ => k))
  (at level 100, k at level 200, right associativity) : py_scope.

(** [m] keeps the property [P] of the store, whether it returns or
    raises. *)
Definition preserves {S A} (P : S -> Prop) (m : M S A) : Prop :=
  forall s, P s -> P (snd (m s)).

(** [m] returns from every store. *)
Definition always_returns {S A} (m : M S A) : Prop :=
  forall s, exists a, fst (m s) = Ok a.

(* ===================================================================== *)
(** * video_player.py *)
(* ===================================================================== *)

Module Player.

Local Open Scope py_scope.

(** [Gst.SECOND], in nanoseconds. *)
Definition SECOND : Q := 1000000000.

Inductive GstState := NULL | PAUSED | PLAYING.

(** The calls [VideoPlayer] makes on the pipeline and its elements.
    [SetLocation p] stands for
    [get_by_name('filesrc0').set_property('location', p)] and
    [SetSinkVolume v] for [get_by_name('alsasink0').set_property('volume', v)]. *)
Inductive GstCall :=
| SetState (st : GstState)
| SetLocation (video_path : string)
| SeekSimple (seek_time : Q)
| SetSinkVolume (linear_volume : Q)
| QueryPosition
| QueryDuration.

(** The record [save_state] dumps to [playback_state.json]. *)
Record PlaybackState := mkPlaybackState {
  ps_video_path : string;
  ps_position : Q;
  ps_volume : Z
}.

(** A JSON object as [load_saved_position] reads it: the value under
    each of the three keys it subscripts, [None] for a key the object
    lacks.  The values have the types [save_state] writes. *)
Record StateObject := mkStateObject {
  so_video_path : option string;
  so_position : option Q;
  so_volume : option Z
}.

(** Content of [playback_state.json]: missing; text that is not JSON, or
    a JSON value that is not an object (every subscription of it
    raises); or an object. *)
Inductive StateFile :=
| Absent
| Garbage
| Object (o : StateObject).

(** The object [json.dump] writes for the record of [save_state]: all
    three keys are present. *)
Definition Stored (st : PlaybackState) : StateFile :=
  Object {| so_video_path := Some (ps_video_path st);
            so_position := Some (ps_position st);
            so_volume := Some (ps_volume st) |}.

(** What [open(state_file, 'w')] followed by [json.dump] does. *)
Inductive WriteOutcome := Written | OpenFails | DumpFails.

(** The attributes [VideoPlayer.__init__] binds, apart from [config] and
    [bus].  [pipeline] records whether the attribute is a pipeline
    ([true]) or [None] ([false]). *)
Record VideoPlayer := mkPlayer {
  pipeline : bool;
  current_video : option string;
  playback_position : Z;
  volume : Z;
  is_playing : bool
}.

(** The player together with what it acts on: the state file and the
    log of the calls made on the pipeline so far, oldest first. *)
Record World := mkWorld {
  vp : VideoPlayer;
  state_file : StateFile;
  gst_log : list GstCall
}.

(** The collaborators.  A pipeline call either returns ([None]) or raises
    an exception with the given text; its answer may depend on the calls
    made before.  A query returns the pair [(success, value)] or raises;
    [value] is the 64-bit count of nanoseconds GStreamer reports, whose
    quotient by [Gst.SECOND] is always within the float range. *)
Record Env := mkEnv {
  path_exists : string -> bool;
  gst_raises : list GstCall -> GstCall -> option string;
  gst_query : list GstCall -> GstCall -> string + (bool * Z);
  state_read_raises : bool;
  state_write : WriteOutcome
}.

Definition set_vp (f : VideoPlayer -> VideoPlayer) (w : World) : World :=
  {| vp := f (vp w); state_file := state_file w; gst_log := gst_log w |}.

Definition set_state_file (f : StateFile) (w : World) : World :=
  {| vp := vp w; state_file := f; gst_log := gst_log w |}.

Definition log_call (c : GstCall) (w : World) : World :=
  {| vp := vp w; state_file := state_file w; gst_log := gst_log w ++ [c] |}.

Definition with_current_video (p : option string) (v : VideoPlayer)
  : VideoPlayer :=
  {| pipeline := pipeline v; current_video := p;
     playback_position := playback_position v; volume := volume v;
     is_playing := is_playing v |}.

Definition with_volume (n : Z) (v : VideoPlayer) : VideoPlayer :=
  {| pipeline := pipeline v; current_video := current_video v;
     playback_position := playback_position v; volume := n;
     is_playing := is_playing v |}.

Definition with_is_playing (b : bool) (v : VideoPlayer) : VideoPlayer :=
  {| pipeline := pipeline v; current_video := current_video v;
     playback_position := playback_position v; volume := volume v;
     is_playing := b |}.

Definition with_pipeline (b : bool) (v : VideoPlayer) : VideoPlayer :=
  {| pipeline := b; current_video := current_video v;
     playback_position := playback_position v; volume := volume v;
     is_playing := is_playing v |}.

Section WithEnv.

Variable env : Env.

(** A call on the pipeline that returns nothing of interest. *)
Definition gst_call (c : GstCall) : M World unit :=
  fun w =>
    match gst_raises env (gst_log w) c with
    | None => (Ok tt, log_call c w)
    | Some msg => (Raised (ExternalError msg), log_call c w)
    end.

(** [success, value = self.pipeline.query_...(Gst.Format.TIME)]. *)
Definition gst_ask (c : GstCall) : M World (bool * Z) :=
  fun w =>
    match gst_query env (gst_log w) c with
    | inr r => (Ok r, log_call c w)
    | inl msg => (Raised (ExternalError msg), log_call c w)
    end.

(** [VideoPlayer.play]. *)
Definition play : M World unit :=
  try_log (
    w <- get ;;
    when (pipeline (vp w)) (
      gst_call (SetState PLAYING) ;;
      modify (set_vp (with_is_playing true)))).

(** [VideoPlayer.pause]. *)
Definition pause : M World unit :=
  try_log (
    w <- get ;;
    when (pipeline (vp w)) (
      gst_call (SetState PAUSED) ;;
      modify (set_vp (with_is_playing false)))).

(** [VideoPlayer.stop]. *)
Definition stop : M World unit :=
  try_log (
    w <- get ;;
    when (pipeline (vp w)) (
      gst_call (SetState NULL) ;;
      modify (set_vp (with_is_playing false)))).

(** [VideoPlayer.seek]. *)
Definition seek (position : Q) : M World unit :=
  try_log (
    w <- get ;;
    when (pipeline (vp w)) (
      let seek_time := (position * SECOND)%Q in
      gst_call (SeekSimple seek_time))).

(** [VideoPlayer.set_volume]. *)
Definition set_volume (v : Z) : M World unit :=
  try_log (
    w <- get ;;
    when (pipeline (vp w)) (
      modify (set_vp (with_volume (Z.max 0 (Z.min 100 v)))) ;;
      w1 <- get ;;
      let linear_volume := (inject_Z (volume (vp w1)) / 100)%Q in
      gst_call (SetSinkVolume linear_volume))).

(** The common body of [get_position] and [get_duration]. *)
Definition query_seconds (c : GstCall) : M World Q :=
  try_except (
    w <- get ;;
    if pipeline (vp w) then
      r <- gst_ask c ;;
      let '(success, value) := r in
      if success then ret (inject_Z value / SECOND)%Q
      else ret 0%Q
    else ret 0%Q)
  (fun _ => ret 0%Q).

(** [VideoPlayer.get_position]. *)
Definition get_position : M World Q := query_seconds QueryPosition.

(** [VideoPlayer.get_duration]. *)
Definition get_duration : M World Q := query_seconds QueryDuration.

(** [with open(state_file, 'w') as f: json.dump(state, f)]. *)
Definition write_state (st : PlaybackState) : M World unit :=
  match state_write env with
  | Written => modify (set_state_file (Stored st))
  | OpenFails => raise (ExternalError "open")
  | DumpFails => modify (set_state_file Garbage) ;;
                 raise (ExternalError "json.dump")
  end.

(** [VideoPlayer.save_state]. *)
Definition save_state : M World unit :=
  try_log (
    w <- get ;;
    when (truthy (current_video (vp w))) (
      position <- get_position ;;
      w1 <- get ;;
      let state := {| ps_video_path := default "" (current_video (vp w1));
                      ps_position := position;
                      ps_volume := volume (vp w1) |} in
      write_state state)).

(** [state['video_path'] == self.current_video]. *)
Definition path_is (p : string) (cur : option string) : bool :=
  match cur with
  | Some c => String.eqb p c
  | None => false
  end.

(** [with open(state_file, 'r') as f: state = json.load(f)]. *)
Definition read_state : M World StateObject :=
  w <- get ;;
  if state_read_raises env then raise (ExternalError "open")
  else match state_file w with
       | Object o => ret o
       | Garbage => raise (ExternalError "json.load")
       | Absent => raise (ExternalError "open")
       end.

(** [state[key]], where [value] is what the object holds under [key]. *)
Definition subscript {A} (value : option A) (key : string) : M World A :=
  match value with
  | Some v => ret v
  | None => raise (KeyError key)
  end.

(** [VideoPlayer.load_saved_position].  Each key is subscripted when the
    statement that needs it runs: [position] only for a matching path,
    [volume] only after the seek. *)
Definition load_saved_position : M World unit :=
  try_log (
    w <- get ;;
    match state_file w with
    | Absent => ret tt
    | _ =>
        state <- read_state ;;
        saved_path <- subscript (so_video_path state) "video_path" ;;
        w1 <- get ;;
        when (path_is saved_path (current_video (vp w1))) (
          position <- subscript (so_position state) "position" ;;
          seek position ;;
          saved_volume <- subscript (so_volume state) "volume" ;;
          set_volume saved_volume)
    end).

(** [VideoPlayer.load]: logs and re-raises whatever its body raises. *)
Definition load (video_path : string) : M World unit :=
  if negb (path_exists env video_path) then
    raise (FileNotFoundError ("Video file not found: " ++ video_path))
  else
    w <- get ;;
    when (pipeline (vp w)) (gst_call (SetState NULL)) ;;
    (if pipeline (vp w) then gst_call (SetLocation video_path)
     else raise (AttributeError
                   "'NoneType' object has no attribute 'get_by_name'")) ;;
    modify (set_vp (with_current_video (Some video_path))) ;;
    load_saved_position ;;
    play ;;
    pause.

(** [VideoPlayer.cleanup]. *)
Definition cleanup : M World unit :=
  try_log (
    w <- get ;;
    when (pipeline (vp w)) (
      save_state ;;
      gst_call (SetState NULL) ;;
      modify (set_vp (with_pipeline false)))).

(** A message on the pipeline bus as [_on_message] tells them apart:
    end of stream, an error (with the text of [err.message], or [None]
    when [message.parse_error()] raises), or any other type. *)
Inductive Message :=
| EOS
| ERROR (err_message : option string)
| OtherMessage.

(** [VideoPlayer._on_video_end]. *)
Definition _on_video_end : M World unit :=
  try_log (seek 0 ;; pause).

(** [VideoPlayer._on_message].  In the error branch the handler calls
    [self.show_message], which class [VideoPlayer] does not define. *)
Definition _on_message (message : Message) : M World unit :=
  try_log (
    match message with
    | EOS => _on_video_end
    | ERROR (Some _) =>
        raise (AttributeError
                 "'VideoPlayer' object has no attribute 'show_message'")
    | ERROR None => raise (ExternalError "parse_error")
    | OtherMessage => ret tt
    end).

(** How far [initialize_player] gets: [Gst.init] or [Gst.parse_launch]
    raises (no pipeline is bound), the bus set-up raises (the pipeline is
    bound already), or everything works. *)
Inductive InitOutcome :=
| LaunchFails (msg : string)
| BusFails (msg : string)
| InitOk.

(** [VideoPlayer.initialize_player]: logs and re-raises. *)
Definition initialize_player (o : InitOutcome) : M World unit :=
  match o with
  | LaunchFails msg => raise (ExternalError msg)
  | BusFails msg =>
      modify (set_vp (with_pipeline true)) ;; raise (ExternalError msg)
  | InitOk =>
      modify (set_vp (with_pipeline true)) ;;
      w <- get ;;
      set_volume (volume (vp w))
  end.

(** [VideoPlayer.__init__] with [config['player_settings']['default_volume']]
    and the state file found on disk. *)
Definition __init__ (o : InitOutcome) (default_volume : Z)
    (file : StateFile) : Res unit * World :=
  initialize_player o
    {| vp := {| pipeline := false; current_video := None;
                playback_position := 0; volume := default_volume;
                is_playing := false |};
       state_file := file; gst_log := [] |}.

(** The public operations of a player, and the world a sequence of them
    leaves (whether each returned or raised). *)
Inductive Op :=
| OpPlay
| OpPause
| OpStop
| OpSeek (position : Q)
| OpSetVolume (v : Z)
| OpGetPosition
| OpGetDuration
| OpSaveState
| OpLoad (video_path : string)
| OpMessage (message : Message)
| OpCleanup.

Definition do_op (w : World) (op : Op) : World :=
  match op with
  | OpPlay => snd (play w)
  | OpPause => snd (pause w)
  | OpStop => snd (stop w)
  | OpSeek position => snd (seek position w)
  | OpSetVolume v => snd (set_volume v w)
  | OpGetPosition => snd (get_position w)
  | OpGetDuration => snd (get_duration w)
  | OpSaveState => snd (save_state w)
  | OpLoad video_path => snd (load video_path w)
  | OpMessage message => snd (_on_message message w)
  | OpCleanup => snd (cleanup w)
  end.

Definition run_ops (w : World) (ops : list Op) : World :=
  fold_left do_op ops w.

End WithEnv.

(** The three situations in which a position or duration query has no
    answer to give: there is no pipeline, the query raises, or it
    reports failure. *)
Definition no_answer (env : Env) (w : World) (c : GstCall) : bool :=
  negb (pipeline (vp w)) ||
  match gst_query env (gst_log w) c with
  | inl _ => true
  | inr (success, _) => negb success
  end.

End Player.

(* ===================================================================== *)
(** * media_player.py *)
(* ===================================================================== *)

Module App.

Local Open Scope py_scope.

(** An entry of [config['rfid_tags']]. *)
Record TagBinding := mkTag {
  tag_id : string;
  video_path : string
}.

(** The attributes of [MediaPlayerApp] and of the widgets it owns that
    the modelled handlers read or write.  [rfid_tags] is
    [self.config['rfid_tags']]; [update_progress_scheduled] counts the
    [Clock.schedule_interval(self.update_progress, 0.1)] calls. *)
Record MediaPlayerApp := mkApp {
  rfid_tags : list TagBinding;
  current_video : option string;
  is_test_mode : bool;
  controls_visible : bool;
  last_touch_time : Q;
  controls_timeout : Q;
  status_label_text : string;
  controls_overlay_opacity : Z;
  progress_bar_value : Q;
  update_progress_scheduled : nat
}.

(** The application with the two components its handlers call into. *)
Record AppWorld := mkAppWorld {
  app : MediaPlayerApp;
  rfid_reader : RFID.RFIDReader;
  video_player : Player.World
}.

(** The application as [__init__] and [build] leave it. *)
Definition init_app (tags : list TagBinding) : MediaPlayerApp :=
  {| rfid_tags := tags; current_video := None; is_test_mode := false;
     controls_visible := false; last_touch_time := 0;
     controls_timeout := 3; status_label_text := "Insert Plate";
     controls_overlay_opacity := 0; progress_bar_value := 0;
     update_progress_scheduled := 0 |}.

Definition set_app (f : MediaPlayerApp -> MediaPlayerApp) (aw : AppWorld)
  : AppWorld :=
  {| app := f (app aw); rfid_reader := rfid_reader aw;
     video_player := video_player aw |}.

Definition set_rfid_reader (r : RFID.RFIDReader) (aw : AppWorld) : AppWorld :=
  {| app := app aw; rfid_reader := r; video_player := video_player aw |}.

(** Run a method of [self.video_player]. *)
Definition on_player {A} (m : M Player.World A) : M AppWorld A :=
  fun aw =>
    let '(r, w') := m (video_player aw) in
    (r, {| app := app aw; rfid_reader := rfid_reader aw;
           video_player := w' |}).

Definition with_current_video (p : option string) (a : MediaPlayerApp)
  : MediaPlayerApp :=
  {| rfid_tags := rfid_tags a; current_video := p;
     is_test_mode := is_test_mode a; controls_visible := controls_visible a;
     last_touch_time := last_touch_time a;
     controls_timeout := controls_timeout a;
     status_label_text := status_label_text a;
     controls_overlay_opacity := controls_overlay_opacity a;
     progress_bar_value := progress_bar_value a;
     update_progress_scheduled := update_progress_scheduled a |}.

Definition with_controls (visible : bool) (opacity : Z) (a : MediaPlayerApp)
  : MediaPlayerApp :=
  {| rfid_tags := rfid_tags a; current_video := current_video a;
     is_test_mode := is_test_mode a; controls_visible := visible;
     last_touch_time := last_touch_time a;
     controls_timeout := controls_timeout a;
     status_label_text := status_label_text a;
     controls_overlay_opacity := opacity;
     progress_bar_value := progress_bar_value a;
     update_progress_scheduled := update_progress_scheduled a |}.

Definition with_last_touch_time (t : Q) (a : MediaPlayerApp)
  : MediaPlayerApp :=
  {| rfid_tags := rfid_tags a; current_video := current_video a;
     is_test_mode := is_test_mode a; controls_visible := controls_visible a;
     last_touch_time := t;
     controls_timeout := controls_timeout a;
     status_label_text := status_label_text a;
     controls_overlay_opacity := controls_overlay_opacity a;
     progress_bar_value := progress_bar_value a;
     update_progress_scheduled := update_progress_scheduled a |}.

Definition with_status (text : string) (a : MediaPlayerApp)
  : MediaPlayerApp :=
  {| rfid_tags := rfid_tags a; current_video := current_video a;
     is_test_mode := is_test_mode a; controls_visible := controls_visible a;
     last_touch_time := last_touch_time a;
     controls_timeout := controls_timeout a;
     status_label_text := text;
     controls_overlay_opacity := controls_overlay_opacity a;
     progress_bar_value := progress_bar_value a;
     update_progress_scheduled := update_progress_scheduled a |}.

Definition with_progress (v : Q) (a : MediaPlayerApp) : MediaPlayerApp :=
  {| rfid_tags := rfid_tags a; current_video := current_video a;
     is_test_mode := is_test_mode a; controls_visible := controls_visible a;
     last_touch_time := last_touch_time a;
     controls_timeout := controls_timeout a;
     status_label_text := status_label_text a;
     controls_overlay_opacity := controls_overlay_opacity a;
     progress_bar_value := v;
     update_progress_scheduled := update_progress_scheduled a |}.

Definition with_test_mode (b : bool) (a : MediaPlayerApp) : MediaPlayerApp :=
  {| rfid_tags := rfid_tags a; current_video := current_video a;
     is_test_mode := b; controls_visible := controls_visible a;
     last_touch_time := last_touch_time a;
     controls_timeout := controls_timeout a;
     status_label_text := status_label_text a;
     controls_overlay_opacity := controls_overlay_opacity a;
     progress_bar_value := progress_bar_value a;
     update_progress_scheduled := update_progress_scheduled a |}.

Definition schedule_update_progress (a : MediaPlayerApp) : MediaPlayerApp :=
  {| rfid_tags := rfid_tags a; current_video := current_video a;
     is_test_mode := is_test_mode a; controls_visible := controls_visible a;
     last_touch_time := last_touch_time a;
     controls_timeout := controls_timeout a;
     status_label_text := status_label_text a;
     controls_overlay_opacity := controls_overlay_opacity a;
     progress_bar_value := progress_bar_value a;
     update_progress_scheduled := S (update_progress_scheduled a) |}.

(** The object [self.video_player.player] would have to be for the
    handlers to call [is_playing()] on it. *)
Record PlayerHandle := mkHandle {
  handle_is_playing : bool
}.

(** The attribute lookup [self.video_player.player].  [video_player] is
    the [VideoPlayer] built in [initialize_components].  That class binds
    [config], [pipeline], [bus], [current_video], [playback_position],
    [volume] and [is_playing] (a boolean attribute, not a method) in
    [__init__] and [initialize_player]; its other methods assign only
    [current_video], [volume], [is_playing] and [pipeline]; it defines no
    [__getattr__], and [media_player.py] never assigns the attribute.
    The lookup therefore finds nothing, whatever the state of the
    player, and Python raises [AttributeError]. *)
Definition getattr_player (v : Player.VideoPlayer) : option PlayerHandle :=
  None.

(** The exception of that lookup. *)
Definition no_player_attribute : Exn :=
  AttributeError "'VideoPlayer' object has no attribute 'player'".

Section WithEnv.

Variable env : Player.Env.

(** [MediaPlayerApp.show_controls], with [time.time()] answering [now]. *)
Definition show_controls (now : Q) : M AppWorld unit :=
  modify (set_app (with_controls true 1)) ;;
  modify (set_app (with_last_touch_time now)).

(** [MediaPlayerApp.show_message]. *)
Definition show_message (now : Q) (message : string) : M AppWorld unit :=
  modify (set_app (with_status message)) ;;
  show_controls now.

(** The body of [hide_controls] once [self.video_player.player] has been
    looked up with result [attr]. *)
Definition hide_controls_on (attr : option PlayerHandle) : M AppWorld unit :=
  aw <- get ;;
  if controls_visible (app aw) then
    match attr with
    | None =>
        raise (AttributeError
                 "'VideoPlayer' object has no attribute 'player'")
    | Some player =>
        when (negb (handle_is_playing player))
             (modify (set_app (with_controls false 0)))
    end
  else ret tt.

(** [MediaPlayerApp.hide_controls]. *)
Definition hide_controls : M AppWorld unit :=
  aw <- get ;;
  hide_controls_on (getattr_player (Player.vp (video_player aw))).

(** [MediaPlayerApp.on_progress_change]. *)
Definition on_progress_change (value : Q) : M AppWorld unit :=
  aw <- get ;;
  if negb (truthy (current_video (app aw))) then ret tt
  else
    duration <- on_player (Player.get_duration env) ;;
    let position := ((value / 100) * duration)%Q in
    on_player (Player.seek env position).

(** [self.progress_bar.value = v]: [build] binds [on_progress_change] to
    the slider value, and the toolkit dispatches it when the value
    changes. *)
Definition set_progress_bar_value (v : Q) : M AppWorld unit :=
  aw <- get ;;
  if Qeq_bool (progress_bar_value (app aw)) v then ret tt
  else
    modify (set_app (with_progress v)) ;;
    on_progress_change v.

(** [MediaPlayerApp.update_progress], with [time.time()] answering [now]. *)
Definition update_progress (now : Q) : M AppWorld unit :=
  aw <- get ;;
  when (truthy (current_video (app aw))) (
    position <- on_player (Player.get_position env) ;;
    duration <- on_player (Player.get_duration env) ;;
    when (Qltb 0 duration)
         (set_progress_bar_value ((position / duration) * 100)%Q) ;;
    aw1 <- get ;;
    when (controls_visible (app aw1)
          && Qltb (controls_timeout (app aw1))
                  (now - last_touch_time (app aw1)))
         hide_controls).

(** [MediaPlayerApp.load_video]. *)
Definition load_video (now : Q) (path : string) : M AppWorld unit :=
  try_except (
    if Player.path_exists env path then
      on_player (Player.load env path) ;;
      modify (set_app (with_current_video (Some path))) ;;
      show_message now "Video Loaded - Press Play" ;;
      modify (set_app schedule_update_progress)
    else
      show_message now ("File not found: " ++ path))
  (fun e => show_message now ("Error loading video: " ++ exn_str e)).

(** The [for] loop of [handle_tag_detection] and the code after it. *)
Fixpoint handle_tag_loop (now : Q) (tags : list TagBinding)
    (scanned : string) : M AppWorld unit :=
  match tags with
  | tag :: rest =>
      if String.eqb (tag_id tag) scanned
      then load_video now (video_path tag)
      else handle_tag_loop now rest scanned
  | [] =>
      aw <- get ;;
      when (negb (truthy (current_video (app aw))))
           (show_message now "Unidentified Tag Detected")
  end.

(** [MediaPlayerApp.handle_tag_detection]. *)
Definition handle_tag_detection (now : Q) (scanned : string)
  : M AppWorld unit :=
  try_log (
    aw <- get ;;
    handle_tag_loop now (rfid_tags (app aw)) scanned).

(** [MediaPlayerApp.scan_rfid]: the reader is polled at [current_time]
    with hardware answer [hw]. *)
Definition scan_rfid (current_time now : Q) (hw : RFID.Poll)
  : M AppWorld unit :=
  aw <- get ;;
  if is_test_mode (app aw) then ret tt
  else
    try_log (
      let '(r, tag) := RFID.read_tag (rfid_reader aw) current_time hw in
      modify (set_rfid_reader r) ;;
      match tag with
      | Some t => when (negb (String.eqb t "")) (handle_tag_detection now t)
      | None => ret tt
      end).

(** [MediaPlayerApp.activate_test_mode]; [test_video] is
    [self.config['test_video']]. *)
Definition activate_test_mode (now : Q) (test_video : string)
  : M AppWorld unit :=
  modify (set_app (with_test_mode true)) ;;
  if Player.path_exists env test_video then load_video now test_video
  else show_message now "Test video not found".

(** [touch.x / Window.width]: Python raises on a zero divisor. *)
Definition check_divisor (width : Q) : M AppWorld unit :=
  if Qeq_bool width 0 then raise (ExternalError "division by zero")
  else ret tt.

(** What [on_touch_down] does after it has shown the controls: the
    left third of the window seeks ten seconds back, the right third ten
    seconds forward, the middle third toggles play and pause. *)
Definition touch_action (touch_x width : Q) : M AppWorld unit :=
  check_divisor width ;;
  let x := (touch_x / width)%Q in
  if Qltb x (33 # 100) then
    position <- on_player (Player.get_position env) ;;
    on_player (Player.seek env (position - 10))
  else if Qltb (66 # 100) x then
    position <- on_player (Player.get_position env) ;;
    on_player (Player.seek env (position + 10))
  else
    aw1 <- get ;;
    match getattr_player (Player.vp (video_player aw1)) with
    | None => raise no_player_attribute
    | Some player =>
        if handle_is_playing player then
          on_player (Player.pause env) ;;
          modify (set_app (with_status "Paused"))
        else
          on_player (Player.play env) ;;
          modify (set_app (with_status "Playing"))
    end.

(** [MediaPlayerApp.on_touch_down] for a touch at abscissa [touch_x] in
    a window of width [width], with [time.time()] answering [now]. *)
Definition on_touch_down (now touch_x width : Q) : M AppWorld unit :=
  aw <- get ;;
  if negb (truthy (current_video (app aw))) then ret tt
  else
    show_controls now ;;
    touch_action touch_x width.

(** [MediaPlayerApp.on_touch_up]; [height] is [self.progress_bar.height]. *)
Definition on_touch_up (touch_x touch_y width height : Q)
  : M AppWorld unit :=
  aw <- get ;;
  if negb (truthy (current_video (app aw))) then ret tt
  else
    when (Qltb touch_y height) (
      check_divisor width ;;
      duration <- on_player (Player.get_duration env) ;;
      let position := ((touch_x / width) * duration)%Q in
      on_player (Player.seek env position)).

(** [MediaPlayerApp.on_keyboard]; key 301 is F10. *)
Definition on_keyboard (now : Q) (key : Z) (test_video : string)
  : M AppWorld bool :=
  when (Z.eqb key 301) (activate_test_mode now test_video) ;;
  ret true.

(** The entry points of the application (the scheduled tasks, the touch
    and slider callbacks, the keyboard handler), and the state a sequence
    of calls leaves (whether each call returned or raised). *)
Inductive Handler :=
| Scan (current_time now : Q) (hw : RFID.Poll)
| UpdateProgress (now : Q)
| TouchDown (now touch_x width : Q)
| TouchUp (touch_x touch_y width height : Q)
| ProgressChange (value : Q)
| Keyboard (now : Q) (key : Z) (test_video : string).

Definition handle (aw : AppWorld) (h : Handler) : AppWorld :=
  match h with
  | Scan current_time now hw => snd (scan_rfid current_time now hw aw)
  | UpdateProgress now => snd (update_progress now aw)
  | TouchDown now touch_x width => snd (on_touch_down now touch_x width aw)
  | TouchUp touch_x touch_y width height =>
      snd (on_touch_up touch_x touch_y width height aw)
  | ProgressChange value => snd (on_progress_change value aw)
  | Keyboard now key test_video => snd (on_keyboard now key test_video aw)
  end.

Definition run_handlers (aw : AppWorld) (hs : list Handler) : AppWorld :=
  fold_left handle hs aw.

End WithEnv.

(** The scan handlers for a list of polls (time of the read, time of
    the handler, answer of the hardware). *)
Definition scans_of (polls : list (Q * Q * RFID.Poll)) : list Handler :=
  map (fun p => Scan (fst (fst p)) (snd (fst p)) (snd p)) polls.

(** The application and the player name the same current video. *)
Definition agree (aw : AppWorld) : Prop :=
  current_video (app aw) =
    Player.current_video (Player.vp (video_player aw)).

Definition in_test_mode (aw : AppWorld) : Prop :=
  is_test_mode (app aw) = true.

Definition video_loaded (aw : AppWorld) : Prop :=
  is_Some (current_video (app aw)).

(** A computation that leaves the view [f] of the application object as
    it found it, whether it returns or raises. *)
Definition keeps {X A} (f : MediaPlayerApp -> X) (m : M AppWorld A) : Prop :=
  forall aw, f (app (snd (m aw))) = f (app aw).

(** A computation that always returns. *)
Definition returns {A} (m : M AppWorld A) : Prop :=
  forall aw, exists a, fst (m aw) = Ok a.

(** The three attributes the auto-hide test of [update_progress] reads. *)
Definition hide_timer (a : MediaPlayerApp) : bool * Q * Q :=
  (controls_visible a, last_touch_time a, controls_timeout a).

End App.

(* ===================================================================== *)
(** * media_player.py: battery check and shutdown *)
(* ===================================================================== *)

Module Power.

Local Open Scope py_scope.

(** The application together with its battery monitor and the number of
    times [os.system('sudo shutdown -h now')] has been run. *)
Record System := mkSystem {
  world : App.AppWorld;
  battery_monitor : Battery.BatteryMonitor;
  shutdown_commands : nat
}.

(** [config['player_settings']['critical_battery_threshold']] and
    [config['player_settings']['low_battery_threshold']]. *)
Record Thresholds := mkThresholds {
  critical_battery_threshold : Z;
  low_battery_threshold : Z
}.

(** Run a handler of the application. *)
Definition on_app {A} (m : M App.AppWorld A) : M System A :=
  fun s =>
    let '(r, aw') := m (world s) in
    (r, {| world := aw'; battery_monitor := battery_monitor s;
           shutdown_commands := shutdown_commands s |}).

Definition set_battery_monitor (m : Battery.BatteryMonitor) (s : System)
  : System :=
  {| world := world s; battery_monitor := m;
     shutdown_commands := shutdown_commands s |}.

Definition run_shutdown_command (s : System) : System :=
  {| world := world s; battery_monitor := battery_monitor s;
     shutdown_commands := S (shutdown_commands s) |}.

Section WithEnv.

Variable env : Player.Env.
Variable thresholds : Thresholds.

(** [MediaPlayerApp.shutdown_system]. *)
Definition shutdown_system : M System unit :=
  try_log (
    s <- get ;;
    when (truthy (App.current_video (App.app (world s))))
         (on_app (App.on_player (Player.save_state env))) ;;
    modify run_shutdown_command).

(** [MediaPlayerApp.handle_critical_battery]; the message is shown at
    [now], the five seconds of [time.sleep] pass, then the shutdown. *)
Definition handle_critical_battery (now : Q) : M System unit :=
  on_app (App.show_message now
            "Critical Battery Level - Shutting Down in 5 seconds") ;;
  shutdown_system.

(** [MediaPlayerApp.check_battery]; [hw] is the answer of the battery
    pin, as for [Battery.get_level]. *)
Definition check_battery (now : Q) (hw : option Z) : M System unit :=
  try_log (
    s <- get ;;
    let '(m, battery_level) := Battery.get_level (battery_monitor s) hw in
    modify (set_battery_monitor m) ;;
    if (battery_level <=? critical_battery_threshold thresholds)%Z then
      handle_critical_battery now
    else if (battery_level <=? low_battery_threshold thresholds)%Z then
      on_app (App.show_message now
                ("Low Battery: " ++ str battery_level ++ "%"))
    else ret tt).

(** The player as [shutdown_system] leaves it: the state has been saved
    when a video is loaded. *)
Definition player_at_shutdown (aw : App.AppWorld) : Player.World :=
  if truthy (App.current_video (App.app aw))
  then snd (Player.save_state env (App.video_player aw))
  else App.video_player aw.

(** [MediaPlayerApp._power_button_callback]. *)
Definition _power_button_callback (now : Q) : M System unit :=
  try_log (
    on_app (App.show_message now "Shutting Down...") ;;
    shutdown_system).

(** The system after a sequence of battery checks, each given by its
    time and the answer of the pin. *)
Definition run_checks (s : System) (checks : list (Q * option Z)) : System :=
  fold_left (fun s c => snd (check_battery (fst c) (snd c) s)) checks s.

End WithEnv.

End Power.

(* ===================================================================== *)
(** * Sample configurations and collaborators *)
(* ===================================================================== *)

Module Samples.

(** Two buttons on pins 17 and 27, 0.3 s software debounce. *)
Definition button_cfg : Buttons.Config :=
  {| Buttons.gpio_pins := [("play", 17); ("stop", 27)];
     Buttons.button_debounce_time := 3 # 10 |}.

Definition gpio_ok : Buttons.GpioInit :=
  {| Buttons.setmode_ok := true;
     Buttons.setup_ok := fun _ => true;
     Buttons.add_event_detect_ok := fun _ => true |}.

(** A pipeline that never raises and reports 42 s of position or
    duration; the files [a.mp4] and [b.mp4] exist. *)
Definition env_ok : Player.Env :=
  {| Player.path_exists :=
       fun p => String.eqb p "a.mp4" || String.eqb p "b.mp4";
     Player.gst_raises := fun _ _ => None;
     Player.gst_query := fun _ _ => inr (true, 42000000000);
     Player.state_read_raises := false;
     Player.state_write := Player.Written |}.

(** A pipeline whose queries raise; no file exists. *)
Definition env_broken : Player.Env :=
  {| Player.path_exists := fun _ => false;
     Player.gst_raises := fun _ _ => Some "gst";
     Player.gst_query := fun _ _ => inl "gst";
     Player.state_read_raises := false;
     Player.state_write := Player.Written |}.

(** As [env_ok], but [json.dump] fails while [playback_state.json] is
    being written. *)
Definition env_dump_fails : Player.Env :=
  {| Player.path_exists := Player.path_exists env_ok;
     Player.gst_raises := fun _ _ => None;
     Player.gst_query := fun _ _ => inr (true, 42000000000);
     Player.state_read_raises := false;
     Player.state_write := Player.DumpFails |}.

(** The files exist but the pipeline refuses every call. *)
Definition env_refuses : Player.Env :=
  {| Player.path_exists := Player.path_exists env_ok;
     Player.gst_raises := fun _ _ => Some "busy";
     Player.gst_query := fun _ _ => inl "busy";
     Player.state_read_raises := false;
     Player.state_write := Player.Written |}.

(** A freshly initialised player at volume 80. *)
Definition player0 : Player.VideoPlayer :=
  {| Player.pipeline := true; Player.current_video := None;
     Player.playback_position := 0; Player.volume := 80;
     Player.is_playing := false |}.

(** The state file holds the record for [a.mp4] at 42 s, volume 60. *)
Definition world_saved : Player.World :=
  {| Player.vp := player0;
     Player.state_file :=
       Player.Stored {| Player.ps_video_path := "a.mp4";
                        Player.ps_position := 42;
                        Player.ps_volume := 60 |};
     Player.gst_log := [] |}.

Definition world0 : Player.World :=
  {| Player.vp := player0; Player.state_file := Player.Absent;
     Player.gst_log := [] |}.

(** Tag A is bound to [a.mp4] and tag B to [b.mp4]. *)
Definition tag_A : string := "1001".
Definition tag_B : string := "1002".

Definition tags : list App.TagBinding :=
  [ {| App.tag_id := tag_A; App.video_path := "a.mp4" |};
    {| App.tag_id := tag_B; App.video_path := "b.mp4" |} ].

(** The application right after start-up. *)
Definition app0 : App.AppWorld :=
  {| App.app := App.init_app tags;
     App.rfid_reader := RFID.init true;
     App.video_player := world0 |}.

(** [a.mp4] is loaded and paused, the controls were shown at time 0. *)
Definition app_paused : App.AppWorld :=
  {| App.app :=
       App.with_controls true 1
         (App.with_current_video (Some "a.mp4") (App.init_app tags));
     App.rfid_reader := RFID.init true;
     App.video_player :=
       Player.set_vp (Player.with_current_video (Some "a.mp4")) world0 |}.

(** The application at start-up with its battery monitor; the critical
    threshold is 10 % and the low threshold 20 %. *)
Definition system0 : Power.System :=
  {| Power.world := app0;
     Power.battery_monitor := Battery.init;
     Power.shutdown_commands := 0 |}.

Definition thresholds : Power.Thresholds :=
  {| Power.critical_battery_threshold := 10;
     Power.low_battery_threshold := 20 |}.

End Samples.

(* ===================================================================== *)
(** * Properties *)
(* ===================================================================== *)

(** ** Primitives *)

Lemma Qltb_lt (x y : Q) : Qltb x y = true <-> (x < y)%Q.
Proof. unfold Qltb, Qlt. apply Z.ltb_lt. Qed.

Lemma Qltb_ge (x y : Q) : Qltb x y = false <-> (y <= x)%Q.
Proof. unfold Qltb, Qle. apply Z.ltb_ge. Qed.

Lemma to_uint_not_nil (p : positive) : Pos.to_uint p <> Decimal.Nil.
Proof.
  intros H. pose proof (Unsigned.of_to p) as E. rewrite H in E. discriminate E.
Qed.

(** [str] is the decimal numeral read back by [int_of_string]. *)
Lemma str_parse (n : Z) : NilZero.int_of_string (str n) = Some (Z.to_int n).
Proof.
  unfold str. destruct n as [|p|p]; simpl Z.to_int.
  - reflexivity.
  - apply NilZero.isi; intros [= E]; exact (to_uint_not_nil p E).
  - apply NilZero.isi; intros [= E]; exact (to_uint_not_nil p E).
Qed.

(** Distinct integers have distinct numerals. *)
Lemma str_inj (a b : Z) : str a = str b -> a = b.
Proof.
  intros E. apply DecimalZ.to_int_inj.
  pose proof (str_parse a) as Ha. rewrite E, str_parse in Ha.
  now injection Ha.
Qed.

Lemma str_ne_opt_same (s : string) : str_ne_opt s (Some s) = false.
Proof. simpl. now rewrite String.eqb_refl. Qed.

Lemma str_ne_opt_diff (a b : Z) :
  a <> b -> str_ne_opt (str a) (Some (str b)) = true.
Proof.
  intros Hab. simpl. destruct (String.eqb_spec (str a) (str b)) as [E|E].
  - exfalso. apply Hab. now apply str_inj.
  - reflexivity.
Qed.

Example str_examples : str 0 = "0" /\ str 42 = "42" /\ str (-7) = "-7".
Proof. repeat split. Qed.

(** *** Rounding to a float *)

Lemma round_half_even_lower (n d k : Z) :
  0 < d -> d * k <= n -> k <= round_half_even n d.
Proof.
  intros Hd H. unfold round_half_even.
  pose proof (Z.div_mod n d ltac:(lia)) as E.
  pose proof (Z.mod_pos_bound n d Hd) as B.
  assert (k <= n / d) by nia.
  destruct (2 * (n mod d) <? d)%Z; [lia|].
  destruct (d <? 2 * (n mod d))%Z; [lia|].
  destruct (Z.even (n / d)); lia.
Qed.

Lemma round_half_even_upper (n d k : Z) :
  0 < d -> n <= d * k -> round_half_even n d <= k.
Proof.
  intros Hd H. unfold round_half_even.
  pose proof (Z.div_mod n d ltac:(lia)) as E.
  pose proof (Z.mod_pos_bound n d Hd) as B.
  assert (n / d <= k) by nia.
  destruct (Z.ltb_spec (2 * (n mod d)) d) as [L|L]; [lia|].
  assert (n / d < k) by nia.
  destruct (d <? 2 * (n mod d))%Z; [lia|].
  destruct (Z.even (n / d)); lia.
Qed.

Lemma ilog2_le (n d : Z) :
  0 < n -> 0 < d ->
  d * 2 ^ Z.max 0 (ilog2 n d) <= n * 2 ^ Z.max 0 (- ilog2 n d).
Proof.
  intros Hn Hd. unfold ilog2.
  set (k := Z.log2 n - Z.log2 d).
  destruct (Z.ltb_spec (n * 2 ^ Z.max 0 (- k)) (d * 2 ^ Z.max 0 k)) as [L|L];
    [|exact L].
  pose proof (Z.log2_spec n Hn) as [Ln _].
  pose proof (Z.log2_spec d Hd) as [_ Ld].
  pose proof (Z.log2_nonneg n) as Nn.
  pose proof (Z.log2_nonneg d) as Nd.
  destruct (Z.le_gt_cases 1 k) as [Hk|Hk].
  - replace (Z.max 0 (k - 1)) with (k - 1) by lia.
    replace (Z.max 0 (- (k - 1))) with 0 by lia.
    rewrite Z.pow_0_r, Z.mul_1_r.
    assert (E : 2 ^ Z.log2 n = 2 ^ (Z.log2 d + 1) * 2 ^ (k - 1)).
    { rewrite <- Z.pow_add_r by lia. f_equal. unfold k. lia. }
    assert (0 < 2 ^ (k - 1)) by (apply Z.pow_pos_nonneg; lia).
    nia.
  - replace (Z.max 0 (k - 1)) with 0 by lia.
    replace (Z.max 0 (- (k - 1))) with (1 - k) by lia.
    rewrite Z.pow_0_r, Z.mul_1_r.
    assert (E : 2 ^ (Z.log2 d + 1) = 2 ^ Z.log2 n * 2 ^ (1 - k)).
    { rewrite <- Z.pow_add_r by lia. f_equal. unfold k. lia. }
    assert (0 < 2 ^ (1 - k)) by (apply Z.pow_pos_nonneg; lia).
    nia.
Qed.

Lemma Zpos_to_pos_pow2 (a : Z) : 0 <= a -> Zpos (Z.to_pos (2 ^ a)) = 2 ^ a.
Proof. intros H. apply Z2Pos.id. apply Z.pow_pos_nonneg; lia. Qed.


Lemma to_float_some (x y : Q) :
  to_float x = Some y -> Qnum x <> 0 -> y = nearest x.
Proof.
  unfold to_float, nearest, last_place. intros E Hx.
  destruct (Z.eqb_spec (Qnum x) 0) as [|_]; [contradiction|].
  destruct (Qle_bool _ _) in E; [discriminate|]. congruence.
Qed.

Lemma to_float_zero (x y : Q) :
  to_float x = Some y -> Qnum x = 0 -> y = 0%Q.
Proof.
  unfold to_float. intros E Hx. rewrite Hx in E. simpl in E. congruence.
Qed.

(** Rounding keeps the sign. *)
Lemma to_float_nonpos (x y : Q) :
  to_float x = Some y -> (x <= 0)%Q -> (y <= 0)%Q.
Proof.
  intros E Hx. destruct (Z.eq_dec (Qnum x) 0) as [Z0|NZ].
  - rewrite (to_float_zero x y E Z0). apply Qle_refl.
  - rewrite (to_float_some x y E NZ). clear E. unfold nearest.
    set (e := last_place x).
    unfold Qle in *. cbn [Qnum Qden] in *.
    assert (0 < 2 ^ Z.max 0 e) by (apply Z.pow_pos_nonneg; lia).
    assert (0 < 2 ^ Z.max 0 (- e)) by (apply Z.pow_pos_nonneg; lia).
    assert (round_half_even (Qnum x * 2 ^ Z.max 0 (- e))
              (Zpos (Qden x) * 2 ^ Z.max 0 e) <= 0)
      by (apply round_half_even_upper; nia).
    nia.
Qed.

(** Rounding does not cross an integer that is itself a float. *)
Lemma to_float_above (x y : Q) (k : Z) :
  to_float x = Some y -> 1 <= k <= 2 ^ 53 ->
  (inject_Z k <= x)%Q -> (inject_Z k <= y)%Q.
Proof.
  intros E Hk Hx.
  unfold Qle in Hx. cbn [Qnum Qden inject_Z] in Hx.
  assert (Hn : 0 < Qnum x) by nia.
  rewrite (to_float_some x y E) by lia. clear E.
  unfold nearest, last_place. rewrite (Z.abs_eq (Qnum x)) by lia.
  set (n := Qnum x) in *. set (d := Zpos (Qden x)) in *.
  assert (Hd : 0 < d) by (unfold d; lia).
  pose proof (ilog2_le n d Hn Hd) as Hil.
  set (il := ilog2 n d) in *.
  set (e := Z.max il (-1022) - 52).
  unfold Qle. cbn [Qnum Qden inject_Z].
  destruct (Z.le_gt_cases e 0) as [He|He].
  - replace (Z.max 0 e) with 0 by lia.
    replace (Z.max 0 (- e)) with (- e) by lia.
    rewrite Zpos_to_pos_pow2 by lia. rewrite Z.pow_0_r, !Z.mul_1_r.
    assert (0 < 2 ^ (- e)) by (apply Z.pow_pos_nonneg; lia).
    apply round_half_even_lower; [lia | nia].
  - replace (Z.max 0 e) with e by lia.
    replace (Z.max 0 (- e)) with 0 by lia.
    change (Z.pos (Z.to_pos (2 ^ 0))) with 1.
    rewrite Z.pow_0_r, !Z.mul_1_r.
    assert (Eil : il = e + 52) by lia.
    replace (Z.max 0 il) with (e + 52) in Hil by lia.
    replace (Z.max 0 (- il)) with 0 in Hil by lia.
    rewrite Z.pow_add_r, Z.pow_0_r, Z.mul_1_r in Hil by lia.
    assert (0 < 2 ^ e) by (apply Z.pow_pos_nonneg; lia).
    assert (2 ^ 52 <= round_half_even n (d * 2 ^ e))
      by (apply round_half_even_lower; nia).
    assert (2 <= 2 ^ e)
      by (change 2 with (2 ^ 1) at 1; apply Z.pow_le_mono_r; lia).
    change (2 ^ 53) with (2 ^ 52 * 2) in Hk.
    assert (0 < 2 ^ 52) by reflexivity.
    nia.
Qed.

(** A result within the range of a power of two that is a float is
    rounded to a float within the same range. *)
Lemma to_float_within (x : Q) (j : Z) :
  0 <= j <= 1023 ->
  (Qabs x <= inject_Z (2 ^ j))%Q ->
  exists y, to_float x = Some y /\ (Qabs y <= inject_Z (2 ^ j))%Q.
Proof.
  intros Hj Hx. unfold to_float.
  destruct (Z.eqb_spec (Qnum x) 0) as [Z0|NZ].
  - exists 0%Q. split; [reflexivity|].
    unfold Qle. cbn. assert (0 < 2 ^ j) by (apply Z.pow_pos_nonneg; lia). lia.
  - cbv zeta.
    assert (B : (Qabs (nearest x) <= inject_Z (2 ^ j))%Q).
    { unfold nearest, last_place.
      destruct x as [n d]. unfold Qabs, Qle in *. cbn [Qnum Qden inject_Z] in *.
      set (D := Zpos d) in *. assert (HD : 0 < D) by (unfold D; lia).
      assert (Hn : 0 < Z.abs n) by lia.
      pose proof (ilog2_le (Z.abs n) D Hn HD) as Hil.
      set (il := ilog2 (Z.abs n) D) in *.
      set (e := Z.max il (-1022) - 52).
      assert (P : 0 < 2 ^ j) by (apply Z.pow_pos_nonneg; lia).
      rewrite Z.mul_1_r in *.
      destruct (Z.le_gt_cases e 0) as [He|He].
      - replace (Z.max 0 e) with 0 by lia.
        replace (Z.max 0 (- e)) with (- e) by lia.
        rewrite Zpos_to_pos_pow2 by lia. rewrite Z.pow_0_r, !Z.mul_1_r.
        assert (0 < 2 ^ (- e)) by (apply Z.pow_pos_nonneg; lia).
        assert (round_half_even (n * 2 ^ (- e)) D <= 2 ^ j * 2 ^ (- e))
          by (apply round_half_even_upper; nia).
        assert (- (2 ^ j * 2 ^ (- e)) <= round_half_even (n * 2 ^ (- e)) D)
          by (apply round_half_even_lower; nia).
        lia.
      - replace (Z.max 0 e) with e by lia.
        replace (Z.max 0 (- e)) with 0 by lia.
        change (Z.pos (Z.to_pos (2 ^ 0))) with 1.
        rewrite Z.pow_0_r, !Z.mul_1_r.
        assert (Eil : il = e + 52) by lia.
        replace (Z.max 0 il) with il in Hil by lia.
        replace (Z.max 0 (- il)) with 0 in Hil by lia.
        rewrite Z.pow_0_r, Z.mul_1_r in Hil.
        assert (Hle : il <= j).
        { apply (Z.pow_le_mono_r_iff 2); [lia | lia | nia]. }
        assert (0 < 2 ^ e) by (apply Z.pow_pos_nonneg; lia).
        assert (Ej : 2 ^ j = 2 ^ e * 2 ^ (j - e)).
        { rewrite <- Z.pow_add_r by lia. f_equal. lia. }
        assert (0 < 2 ^ (j - e)) by (apply Z.pow_pos_nonneg; lia).
        assert (round_half_even n (D * 2 ^ e) <= 2 ^ (j - e))
          by (apply round_half_even_upper; nia).
        assert (- 2 ^ (j - e) <= round_half_even n (D * 2 ^ e))
          by (apply round_half_even_lower; nia).
        rewrite Z.abs_mul, (Z.abs_eq (2 ^ e)) by lia. nia. }
    destruct (Qle_bool _ _) eqn:O.
    + exfalso. apply Qle_bool_iff in O.
      pose proof (Qle_trans _ _ _ O B) as C. unfold Qle in C. cbn in C.
      assert (2 ^ j < 2 ^ 1024) by (apply Z.pow_lt_mono_r; lia). 
      rewrite !Z.mul_1_r in C. lia.
    + eexists. split; [reflexivity | exact B].
Qed.

(** Rounding does not cross a power of two. *)
Lemma to_float_above_pow2 (x y : Q) (j : Z) :
  to_float x = Some y -> 0 <= j ->
  (inject_Z (2 ^ j) <= x)%Q -> (inject_Z (2 ^ j) <= y)%Q.
Proof.
  intros E Hj Hx.
  assert (Pj : 0 < 2 ^ j) by (apply Z.pow_pos_nonneg; lia).
  unfold Qle in Hx. cbn [Qnum Qden inject_Z] in Hx.
  assert (Hn : 0 < Qnum x) by nia.
  rewrite (to_float_some x y E) by lia. clear E.
  unfold nearest, last_place. rewrite (Z.abs_eq (Qnum x)) by lia.
  set (n := Qnum x) in *. set (d := Zpos (Qden x)) in *.
  assert (Hd : 0 < d) by (unfold d; lia).
  pose proof (ilog2_le n d Hn Hd) as Hil.
  set (il := ilog2 n d) in *.
  set (e := Z.max il (-1022) - 52).
  unfold Qle. cbn [Qnum Qden inject_Z].
  destruct (Z.le_gt_cases e 0) as [He|He].
  - replace (Z.max 0 e) with 0 by lia.
    replace (Z.max 0 (- e)) with (- e) by lia.
    rewrite Zpos_to_pos_pow2 by lia. rewrite Z.pow_0_r, !Z.mul_1_r.
    assert (0 < 2 ^ (- e)) by (apply Z.pow_pos_nonneg; lia).
    apply round_half_even_lower; [lia | nia].
  - replace (Z.max 0 e) with e by lia.
    replace (Z.max 0 (- e)) with 0 by lia.
    change (Z.pos (Z.to_pos (2 ^ 0))) with 1.
    rewrite Z.pow_0_r, !Z.mul_1_r.
    assert (Pe : 0 < 2 ^ e) by (apply Z.pow_pos_nonneg; lia).
    destruct (Z.le_gt_cases e j) as [Hej|Hej].
    + assert (Ej : 2 ^ j = 2 ^ e * 2 ^ (j - e)).
      { rewrite <- Z.pow_add_r by lia. f_equal. lia. }
      assert (0 < 2 ^ (j - e)) by (apply Z.pow_pos_nonneg; lia).
      assert (2 ^ (j - e) <= round_half_even n (d * 2 ^ e))
        by (apply round_half_even_lower; nia).
      nia.
    + assert (Eil : il = e + 52) by lia.
      replace (Z.max 0 il) with (e + 52) in Hil by lia.
      replace (Z.max 0 (- il)) with 0 in Hil by lia.
      rewrite Z.pow_add_r, Z.pow_0_r, Z.mul_1_r in Hil by lia.
      assert (2 ^ 52 <= round_half_even n (d * 2 ^ e))
        by (apply round_half_even_lower; nia).
      assert (2 ^ j <= 2 ^ e) by (apply Z.pow_le_mono_r; lia).
      assert (0 < 2 ^ 52) by reflexivity.
      nia.
Qed.

Lemma to_float_below_pow2 (x y : Q) (j : Z) :
  to_float x = Some y -> 0 <= j ->
  (x <= - inject_Z (2 ^ j))%Q -> (y <= - inject_Z (2 ^ j))%Q.
Proof.
  intros E Hj Hx.
  assert (Pj : 0 < 2 ^ j) by (apply Z.pow_pos_nonneg; lia).
  unfold Qle in Hx. cbn [Qnum Qden inject_Z Qopp] in Hx.
  assert (Hn : Qnum x < 0) by nia.
  rewrite (to_float_some x y E) by lia. clear E.
  unfold nearest, last_place. rewrite (Z.abs_neq (Qnum x)) by lia.
  set (n := Qnum x) in *. set (d := Zpos (Qden x)) in *.
  assert (Hd : 0 < d) by (unfold d; lia).
  assert (Hn' : 0 < - n) by lia.
  pose proof (ilog2_le (- n) d Hn' Hd) as Hil.
  set (il := ilog2 (- n) d) in *.
  set (e := Z.max il (-1022) - 52).
  unfold Qle. cbn [Qnum Qden inject_Z Qopp].
  destruct (Z.le_gt_cases e 0) as [He|He].
  - replace (Z.max 0 e) with 0 by lia.
    replace (Z.max 0 (- e)) with (- e) by lia.
    rewrite Zpos_to_pos_pow2 by lia. rewrite Z.pow_0_r, !Z.mul_1_r.
    assert (0 < 2 ^ (- e)) by (apply Z.pow_pos_nonneg; lia).
    assert (round_half_even (n * 2 ^ (- e)) d <= - (2 ^ j * 2 ^ (- e)))
      by (apply round_half_even_upper; nia).
    lia.
  - replace (Z.max 0 e) with e by lia.
    replace (Z.max 0 (- e)) with 0 by lia.
    change (Z.pos (Z.to_pos (2 ^ 0))) with 1.
    rewrite Z.pow_0_r, !Z.mul_1_r.
    assert (Pe : 0 < 2 ^ e) by (apply Z.pow_pos_nonneg; lia).
    destruct (Z.le_gt_cases e j) as [Hej|Hej].
    + assert (Ej : 2 ^ j = 2 ^ e * 2 ^ (j - e)).
      { rewrite <- Z.pow_add_r by lia. f_equal. lia. }
      assert (0 < 2 ^ (j - e)) by (apply Z.pow_pos_nonneg; lia).
      assert (round_half_even n (d * 2 ^ e) <= - 2 ^ (j - e))
        by (apply round_half_even_upper; nia).
      nia.
    + assert (Eil : il = e + 52) by lia.
      replace (Z.max 0 il) with (e + 52) in Hil by lia.
      replace (Z.max 0 (- il)) with 0 in Hil by lia.
      rewrite Z.pow_add_r, Z.pow_0_r, Z.mul_1_r in Hil by lia.
      assert (round_half_even n (d * 2 ^ e) <= - 2 ^ 52)
        by (apply round_half_even_upper; nia).
      assert (2 ^ j <= 2 ^ e) by (apply Z.pow_le_mono_r; lia).
      assert (0 < 2 ^ 52) by reflexivity.
      nia.
Qed.

(** A float is below [2 ^ 1024] in magnitude. *)
Lemma to_float_finite (x y : Q) :
  to_float x = Some y -> (Qabs y < inject_Z (2 ^ 1024))%Q.
Proof.
  unfold to_float. destruct (Qnum x =? 0)%Z.
  - intros [= <-]. reflexivity.
  - cbv zeta. destruct (Qle_bool _ _) eqn:O; [discriminate|].
    intros [= <-]. apply Qnot_le_lt. intros H.
    apply Qle_bool_iff in H. congruence.
Qed.

Lemma int_of_float_nonpos (q : Q) : (q <= 0)%Q -> int_of_float q <= 0.
Proof.
  unfold Qle, int_of_float. cbn [Qnum Qden]. intros H.
  apply Z.quot_le_upper_bound; lia.
Qed.

Lemma int_of_float_above (q : Q) (k : Z) :
  0 <= k -> (inject_Z k <= q)%Q -> k <= int_of_float q.
Proof.
  unfold Qle, int_of_float. cbn [Qnum Qden inject_Z]. intros Hk H.
  apply Z.quot_le_lower_bound; lia.
Qed.

(** Unfolding of the monad operations. *)
Ltac run_py :=
  unfold try_log, try_except, when, bind, get, modify, ret, raise; simpl.

(** ** rfid_reader.py *)

Module RFIDFacts.
Import RFID.

#[local] Arguments str_ne_opt : simpl never.

(** A read that returns a tag id leaves the reader connected, stamped
    with the time of the read and remembering the id. *)
Lemma read_tag_accepted (r : RFIDReader) (t : Q) (hw : Poll) (s : string) :
  snd (read_tag r t hw) = Some s ->
  fst (read_tag r t hw) =
    {| is_connected := true; last_read_time := t; last_tag_id := Some s |}.
Proof.
  unfold read_tag.
  destruct (is_connected r) eqn:Hc; simpl; [|discriminate].
  destruct (Qltb (t - last_read_time r) 1); [discriminate|].
  destruct hw as [[id|]|ok]; try discriminate.
  destruct (str_ne_opt (str id) _); [|discriminate].
  simpl. intros [= <-]. unfold set_last_tag_id, set_last_read_time. simpl.
  now rewrite Hc.
Qed.

(** While the reader remembers [T], polling [T] again never signals. *)
Lemma read_tag_same_id (r : RFIDReader) (t : Q) (T : Z) :
  last_tag_id r = Some (str T) ->
  snd (read_tag r t (PollId (Some T))) = None.
Proof.
  intros HT. unfold read_tag.
  destruct (negb (is_connected r)); [reflexivity|].
  destruct (Qltb _ _); [reflexivity|].
  simpl. rewrite HT, str_ne_opt_same. reflexivity.
Qed.

(** One poll with only [T] in front of the antenna: no signal, and the
    remembered id stays [T]. *)
Lemma read_tag_only_tag (r : RFIDReader) (T : Z) (p : Q * Poll) :
  last_tag_id r = Some (str T) ->
  only_tag T p = true ->
  snd (read_tag r (fst p) (snd p)) = None /\
  last_tag_id (fst (read_tag r (fst p) (snd p))) = Some (str T).
Proof.
  intros HT Hp. destruct p as [t hw]. unfold only_tag in Hp. simpl in *.
  unfold read_tag.
  destruct (negb (is_connected r)); [now split|].
  destruct (Qltb _ _); [now split|].
  destruct hw as [[id|]|ok]; simpl; try now split.
  apply Z.eqb_eq in Hp. subst id. rewrite HT, str_ne_opt_same. simpl.
  now split.
Qed.

(** C1, refuted as stated: the reader accepts tag 1 at time 10; half a
    second later a different tag, 2, is in front of the antenna, and
    [read_tag] returns [None] instead of a signal for the new tag. *)
Lemma different_tag_within_window_is_dropped :
  let first := read_tag (init true) 10 (PollId (Some 1)) in
  let second := read_tag (fst first) (21 # 2) (PollId (Some 2)) in
  snd first = Some "1" /\
  ((21 # 2) - 10 < 1)%Q /\
  snd second = None /\
  snd second <> Some (str 2).
Proof. vm_compute. repeat split; discriminate. Qed.

(** C1, amended: of two consecutive reads the first of which is accepted
    (returns its tag id), a second read of the same id returns [None];
    a second read of a different id returns [None] when it falls within
    one second of the first, and returns the new id when it comes at
    least one second after the first. *)
Theorem read_tag_consecutive (r : RFIDReader) (t1 t2 : Q) (a b : Z) :
  let first := read_tag r t1 (PollId (Some a)) in
  let second := read_tag (fst first) t2 (PollId (Some b)) in
  snd first = Some (str a) ->
  (a = b -> snd second = None) /\
  (a <> b -> (t2 - t1 < 1)%Q -> snd second = None) /\
  (a <> b -> (1 <= t2 - t1)%Q -> snd second = Some (str b)).
Proof.
  intros first second Hacc.
  assert (Hr : fst first =
               {| is_connected := true; last_read_time := t1;
                  last_tag_id := Some (str a) |})
    by (apply read_tag_accepted; exact Hacc).
  subst second. rewrite Hr. clear Hr Hacc first.
  split; [|split].
  - intros <-. now apply read_tag_same_id.
  - intros _ Hlt. unfold read_tag. simpl.
    apply Qltb_lt in Hlt. now rewrite Hlt.
  - intros Hab Hge. unfold read_tag. simpl.
    apply Qltb_ge in Hge. rewrite Hge.
    rewrite str_ne_opt_diff by congruence. reflexivity.
Qed.

Lemma read_tag_consecutive_witness :
  let first := read_tag (init true) 10 (PollId (Some 1)) in
  let second := read_tag (fst first) 12 (PollId (Some 2)) in
  snd first = Some (str 1) /\ snd second = Some (str 2).
Proof.
  assert (H : snd (read_tag (init true) 10 (PollId (Some 1))) = Some (str 1))
    by (vm_compute; reflexivity).
  split; [exact H|].
  refine (proj2 (proj2 (read_tag_consecutive (init true) 10 12 1 2 H)) _ _).
  - lia.
  - vm_compute. discriminate.
Defined.

(** C2, refuted as stated: tag 7 is accepted at time 10.  Ten seconds
    later, well after the one-second window, the same tag is presented
    and [read_tag] returns [None].  Likewise when the tag is taken away
    (a poll at 12 finds nothing) and presented again at 14. *)
Lemma same_tag_never_retriggers :
  let accepted := read_tag (init true) 10 (PollId (Some 7)) in
  let later := read_tag (fst accepted) 20 (PollId (Some 7)) in
  let removed := read_tag (fst accepted) 12 (PollId None) in
  let again := read_tag (fst removed) 14 (PollId (Some 7)) in
  snd accepted = Some (str 7) /\
  (1 <= 20 - 10)%Q /\
  snd later = None /\
  snd removed = None /\
  snd again = None /\
  snd later <> Some (str 7) /\ snd again <> Some (str 7).
Proof. vm_compute. repeat split; discriminate. Qed.

(** C2, amended: once [T] is the last accepted tag id, no run of polls
    that only ever sees [T] (present, absent, or with the hardware
    failing) makes [read_tag] return a tag id, however long the run and
    whatever the times of the polls; the remembered id is still [T] at
    the end.  [T] can only be returned again after a different id has
    been read. *)
Theorem same_tag_suppressed (T : Z) (polls : list (Q * Poll))
    (r : RFIDReader) :
  last_tag_id r = Some (str T) ->
  forallb (only_tag T) polls = true ->
  Forall (fun out => out = None) (snd (read_tags r polls)) /\
  last_tag_id (fst (read_tags r polls)) = Some (str T).
Proof.
  revert r. induction polls as [|[t hw] rest IH]; intros r HT Hall.
  - simpl. split; [constructor | exact HT].
  - simpl in Hall. apply andb_true_iff in Hall as [Hp Hrest].
    destruct (read_tag_only_tag r T (t, hw) HT Hp) as [Hout Hlast].
    simpl in Hout, Hlast. simpl.
    destruct (read_tag r t hw) as [r1 out] eqn:E1. simpl in Hout, Hlast.
    destruct (IH r1 Hlast Hrest) as [Houts Hfin].
    destruct (read_tags r1 rest) as [r2 outs]. simpl in *.
    split; [constructor; assumption | exact Hfin].
Qed.

Lemma same_tag_suppressed_witness :
  let r := fst (read_tag (init true) 10 (PollId (Some 7))) in
  let polls := [(12%Q, PollId None); (14%Q, PollId (Some 7));
                (20%Q, PollRaises true); (30%Q, PollId (Some 7))] in
  Forall (fun out => out = None) (snd (read_tags r polls)) /\
  last_tag_id (fst (read_tags r polls)) = Some (str 7).
Proof.
  apply (same_tag_suppressed 7).
  - vm_compute. reflexivity.
  - reflexivity.
Defined.

(** The same tag does come back after another one has been accepted. *)
Lemma tag_returns_after_another (r : RFIDReader) (t1 t2 : Q) (T other : Z) :
  snd (read_tag r t1 (PollId (Some other))) = Some (str other) ->
  other <> T -> (1 <= t2 - t1)%Q ->
  snd (read_tag (fst (read_tag r t1 (PollId (Some other)))) t2
                (PollId (Some T))) = Some (str T).
Proof.
  intros Hacc Hne Hge.
  assert (Hr := read_tag_accepted _ _ _ _ Hacc). rewrite Hr.
  unfold read_tag. simpl. apply Qltb_ge in Hge. rewrite Hge.
  rewrite str_ne_opt_diff by congruence. reflexivity.
Qed.

End RFIDFacts.

(** ** battery_monitor.py *)

Module BatteryFacts.
Import Battery.

Lemma convert_in_range (raw_value p : Z) :
  _convert_to_percentage raw_value = Some p -> 0 <= p <= 100.
Proof.
  unfold _convert_to_percentage.
  destruct (to_float _) as [q|]; [|discriminate].
  destruct (to_float _) as [pc|]; [|discriminate].
  intros [= <-]. lia.
Qed.

Example convert_examples :
  _convert_to_percentage 0 = Some 0 /\
  _convert_to_percentage 1 = Some 0 /\
  _convert_to_percentage 512 = Some 50 /\
  _convert_to_percentage 1023 = Some 100 /\
  _convert_to_percentage 5000 = Some 100 /\
  _convert_to_percentage (-40) = Some 0 /\
  _convert_to_percentage (10 ^ 400) = None /\
  _convert_to_percentage (- 10 ^ 400) = None.
Proof. vm_compute. repeat split. Qed.

(** A read that fails returns the stored level and stores nothing. *)
Lemma get_level_failed (m : BatteryMonitor) (hw : option Z) :
  succeeds hw = false -> get_level m hw = (m, battery_level m).
Proof.
  unfold succeeds, get_level. destruct hw as [raw|]; [|reflexivity].
  now destruct (_convert_to_percentage raw).
Qed.

(** A read that succeeds returns the level it stores, whatever was
    stored before. *)
Lemma get_level_succeeded (m : BatteryMonitor) (hw : option Z) :
  succeeds hw = true ->
  get_level m hw = ({| battery_level := snd (get_level init hw) |},
                    snd (get_level init hw)).
Proof.
  unfold succeeds, get_level. destruct hw as [raw|]; [|discriminate].
  now destruct (_convert_to_percentage raw).
Qed.

(** The level stored after a run of reads is the one returned by the
    last read that succeeded, or the level the run started with. *)
Lemma level_after_reads (hws : list (option Z)) (m : BatteryMonitor) :
  battery_level (fst (get_levels m hws)) =
    match last_success hws with
    | Some raw => snd (get_level init (Some raw))
    | None => battery_level m
    end.
Proof.
  revert m. induction hws as [|hw rest IH]; intros m; simpl.
  - reflexivity.
  - destruct (get_level m hw) as [m1 v] eqn:E1.
    specialize (IH m1).
    destruct (get_levels m1 rest) as [m2 vs]. simpl in *.
    rewrite IH. destruct (last_success rest); [reflexivity|].
    destruct (succeeds hw) eqn:Hs.
    + rewrite (get_level_succeeded m hw Hs) in E1.
      destruct hw as [raw|]; [|discriminate Hs].
      now injection E1 as <- _.
    + rewrite (get_level_failed m hw Hs) in E1. now injection E1 as <- _.
Qed.

(** C5: after any sequence of reads since initialization, a read that
    fails (the pin raises, or the conversion of its answer does) returns
    what the most recent successful read returned; it returns the
    default 100 of [__init__] when no read has succeeded so far.  A read
    whose conversion raised does not count as successful: it stored
    nothing. *)
Theorem failed_read_returns_last_good (history : list (option Z))
    (hw : option Z) :
  succeeds hw = false ->
  snd (get_level (fst (get_levels init history)) hw) =
    match last_success history with
    | Some raw => snd (get_level init (Some raw))
    | None => 100
    end.
Proof.
  intros Hf. rewrite (get_level_failed _ hw Hf). cbn [snd].
  rewrite level_after_reads. reflexivity.
Qed.

Lemma failed_read_returns_last_good_witness :
  succeeds None = false /\
  succeeds (Some (10 ^ 400)) = false /\
  snd (get_level (fst (get_levels init [Some 512; Some (10 ^ 400)])) None)
    = 50 /\
  snd (get_level (fst (get_levels init [Some 512; None])) (Some (10 ^ 400)))
    = 50 /\
  snd (get_level (fst (get_levels init [None; Some (10 ^ 400)])) None) = 100.
Proof.
  assert (H1 : succeeds None = false) by reflexivity.
  assert (H2 : succeeds (Some (10 ^ 400)) = false)
    by (vm_compute; reflexivity).
  split; [exact H1|]. split; [exact H2|]. split; [|split].
  - exact (failed_read_returns_last_good [Some 512; Some (10 ^ 400)] None H1).
  - exact (failed_read_returns_last_good [Some 512; None]
             (Some (10 ^ 400)) H2).
  - exact (failed_read_returns_last_good [None; Some (10 ^ 400)] None H1).
Defined.

Example failed_read_examples :
  snd (get_level (fst (get_levels init [])) None) = 100 /\
  snd (get_level (fst (get_levels init [None; None])) None) = 100 /\
  snd (get_level (fst (get_levels init [Some 512; None])) None) = 50 /\
  snd (get_level (fst (get_levels init [Some 512; Some 100; None])) None) = 9.
Proof. vm_compute. repeat split. Qed.

Lemma get_levels_in_range (hws : list (option Z)) (m : BatteryMonitor) :
  0 <= battery_level m <= 100 ->
  Forall (fun v => 0 <= v <= 100) (snd (get_levels m hws)).
Proof.
  revert m. induction hws as [|hw rest IH]; intros m Hm; simpl.
  - constructor.
  - destruct (get_level m hw) as [m1 v] eqn:E1.
    assert (Hv : 0 <= v <= 100 /\ 0 <= battery_level m1 <= 100).
    { unfold get_level in E1. destruct hw as [raw|].
      - destruct (_convert_to_percentage raw) as [p|] eqn:Ec;
          injection E1 as <- <-; simpl; eauto using convert_in_range.
      - injection E1 as <- <-. auto. }
    specialize (IH m1 (proj2 Hv)).
    destruct (get_levels m1 rest) as [m2 vs]. simpl in *.
    constructor; [exact (proj1 Hv) | exact IH].
Qed.

(** C6: whatever the raw values read, inside or outside the calibrated
    range 0..1023, and whichever reads fail, every value [get_level]
    returns from initialization on lies in [0,100]. *)
Theorem get_level_always_in_range (hws : list (option Z)) :
  Forall (fun v => 0 <= v <= 100) (snd (get_levels init hws)).
Proof. apply get_levels_in_range. simpl. lia. Qed.

End BatteryFacts.

(** ** button_controller.py *)

Module ButtonFacts.
Import Buttons.

(** No event creates an entry of [button_states]. *)
Lemma step_keeps_missing (cfg : Config) (c : ButtonController) (e : Event)
    (name : string) :
  button_states c !! name = None ->
  button_states (step cfg c e) !! name = None.
Proof.
  intros Hn. destruct e as [b t hw|b cb]; simpl; [|exact Hn].
  unfold _button_callback.
  destruct (buttons c !! b); [|exact Hn].
  destruct (last_press_times c !! b); [|exact Hn].
  destruct (Qltb _ _); [exact Hn|].
  destruct hw as [cur|]; [|exact Hn].
  destruct (button_states c !! b) as [st|] eqn:Hb; [|exact Hn].
  destruct (negb (Bool.eqb cur st)); [|exact Hn].
  assert (b <> name) by congruence.
  destruct (callbacks c !! b); simpl; now rewrite lookup_insert_ne.
Qed.

Lemma run_keeps_missing (cfg : Config) (es : list Event)
    (c : ButtonController) (name : string) :
  button_states c !! name = None ->
  button_states (run cfg c es) !! name = None.
Proof.
  revert c. induction es as [|e es IH]; intros c Hn; simpl.
  - exact Hn.
  - apply IH. now apply step_keeps_missing.
Qed.

Lemma initialize_loop_missing (g : GpioInit) (items : list (string * Z))
    (c : ButtonController) (name : string) :
  name ∉ items.*1 ->
  button_states c !! name = None ->
  button_states (initialize_loop g items c) !! name = None.
Proof.
  revert c. induction items as [|[b pin] rest IH]; intros c Hni Hn; simpl.
  - exact Hn.
  - simpl in Hni. apply not_elem_of_cons in Hni as [Hne Hrest].
    destruct (negb (setup_ok g pin)); [exact Hn|].
    assert (Hc : button_states (configure b pin c) !! name = None)
      by (simpl; now rewrite lookup_insert_ne).
    destruct (negb (add_event_detect_ok g pin)); [exact Hc|].
    now apply IH.
Qed.

(** A name that is not a key of [config['gpio_pins']] gets no entry. *)
Lemma unconfigured_has_no_entry (cfg : Config) (g : GpioInit)
    (name : string) :
  name ∉ (gpio_pins cfg).*1 ->
  button_states (initialize_buttons cfg g) !! name = None.
Proof.
  intros Hni. unfold initialize_buttons.
  destruct (negb (setmode_ok g)); [apply lookup_empty|].
  apply initialize_loop_missing; [exact Hni | apply lookup_empty].
Qed.

(** C9: for a button name for which [initialize_buttons] created no
    entry, [get_button_state] returns [True], at initialization and after
    any later sequence of pin events and callback registrations.  (The
    function is total: it returns a boolean for every name.) *)
Theorem get_button_state_default (cfg : Config) (g : GpioInit)
    (name : string) (es : list Event) :
  button_states (initialize_buttons cfg g) !! name = None ->
  get_button_state (run cfg (initialize_buttons cfg g) es) name = true.
Proof.
  intros Hn. unfold get_button_state.
  now rewrite (run_keeps_missing cfg es _ name Hn).
Qed.

Lemma get_button_state_default_witness :
  let c0 := initialize_buttons Samples.button_cfg Samples.gpio_ok in
  let es := [Edge "play" 5 (Some false); Register "volume" 1%nat;
             Edge "volume" 6 (Some false)] in
  button_states c0 !! "volume" = None /\
  get_button_state (run Samples.button_cfg c0 es) "volume" = true.
Proof.
  split.
  - vm_compute. reflexivity.
  - apply get_button_state_default. vm_compute. reflexivity.
Defined.

(** A configured button, by contrast, reports the level last accepted. *)
Example configured_button_reports_level :
  let c0 := initialize_buttons Samples.button_cfg Samples.gpio_ok in
  get_button_state c0 "play" = true /\
  get_button_state
    (run Samples.button_cfg c0 [Edge "play" 5 (Some false)]) "play" = false.
Proof. vm_compute. split; reflexivity. Qed.

End ButtonFacts.

(** ** video_player.py *)

Module PlayerFacts.
Import Player.

Section Runs.

Variable env : Env.

(** With a pipeline, [seek] hands the position to the pipeline and
    returns, whether or not the pipeline raises. *)
Lemma seek_run (position : Q) (w : World) :
  pipeline (vp w) = true ->
  seek env position w = (Ok tt, log_call (SeekSimple (position * SECOND)) w).
Proof.
  intros Hp. unfold seek, gst_call. run_py. rewrite Hp.
  now destruct (gst_raises env (gst_log w) _).
Qed.

(** With a pipeline, [set_volume] stores the clamped volume before it
    talks to the sink, and returns. *)
Lemma set_volume_run (v : Z) (w : World) :
  pipeline (vp w) = true ->
  set_volume env v w =
    (Ok tt,
     log_call (SetSinkVolume (inject_Z (Z.max 0 (Z.min 100 v)) / 100))
              (set_vp (with_volume (Z.max 0 (Z.min 100 v))) w)).
Proof.
  intros Hp. unfold set_volume, gst_call. run_py. rewrite Hp. simpl.
  now destruct (gst_raises env (gst_log w) _).
Qed.

Lemma query_seconds_total (c : GstCall) (w : World) :
  exists q, fst (query_seconds env c w) = Ok q.
Proof.
  unfold query_seconds, gst_ask. run_py.
  destruct (pipeline (vp w)); simpl; [|eauto].
  destruct (gst_query env (gst_log w) c) as [msg|[[] v]]; simpl; eauto.
Qed.

End Runs.

#[local] Arguments seek : simpl never.
#[local] Arguments set_volume : simpl never.

Lemma query_seconds_zero (env : Env) (c : GstCall) (w : World) :
  no_answer env w c = true -> fst (query_seconds env c w) = Ok 0%Q.
Proof.
  unfold no_answer, query_seconds, gst_ask. run_py.
  destruct (pipeline (vp w)); simpl; [|reflexivity].
  destruct (gst_query env (gst_log w) c) as [msg|[[] v]]; simpl;
    [reflexivity | discriminate | reflexivity].
Qed.

(** C10: [get_position] and [get_duration] return for every player
    state and every behaviour of the pipeline, and never raise; without a
    pipeline, when the query reports failure, and when the pipeline
    raises, the value returned is 0. *)
Theorem position_and_duration_total (env : Env) (w : World) :
  (exists q, fst (get_position env w) = Ok q) /\
  (exists q, fst (get_duration env w) = Ok q) /\
  (no_answer env w QueryPosition = true ->
   fst (get_position env w) = Ok 0%Q) /\
  (no_answer env w QueryDuration = true ->
   fst (get_duration env w) = Ok 0%Q).
Proof.
  repeat split; try apply query_seconds_total; apply query_seconds_zero.
Qed.

Lemma position_and_duration_total_witness :
  no_answer Samples.env_broken Samples.world0 QueryPosition = true /\
  no_answer Samples.env_broken Samples.world0 QueryDuration = true /\
  fst (get_position Samples.env_broken Samples.world0) = Ok 0%Q /\
  fst (get_duration Samples.env_broken Samples.world0) = Ok 0%Q.
Proof.
  assert (Hp : no_answer Samples.env_broken Samples.world0 QueryPosition
               = true) by reflexivity.
  assert (Hd : no_answer Samples.env_broken Samples.world0 QueryDuration
               = true) by reflexivity.
  destruct (position_and_duration_total Samples.env_broken Samples.world0)
    as (_ & _ & Zp & Zd).
  split; [exact Hp|]. split; [exact Hd|]. split; [exact (Zp Hp) | exact (Zd Hd)].
Defined.

Example position_examples :
  (exists q, fst (get_position Samples.env_ok Samples.world0) = Ok q /\
             (q == 42)%Q) /\
  fst (get_position Samples.env_ok
         (set_vp (with_pipeline false) Samples.world0)) = Ok 0%Q.
Proof.
  split; [|reflexivity].
  eexists. split; [reflexivity|]. vm_compute. reflexivity.
Qed.

(** [load_saved_position] when the stored path is the current one. *)
Lemma load_saved_position_match (env : Env) (w : World) (st : PlaybackState) :
  state_file w = Stored st ->
  state_read_raises env = false ->
  pipeline (vp w) = true ->
  path_is (ps_video_path st) (current_video (vp w)) = true ->
  load_saved_position env w =
    (Ok tt,
     log_call
       (SetSinkVolume (inject_Z (Z.max 0 (Z.min 100 (ps_volume st))) / 100))
       (set_vp (with_volume (Z.max 0 (Z.min 100 (ps_volume st))))
               (log_call (SeekSimple (ps_position st * SECOND)) w))).
Proof.
  intros Hf Hr Hp Hpath. unfold load_saved_position, read_state. run_py.
  rewrite Hf. simpl. rewrite Hr. simpl. rewrite Hf. simpl. rewrite Hpath.
  rewrite seek_run by exact Hp. now rewrite set_volume_run by exact Hp.
Qed.

(** [load_saved_position] when the stored path is another one. *)
Lemma load_saved_position_mismatch (env : Env) (w : World)
    (st : PlaybackState) :
  state_file w = Stored st ->
  path_is (ps_video_path st) (current_video (vp w)) = false ->
  load_saved_position env w = (Ok tt, w).
Proof.
  intros Hf Hpath. unfold load_saved_position, read_state. run_py.
  rewrite Hf. simpl. destruct (state_read_raises env); simpl; [reflexivity|].
  rewrite Hf. simpl. now rewrite Hpath.
Qed.

(** [save_state] never raises, and with a loaded video and a writable
    state file it stores the current path, the position the pipeline
    reports and the current volume. *)
Lemma save_state_total (env : Env) (w : World) :
  fst (save_state env w) = Ok tt.
Proof.
  unfold save_state. run_py.
  destruct (truthy (current_video (vp w))); simpl; [|reflexivity].
  destruct (get_position env w) as [[q|e] w1]; simpl; [|reflexivity].
  unfold write_state. destruct (state_write env); reflexivity.
Qed.

Lemma save_state_records (env : Env) (w : World) (P : string) :
  current_video (vp w) = Some P ->
  P <> "" ->
  state_write env = Written ->
  exists p,
    fst (get_position env w) = Ok p /\
    state_file (snd (save_state env w)) =
      Stored {| ps_video_path := P; ps_position := p;
                ps_volume := volume (vp w) |}.
Proof.
  intros Hc HP Hw.
  destruct (query_seconds_total env QueryPosition w) as [p Hq].
  exists p. split; [exact Hq|].
  unfold save_state. run_py. rewrite Hc. simpl.
  destruct (String.eqb_spec P ""); [contradiction|]. simpl.
  unfold get_position in *.
  assert (Hvp : vp (snd (query_seconds env QueryPosition w)) = vp w).
  { unfold query_seconds, gst_ask. run_py.
    destruct (pipeline (vp w)); simpl; [|reflexivity].
    destruct (gst_query env (gst_log w) QueryPosition) as [m|[[] z]];
      reflexivity. }
  destruct (query_seconds env QueryPosition w) as [[q|e] w1]; simpl in *;
    [|discriminate].
  injection Hq as ->. unfold write_state. rewrite Hw. simpl.
  now rewrite Hvp, Hc.
Qed.

(** [play] and [pause] with a pipeline: one state change is requested,
    the method returns, and nothing but [is_playing] may differ. *)
Lemma transport_run (env : Env) (st : GstState) (b : bool) (w : World) :
  pipeline (vp w) = true ->
  let m := try_log (w0 <- get ;;
                    when (pipeline (vp w0))
                         (gst_call env (SetState st) ;;
                          modify (set_vp (with_is_playing b))))%py in
  fst (m w) = Ok tt /\
  gst_log (snd (m w)) = (gst_log w ++ [SetState st])%list /\
  state_file (snd (m w)) = state_file w /\
  pipeline (vp (snd (m w))) = true /\
  volume (vp (snd (m w))) = volume (vp w) /\
  current_video (vp (snd (m w))) = current_video (vp w).
Proof.
  intros Hp m. subst m. unfold gst_call. run_py. rewrite Hp.
  destruct (gst_raises env (gst_log w) (SetState st)); simpl;
    now repeat split.
Qed.

(** [load] for an existing file, with a pipeline whose [set_state(NULL)]
    and file source cooperate: the rest of the method runs from the
    world in which the new path is current. *)
Lemma load_run (env : Env) (path : string) (w : World) :
  path_exists env path = true ->
  pipeline (vp w) = true ->
  gst_raises env (gst_log w) (SetState NULL) = None ->
  gst_raises env (gst_log w ++ [SetState NULL]) (SetLocation path) = None ->
  load env path w =
    (load_saved_position env ;; play env ;; pause env)%py
      (set_vp (with_current_video (Some path))
              (log_call (SetLocation path) (log_call (SetState NULL) w))).
Proof.
  intros He Hp H1 H2. unfold load. rewrite He. simpl.
  unfold gst_call. run_py. rewrite Hp. simpl. rewrite H1. simpl.
  rewrite H2. reflexivity.
Qed.


(** [play ;; pause] at the end of [load]. *)
Lemma play_pause_run (env : Env) (w : World) :
  pipeline (vp w) = true ->
  let out := (play env ;; pause env)%py w in
  fst out = Ok tt /\
  gst_log (snd out) = (gst_log w ++ [SetState PLAYING; SetState PAUSED])%list /\
  state_file (snd out) = state_file w /\
  volume (vp (snd out)) = volume (vp w) /\
  current_video (vp (snd out)) = current_video (vp w).
Proof.
  intros Hp out. subst out. unfold bind.
  destruct (transport_run env PLAYING true w Hp) as (A & B & C & D & E & F).
  fold (play env) in A, B, C, D, E, F.
  destruct (play env w) as [r w1]. simpl in *. subst r.
  destruct (transport_run env PAUSED false w1 D) as (A' & B' & C' & _ & E' & F').
  fold (pause env) in A', B', C', E', F'.
  rewrite B', B, C', C, E', E, F', F, <- app_assoc. now repeat split.
Qed.

(** The round trip through [load] itself: when the state file holds the
    record for [P] and [load P] gets as far as the pipeline lets it, the
    calls made on the pipeline are exactly the tear-down, the new source,
    the seek to the stored position, the stored volume, and the
    play/pause pair; the player's volume is the stored one. *)
Lemma load_restores_saved_state (env : Env) (w : World) (P : string)
    (p : Q) (v : Z) :
  state_file w =
    Stored {| ps_video_path := P; ps_position := p; ps_volume := v |} ->
  state_read_raises env = false ->
  0 <= v <= 100 ->
  path_exists env P = true ->
  pipeline (vp w) = true ->
  gst_raises env (gst_log w) (SetState NULL) = None ->
  gst_raises env (gst_log w ++ [SetState NULL]) (SetLocation P) = None ->
  let out := load env P w in
  fst out = Ok tt /\
  current_video (vp (snd out)) = Some P /\
  volume (vp (snd out)) = v /\
  gst_log (snd out) =
    (gst_log w ++ [SetState NULL; SetLocation P; SeekSimple (p * SECOND);
                   SetSinkVolume (inject_Z v / 100);
                   SetState PLAYING; SetState PAUSED])%list.
Proof.
  intros Hf Hr Hv He Hp H1 H2 out. subst out.
  set (w0 := set_vp (with_current_video (Some P))
                    (log_call (SetLocation P) (log_call (SetState NULL) w))).
  set (w1 := log_call (SetSinkVolume (inject_Z v / 100))
               (set_vp (with_volume v)
                       (log_call (SeekSimple (p * SECOND)) w0))).
  assert (Hload : load env P w = (play env ;; pause env)%py w1).
  { rewrite (load_run env P w He Hp H1 H2). fold w0. unfold bind at 1.
    rewrite (load_saved_position_match env w0 _ Hf Hr Hp)
      by (simpl; apply String.eqb_refl).
    simpl ps_volume. simpl ps_position.
    replace (Z.max 0 (Z.min 100 v)) with v by lia. reflexivity. }
  rewrite Hload.
  destruct (play_pause_run env w1 Hp) as (A & B & C & D & E).
  rewrite A, B, D, E. simpl. rewrite <- !app_assoc. now repeat split.
Qed.

(** Loading another path than the stored one through [load]: neither a
    seek nor a volume change is requested, and the volume is kept. *)
Lemma load_ignores_other_state (env : Env) (w : World) (P Q' : string)
    (p : Q) (v : Z) :
  state_file w =
    Stored {| ps_video_path := P; ps_position := p; ps_volume := v |} ->
  Q' <> P ->
  path_exists env Q' = true ->
  pipeline (vp w) = true ->
  gst_raises env (gst_log w) (SetState NULL) = None ->
  gst_raises env (gst_log w ++ [SetState NULL]) (SetLocation Q') = None ->
  let out := load env Q' w in
  fst out = Ok tt /\
  current_video (vp (snd out)) = Some Q' /\
  volume (vp (snd out)) = volume (vp w) /\
  gst_log (snd out) =
    (gst_log w ++ [SetState NULL; SetLocation Q';
                   SetState PLAYING; SetState PAUSED])%list.
Proof.
  intros Hf Hne He Hp H1 H2 out. subst out.
  set (w0 := set_vp (with_current_video (Some Q'))
                    (log_call (SetLocation Q') (log_call (SetState NULL) w))).
  assert (Hload : load env Q' w = (play env ;; pause env)%py w0).
  { rewrite (load_run env Q' w He Hp H1 H2). fold w0. unfold bind at 1.
    rewrite (load_saved_position_mismatch env w0 _ Hf)
      by (simpl; destruct (String.eqb_spec P Q'); [congruence|reflexivity]).
    reflexivity. }
  rewrite Hload.
  destruct (play_pause_run env w0 Hp) as (A & B & C & D & E).
  rewrite A, B, D, E. simpl. rewrite <- !app_assoc. now repeat split.
Qed.

(** C4: the round trip.  [save_state] runs on a player whose current
    video is [P], whose volume [v] lies in [0,100] and whose position
    query answers [p], with a writable state file.  In any later state of
    the player that finds the file as [save_state] left it (with a
    pipeline, the file readable), the restore step [load_saved_position]
    run with [P] current asks the pipeline to seek to [p] and sets the
    volume to [v], and run with any other path [Q'] current applies
    nothing: the player, the file and the pipeline log are as they were.
    Through [load] itself, with a pipeline that accepts the tear-down and
    the new source: [load P] requests the seek to [p] and the volume [v]
    between the new source and the play/pause pair and leaves the volume
    at [v]; [load Q'] requests neither and leaves the volume as it
    was. *)
Theorem saved_state_round_trip (env env' : Env) (w later : World)
    (P Q' : string) (p : Q) :
  current_video (vp w) = Some P ->
  P <> "" ->
  0 <= volume (vp w) <= 100 ->
  fst (get_position env w) = Ok p ->
  state_write env = Written ->
  state_file later = state_file (snd (save_state env w)) ->
  state_read_raises env' = false ->
  pipeline (vp later) = true ->
  let v := volume (vp w) in
  let at_P :=
    load_saved_position env' (set_vp (with_current_video (Some P)) later) in
  let at_Q :=
    load_saved_position env' (set_vp (with_current_video (Some Q')) later) in
  (fst at_P = Ok tt /\
   volume (vp (snd at_P)) = v /\
   gst_log (snd at_P) =
     (gst_log later ++
      [SeekSimple (p * SECOND); SetSinkVolume (inject_Z v / 100)])%list) /\
  (Q' <> P -> at_Q = (Ok tt, set_vp (with_current_video (Some Q')) later)) /\
  (path_exists env' P = true ->
   gst_raises env' (gst_log later) (SetState NULL) = None ->
   gst_raises env' (gst_log later ++ [SetState NULL])%list (SetLocation P)
     = None ->
   let out := load env' P later in
   fst out = Ok tt /\
   current_video (vp (snd out)) = Some P /\
   volume (vp (snd out)) = v /\
   gst_log (snd out) =
     (gst_log later ++
      [SetState NULL; SetLocation P; SeekSimple (p * SECOND);
       SetSinkVolume (inject_Z v / 100);
       SetState PLAYING; SetState PAUSED])%list) /\
  (Q' <> P ->
   path_exists env' Q' = true ->
   gst_raises env' (gst_log later) (SetState NULL) = None ->
   gst_raises env' (gst_log later ++ [SetState NULL])%list (SetLocation Q')
     = None ->
   let out := load env' Q' later in
   fst out = Ok tt /\
   current_video (vp (snd out)) = Some Q' /\
   volume (vp (snd out)) = volume (vp later) /\
   gst_log (snd out) =
     (gst_log later ++
      [SetState NULL; SetLocation Q';
       SetState PLAYING; SetState PAUSED])%list).
Proof.
  intros Hc HP Hv Hq Hw Hfile Hr Hp v at_P at_Q. subst v at_P at_Q.
  destruct (save_state_records env w P Hc HP Hw) as (p' & Hq' & Hsaved).
  rewrite Hq in Hq'. injection Hq' as <-.
  rewrite Hsaved in Hfile. clear Hsaved.
  assert (Hclamp : Z.max 0 (Z.min 100 (volume (vp w))) = volume (vp w))
    by lia.
  split; [|split; [|split]].
  - rewrite (load_saved_position_match env'
               (set_vp (with_current_video (Some P)) later) _ Hfile Hr Hp)
      by (simpl; apply String.eqb_refl).
    simpl. rewrite Hclamp, <- app_assoc. now repeat split.
  - intros Hne. apply (load_saved_position_mismatch env'
             (set_vp (with_current_video (Some Q')) later) _ Hfile).
    simpl. destruct (String.eqb_spec P Q'); [congruence|reflexivity].
  - intros He H1 H2.
    exact (load_restores_saved_state env' later P p (volume (vp w))
             Hfile Hr Hv He Hp H1 H2).
  - intros Hne He H1 H2.
    exact (load_ignores_other_state env' later P Q' p (volume (vp w))
             Hfile Hne He Hp H1 H2).
Qed.

Lemma saved_state_round_trip_witness :
  let w :=
    set_vp (fun v => with_volume 60 (with_current_video (Some "a.mp4") v))
           Samples.world0 in
  let later :=
    {| vp := Samples.player0;
       state_file := state_file (snd (save_state Samples.env_ok w));
       gst_log := [] |} in
  let p := (42000000000 # 1000000000)%Q in
  let at_P :=
    load_saved_position Samples.env_ok
      (set_vp (with_current_video (Some "a.mp4")) later) in
  let at_Q :=
    load_saved_position Samples.env_ok
      (set_vp (with_current_video (Some "b.mp4")) later) in
  let load_P := load Samples.env_ok "a.mp4" later in
  let load_Q := load Samples.env_ok "b.mp4" later in
  state_file w = Absent /\
  volume (vp later) = 80 /\
  (fst at_P = Ok tt /\
   volume (vp (snd at_P)) = 60 /\
   gst_log (snd at_P) =
     [SeekSimple (p * SECOND); SetSinkVolume (inject_Z 60 / 100)]) /\
  at_Q = (Ok tt, set_vp (with_current_video (Some "b.mp4")) later) /\
  (volume (vp (snd load_P)) = 60 /\
   gst_log (snd load_P) =
     [SetState NULL; SetLocation "a.mp4"; SeekSimple (p * SECOND);
      SetSinkVolume (inject_Z 60 / 100); SetState PLAYING; SetState PAUSED]) /\
  (volume (vp (snd load_Q)) = 80 /\
   gst_log (snd load_Q) =
     [SetState NULL; SetLocation "b.mp4"; SetState PLAYING; SetState PAUSED]).
Proof.
  intros w later p at_P at_Q load_P load_Q.
  split; [reflexivity|]. split; [reflexivity|].
  destruct (saved_state_round_trip Samples.env_ok Samples.env_ok w later
              "a.mp4" "b.mp4" p) as (HP & HQ & LP & LQ).
  - reflexivity.
  - discriminate.
  - simpl. lia.
  - reflexivity.
  - reflexivity.
  - reflexivity.
  - reflexivity.
  - reflexivity.
  - split; [exact HP|]. split; [apply HQ; discriminate|]. split.
    + destruct LP as (_ & _ & A & B); [reflexivity..|]. split; [exact A|exact B].
    + destruct LQ as (_ & _ & A & B); [discriminate | reflexivity..|].
      split; [exact A|exact B].
Defined.

(** Save, then load in a later session whose volume is 80: the file
    written for [a.mp4] at 42 s and volume 60 brings the volume back to
    60 and asks for a seek to 42 s. *)
Example save_then_load :
  let saving :=
    set_vp (fun v => with_volume 60 (with_current_video (Some "a.mp4") v))
           Samples.world0 in
  let saved := snd (save_state Samples.env_ok saving) in
  let later :=
    {| vp := Samples.player0; state_file := state_file saved;
       gst_log := [] |} in
  let out := load Samples.env_ok "a.mp4" later in
  state_file saved =
    Stored {| ps_video_path := "a.mp4";
              ps_position := 42000000000 # 1000000000;
              ps_volume := 60 |} /\
  volume (vp later) = 80 /\
  fst out = Ok tt /\
  volume (vp (snd out)) = 60 /\
  match gst_log (snd out) with
  | [SetState NULL; SetLocation "a.mp4"; SeekSimple t; SetSinkVolume l;
     SetState PLAYING; SetState PAUSED] =>
      (t == 42 * SECOND)%Q /\ (l == 6 # 10)%Q
  | _ => False
  end.
Proof. vm_compute. repeat split. Qed.

End PlayerFacts.

(** ** media_player.py *)

Module AppFacts.
Import App.

(** *** Frame rules for [keeps] *)

Section Frame.

Context {X : Type} (f : MediaPlayerApp -> X).

Lemma keeps_ret {A} (a : A) : keeps f (ret a).
Proof. intros aw. reflexivity. Qed.

Lemma keeps_raise {A} (e : Exn) : keeps f (@raise AppWorld A e).
Proof. intros aw. reflexivity. Qed.

Lemma keeps_get : keeps f (@get AppWorld).
Proof. intros aw. reflexivity. Qed.

Lemma keeps_bind {A B} (m : M AppWorld A) (k : A -> M AppWorld B) :
  keeps f m -> (forall a, keeps f (k a)) -> keeps f (bind m k).
Proof.
  intros Hm Hk aw. unfold bind. specialize (Hm aw).
  destruct (m aw) as [[a|e] aw1]; simpl in *.
  - now rewrite Hk.
  - exact Hm.
Qed.

Lemma keeps_when (b : bool) (m : M AppWorld unit) :
  keeps f m -> keeps f (when b m).
Proof. intros Hm. destruct b; [exact Hm | apply keeps_ret]. Qed.

Lemma keeps_if {A} (b : bool) (m1 m2 : M AppWorld A) :
  keeps f m1 -> keeps f m2 -> keeps f (if b then m1 else m2).
Proof. now destruct b. Qed.

Lemma keeps_on_player {A} (m : M Player.World A) : keeps f (on_player m).
Proof.
  intros aw. unfold on_player. now destruct (m (video_player aw)).
Qed.

End Frame.

Create HintDb keeps.
#[local] Hint Resolve keeps_ret keeps_raise keeps_get keeps_when keeps_if
  keeps_on_player : keeps.

(** Writing the slider value touches none of the auto-hide attributes. *)
Lemma keeps_with_progress (v : Q) :
  keeps hide_timer (modify (set_app (with_progress v))).
Proof. intros aw. reflexivity. Qed.

#[local] Hint Resolve keeps_with_progress : keeps.

Lemma bind_returns {A B} (m : M AppWorld A) (k : A -> M AppWorld B)
    (aw : AppWorld) :
  returns m ->
  exists a aw1, m aw = (Ok a, aw1) /\ bind m k aw = k a aw1.
Proof.
  intros Hm. destruct (Hm aw) as [a Ha]. unfold bind.
  destruct (m aw) as [r aw1]. simpl in Ha. subst r.
  now exists a, aw1.
Qed.

Lemma returns_bind {A B} (m : M AppWorld A) (k : A -> M AppWorld B) :
  returns m -> (forall a, returns (k a)) -> returns (bind m k).
Proof.
  intros Hm Hk aw. destruct (bind_returns m k aw Hm) as (a & aw1 & _ & ->).
  apply Hk.
Qed.

Lemma returns_on_player {A} (m : M Player.World A) :
  (forall w, exists a, fst (m w) = Ok a) -> returns (on_player m).
Proof.
  intros Hm aw. unfold on_player. destruct (Hm (video_player aw)) as [a Ha].
  destruct (m (video_player aw)) as [r w']. simpl in *. eauto.
Qed.

Lemma try_log_returns {S} (m : M S unit) (s : S) :
  fst (try_log m s) = Ok tt.
Proof.
  unfold try_log, try_except, ret. now destruct (m s) as [[[]|e] s'].
Qed.

Section WithEnv.

Variable env : Player.Env.

Lemma returns_get_position : returns (on_player (Player.get_position env)).
Proof. apply returns_on_player, PlayerFacts.query_seconds_total. Qed.

Lemma returns_get_duration : returns (on_player (Player.get_duration env)).
Proof. apply returns_on_player, PlayerFacts.query_seconds_total. Qed.

Lemma returns_seek (position : Q) :
  returns (on_player (Player.seek env position)).
Proof.
  apply returns_on_player. intros w. exists tt. apply try_log_returns.
Qed.

Lemma keeps_on_progress_change (value : Q) :
  keeps hide_timer (on_progress_change env value).
Proof.
  unfold on_progress_change. apply keeps_bind; [auto with keeps|].
  intros aw. apply keeps_if; [auto with keeps|].
  apply keeps_bind; auto with keeps.
Qed.

Lemma returns_on_progress_change (value : Q) :
  returns (on_progress_change env value).
Proof.
  unfold on_progress_change. intros aw. unfold bind at 1, get.
  destruct (negb (truthy (current_video (app aw)))); [now exists tt|].
  apply returns_bind; [apply returns_get_duration|].
  intros d. apply returns_seek.
Qed.

Lemma keeps_set_progress_bar_value (v : Q) :
  keeps hide_timer (set_progress_bar_value env v).
Proof.
  unfold set_progress_bar_value. apply keeps_bind; [auto with keeps|].
  intros aw. apply keeps_if; [auto with keeps|].
  apply keeps_bind; [auto with keeps|]. intros _.
  apply keeps_on_progress_change.
Qed.

Lemma returns_set_progress_bar_value (v : Q) :
  returns (set_progress_bar_value env v).
Proof.
  unfold set_progress_bar_value. intros aw. unfold bind at 1, get.
  destruct (Qeq_bool (progress_bar_value (app aw)) v); [now exists tt|].
  apply returns_on_progress_change.
Qed.

(** Class [VideoPlayer] has no [player] attribute, so [hide_controls]
    either does nothing (the controls are already hidden) or stops at
    the attribute lookup, before the assignments. *)
Lemma hide_controls_run (aw : AppWorld) :
  hide_controls aw =
    if controls_visible (app aw)
    then (Raised (AttributeError
                    "'VideoPlayer' object has no attribute 'player'"), aw)
    else (Ok tt, aw).
Proof.
  unfold hide_controls, hide_controls_on, getattr_player. run_py.
  destruct (controls_visible (app aw)); reflexivity.
Qed.

Lemma keeps_hide_controls : keeps hide_timer hide_controls.
Proof.
  intros aw. rewrite hide_controls_run.
  destruct (controls_visible (app aw)); reflexivity.
Qed.

Lemma keeps_update_progress (now : Q) :
  keeps hide_timer (update_progress env now).
Proof.
  unfold update_progress. apply keeps_bind; [auto with keeps|].
  intros aw. apply keeps_when.
  apply keeps_bind; [auto with keeps|]. intros position.
  apply keeps_bind; [auto with keeps|]. intros duration.
  apply keeps_bind.
  - apply keeps_when. apply keeps_set_progress_bar_value.
  - intros _. apply keeps_bind; [auto with keeps|]. intros aw1.
    apply keeps_when. apply keeps_hide_controls.
Qed.

(** What the guard of [hide_controls] would do if the attribute lookup
    produced an object: it hides the controls exactly when that object
    reports that nothing is playing. *)
Lemma hide_controls_guard (h : PlayerHandle) (aw : AppWorld) :
  controls_visible (app aw) = true ->
  controls_visible (app (snd (hide_controls_on (Some h) aw))) =
    handle_is_playing h.
Proof.
  intros Hv. unfold hide_controls_on. run_py. rewrite Hv.
  now destruct (handle_is_playing h).
Qed.

(** C3: the progress/visibility step never hides the controls: whatever
    the state it runs in, [controls_visible] (and the time of the last
    touch) is after the step what it was before.  A fortiori the step
    hides them in no state other than one with visible controls, an
    elapsed idle timeout and active playback, and in particular it never
    hides them while playback is paused. *)
Theorem update_progress_never_hides (now : Q) (aw : AppWorld) :
  let aw' := snd (update_progress env now aw) in
  controls_visible (app aw') = controls_visible (app aw) /\
  last_touch_time (app aw') = last_touch_time (app aw) /\
  (Player.is_playing (Player.vp (video_player aw)) = false ->
   controls_visible (app aw) = true ->
   controls_visible (app aw') = true).
Proof.
  intros aw'. subst aw'.
  pose proof (keeps_update_progress now aw) as H.
  unfold hide_timer in H. injection H as Hv Ht _.
  split; [exact Hv|]. split; [exact Ht|].
  intros _ Hvis. now rewrite Hv.
Qed.

Lemma returns_when (b : bool) (m : M AppWorld unit) :
  returns m -> returns (when b m).
Proof. intros Hm. destruct b; [exact Hm|]. intros aw. now exists tt. Qed.

(** A step of a run that returns and keeps the auto-hide attributes
    passes an exception of the rest of the run on. *)
Lemma bind_steady {A B} (m : M AppWorld A) (k : A -> M AppWorld B)
    (aw : AppWorld) (e : Exn) :
  returns m -> keeps hide_timer m ->
  (forall a aw1,
     hide_timer (app aw1) = hide_timer (app aw) ->
     fst (k a aw1) = Raised e) ->
  fst (bind m k aw) = Raised e.
Proof.
  intros Hr Hk Hrest.
  destruct (bind_returns m k aw Hr) as (a & aw1 & E & ->).
  apply Hrest. specialize (Hk aw). now rewrite E in Hk.
Qed.

(** What the step does once the idle timeout has elapsed with a video
    loaded and the controls visible: it raises [AttributeError] out of
    [hide_controls], whether playback is active or paused. *)
Lemma update_progress_raises_at_timeout (now : Q) (aw : AppWorld) :
  truthy (current_video (app aw)) = true ->
  controls_visible (app aw) = true ->
  Qltb (controls_timeout (app aw)) (now - last_touch_time (app aw)) = true ->
  fst (update_progress env now aw) =
    Raised (AttributeError "'VideoPlayer' object has no attribute 'player'").
Proof.
  intros Hcur Hvis Hidle. unfold update_progress.
  unfold bind at 1, get. cbv beta iota. rewrite Hcur.
  unfold when at 1. cbv iota.
  apply bind_steady;
    [apply returns_get_position | apply keeps_on_player |].
  intros position aw1 K1.
  apply bind_steady;
    [apply returns_get_duration | apply keeps_on_player |].
  intros duration aw2 K2.
  apply bind_steady;
    [apply returns_when, returns_set_progress_bar_value
    |apply keeps_when, keeps_set_progress_bar_value |].
  intros [] aw3 K3.
  assert (Hall : hide_timer (app aw3) = hide_timer (app aw)) by congruence.
  unfold hide_timer in Hall. injection Hall as Hv Ht Hc.
  unfold bind, get. cbv beta iota. rewrite Hv, Ht, Hc, Hvis, Hidle.
  simpl. rewrite hide_controls_run, Hv, Hvis. reflexivity.
Qed.

(** *** load_video *)

(** [load_video] handles whatever the player raises. *)
Lemma load_video_total (now : Q) (path : string) (aw : AppWorld) :
  fst (load_video env now path aw) = Ok tt.
Proof.
  unfold load_video. run_py.
  destruct (Player.path_exists env path); [|reflexivity].
  unfold on_player.
  now destruct (Player.load env path (video_player aw)) as [[[]|e] w'].
Qed.

(** C8, amended: for every prior value of [current_video] and every path
    that does not exist, [load_video] returns, leaves [current_video]
    (and the player, the reader, the test-mode flag, the progress value)
    as they were, and shows the message "File not found: <path>";
    showing the message is the one change of session state: the status
    text is replaced, the controls become visible and the time of the
    last touch becomes the current time. *)
Theorem load_video_missing_file (now : Q) (path : string) (aw : AppWorld) :
  Player.path_exists env path = false ->
  let out := load_video env now path aw in
  fst out = Ok tt /\
  current_video (app (snd out)) = current_video (app aw) /\
  status_label_text (app (snd out)) = "File not found: " ++ path /\
  controls_visible (app (snd out)) = true /\
  last_touch_time (app (snd out)) = now /\
  snd out =
    set_app (fun a => with_last_touch_time now
                        (with_controls true 1
                           (with_status ("File not found: " ++ path) a))) aw.
Proof.
  intros He out. subst out. unfold load_video. run_py. rewrite He.
  now repeat split.
Qed.

(** When the file exists and the player loads it, the path becomes the
    current video. *)
Lemma load_video_success (now : Q) (path : string) (aw : AppWorld) :
  Player.path_exists env path = true ->
  fst (Player.load env path (video_player aw)) = Ok tt ->
  let out := load_video env now path aw in
  current_video (app (snd out)) = Some path /\
  status_label_text (app (snd out)) = "Video Loaded - Press Play" /\
  video_player (snd out) = snd (Player.load env path (video_player aw)).
Proof.
  intros He Hl out. subst out. unfold load_video. run_py. rewrite He.
  unfold on_player.
  destruct (Player.load env path (video_player aw)) as [[[]|e] w'];
    simpl in *; [now repeat split | discriminate].
Qed.

(** When the player raises, the current video stays what it was. *)
Lemma load_video_player_raises (now : Q) (path : string) (aw : AppWorld)
    (e : Exn) :
  Player.path_exists env path = true ->
  fst (Player.load env path (video_player aw)) = Raised e ->
  let out := load_video env now path aw in
  current_video (app (snd out)) = current_video (app aw) /\
  status_label_text (app (snd out)) = "Error loading video: " ++ exn_str e.
Proof.
  intros He Hl out. subst out. unfold load_video. run_py. rewrite He.
  unfold on_player.
  destruct (Player.load env path (video_player aw)) as [[[]|e'] w'];
    simpl in *; [discriminate|].
  injection Hl as ->. now split.
Qed.

(** *** handle_tag_detection *)

Lemma handle_tag_loop_total (now : Q) (tags : list TagBinding)
    (scanned : string) (aw : AppWorld) :
  fst (handle_tag_loop env now tags scanned aw) = Ok tt.
Proof.
  induction tags as [|tag rest IH]; simpl.
  - run_py. now destruct (truthy (current_video (app aw))).
  - destruct (String.eqb (tag_id tag) scanned);
      [apply load_video_total | exact IH].
Qed.

(** The [try] of [handle_tag_detection] never has anything to catch. *)
Lemma handle_tag_detection_loop (now : Q) (scanned : string)
    (aw : AppWorld) :
  handle_tag_detection env now scanned aw =
    handle_tag_loop env now (rfid_tags (app aw)) scanned aw.
Proof.
  unfold handle_tag_detection. run_py.
  pose proof (handle_tag_loop_total now (rfid_tags (app aw)) scanned aw) as H.
  destruct (handle_tag_loop env now (rfid_tags (app aw)) scanned aw)
    as [[[]|e] aw']; simpl in *; [reflexivity | discriminate].
Qed.

Lemma handle_tag_loop_first (now : Q) (pre post : list TagBinding)
    (tag : TagBinding) (scanned : string) (aw : AppWorld) :
  Forall (fun t => tag_id t <> scanned) pre ->
  tag_id tag = scanned ->
  handle_tag_loop env now (pre ++ tag :: post) scanned aw =
    load_video env now (video_path tag) aw.
Proof.
  intros Hpre Ht. induction Hpre as [|t pre Hne _ IH]; simpl.
  - subst scanned. now rewrite String.eqb_refl.
  - destruct (String.eqb_spec (tag_id t) scanned); [contradiction|exact IH].
Qed.

Lemma handle_tag_loop_none (now : Q) (tags : list TagBinding)
    (scanned : string) (aw : AppWorld) :
  Forall (fun t => tag_id t <> scanned) tags ->
  handle_tag_loop env now tags scanned aw =
    if truthy (current_video (app aw)) then (Ok tt, aw)
    else show_message now "Unidentified Tag Detected" aw.
Proof.
  intros Hall. induction Hall as [|t tags Hne _ IH]; simpl.
  - run_py. now destruct (truthy (current_video (app aw))).
  - destruct (String.eqb_spec (tag_id t) scanned); [contradiction|exact IH].
Qed.

(** C7: for every list of tag bindings and every scanned id,
    [handle_tag_detection] does what [load_video] does on the video path
    of the first entry whose [tag_id] is the scanned id, later entries
    with the same id being ignored; when no entry matches and no video
    is loaded it shows "Unidentified Tag Detected" and [current_video]
    stays as it was (unset); when no entry matches and a video is loaded
    it changes nothing at all. *)
Theorem tag_resolution (now : Q) (scanned : string) (aw : AppWorld) :
  let out := handle_tag_detection env now scanned aw in
  (forall pre tag post,
     rfid_tags (app aw) = (pre ++ tag :: post)%list ->
     Forall (fun t => tag_id t <> scanned) pre ->
     tag_id tag = scanned ->
     out = load_video env now (video_path tag) aw) /\
  (Forall (fun t => tag_id t <> scanned) (rfid_tags (app aw)) ->
   truthy (current_video (app aw)) = false ->
   fst out = Ok tt /\
   status_label_text (app (snd out)) = "Unidentified Tag Detected" /\
   current_video (app (snd out)) = current_video (app aw)) /\
  (Forall (fun t => tag_id t <> scanned) (rfid_tags (app aw)) ->
   truthy (current_video (app aw)) = true ->
   out = (Ok tt, aw)).
Proof.
  intros out. subst out. rewrite handle_tag_detection_loop.
  split; [|split].
  - intros pre tag post Htags Hpre Ht. rewrite Htags.
    now apply handle_tag_loop_first.
  - intros Hall Hcur. rewrite handle_tag_loop_none by exact Hall.
    rewrite Hcur. now repeat split.
  - intros Hall Hcur. rewrite handle_tag_loop_none by exact Hall.
    now rewrite Hcur.
Qed.

End WithEnv.

Lemma update_progress_never_hides_witness :
  let aw := Samples.app_paused in
  let aw' := snd (update_progress Samples.env_ok 10 aw) in
  Player.is_playing (Player.vp (video_player aw)) = false /\
  controls_visible (app aw) = true /\
  controls_visible (app aw') = true.
Proof.
  split; [reflexivity|]. split; [reflexivity|].
  apply (proj2 (proj2 (update_progress_never_hides
                         Samples.env_ok 10 Samples.app_paused)));
    reflexivity.
Defined.

(** Ten seconds after the last touch, with [a.mp4] loaded, the step ends
    in the [AttributeError], paused or playing, and the controls stay. *)
Example update_progress_at_timeout :
  let playing :=
    {| app := app Samples.app_paused;
       rfid_reader := rfid_reader Samples.app_paused;
       video_player :=
         Player.set_vp (Player.with_is_playing true)
                       (video_player Samples.app_paused) |} in
  let e := AttributeError "'VideoPlayer' object has no attribute 'player'" in
  fst (update_progress Samples.env_ok 10 Samples.app_paused) = Raised e /\
  fst (update_progress Samples.env_ok 10 playing) = Raised e /\
  controls_visible
    (app (snd (update_progress Samples.env_ok 10 playing))) = true /\
  fst (update_progress Samples.env_ok 2 playing) = Ok tt.
Proof. vm_compute. repeat split. Qed.

(** C8, refuted as stated: at start-up the controls are hidden and the
    last touch is at time 0; [load_video] on a path that does not exist,
    called at time 5, leaves the controls visible and the last touch at
    time 5, so session state other than [current_video] is mutated. *)
Lemma load_video_missing_file_shows_controls :
  let aw := Samples.app0 in
  let out := load_video Samples.env_ok 5 "missing.mp4" aw in
  Player.path_exists Samples.env_ok "missing.mp4" = false /\
  controls_visible (app aw) = false /\
  controls_visible (app (snd out)) = true /\
  last_touch_time (app aw) = 0%Q /\
  last_touch_time (app (snd out)) = 5%Q /\
  snd out <> aw.
Proof.
  repeat split.
  intros H. apply (f_equal (fun x => controls_visible (app x))) in H.
  vm_compute in H. discriminate H.
Qed.

Lemma load_video_missing_file_witness :
  let aw := Samples.app0 in
  let out := load_video Samples.env_ok 5 "missing.mp4" aw in
  Player.path_exists Samples.env_ok "missing.mp4" = false /\
  fst out = Ok tt /\
  current_video (app (snd out)) = current_video (app aw) /\
  status_label_text (app (snd out)) = "File not found: missing.mp4" /\
  controls_visible (app (snd out)) = true /\
  last_touch_time (app (snd out)) = 5%Q.
Proof.
  assert (He : Player.path_exists Samples.env_ok "missing.mp4" = false)
    by reflexivity.
  destruct (load_video_missing_file Samples.env_ok 5 "missing.mp4"
              Samples.app0 He) as (A & B & C & D & E & _).
  split; [exact He|]. split; [exact A|]. split; [exact B|].
  split; [exact C|]. split; [exact D | exact E].
Defined.

Lemma tag_resolution_witness :
  let env := Samples.env_ok in
  let scan_B := handle_tag_detection env 7 Samples.tag_B Samples.app0 in
  let scan_other := handle_tag_detection env 7 "4242" Samples.app0 in
  let scan_other_loaded :=
    handle_tag_detection env 7 "4242" Samples.app_paused in
  (scan_B = load_video env 7 "b.mp4" Samples.app0 /\
   current_video (app (snd scan_B)) = Some "b.mp4") /\
  (status_label_text (app (snd scan_other)) = "Unidentified Tag Detected" /\
   current_video (app (snd scan_other)) = None) /\
  scan_other_loaded = (Ok tt, Samples.app_paused).
Proof.
  intros env.
  destruct (tag_resolution env 7 Samples.tag_B Samples.app0)
    as (First & _ & _).
  destruct (tag_resolution env 7 "4242" Samples.app0) as (_ & Unknown & _).
  destruct (tag_resolution env 7 "4242" Samples.app_paused)
    as (_ & _ & Loaded).
  split; [|split].
  - assert (E : handle_tag_detection env 7 Samples.tag_B Samples.app0 =
                load_video env 7 "b.mp4" Samples.app0).
    { apply (First [ {| tag_id := Samples.tag_A; video_path := "a.mp4" |} ]
                   {| tag_id := Samples.tag_B; video_path := "b.mp4" |} []).
      - reflexivity.
      - repeat constructor. discriminate.
      - reflexivity. }
    split; [exact E|]. cbv zeta. rewrite E. vm_compute. reflexivity.
  - destruct Unknown as (_ & Msg & Cur).
    + repeat constructor; discriminate.
    + reflexivity.
    + split; [exact Msg | exact Cur].
  - apply Loaded.
    + repeat constructor; discriminate.
    + reflexivity.
Defined.

(** With two entries for the same tag id the first one is used. *)
Example duplicate_tag_first_wins :
  let dup := [ {| tag_id := "7"; video_path := "a.mp4" |};
               {| tag_id := "7"; video_path := "b.mp4" |} ] in
  let aw := set_app (fun _ => init_app dup) Samples.app0 in
  current_video
    (app (snd (handle_tag_detection Samples.env_ok 7 "7" aw))) = Some "a.mp4".
Proof. vm_compute. reflexivity. Qed.

(** The whole path from the reader to the player: tag B (id 1002) is
    polled at time 10 and [b.mp4] becomes the current video, loaded and
    paused on its first frame. *)
Example scan_loads_video :
  let out := scan_rfid Samples.env_ok 10 10 (RFID.PollId (Some 1002))
                       Samples.app0 in
  fst out = Ok tt /\
  current_video (app (snd out)) = Some "b.mp4" /\
  Player.current_video (Player.vp (video_player (snd out))) = Some "b.mp4" /\
  Player.gst_log (video_player (snd out)) =
    [Player.SetState Player.NULL; Player.SetLocation "b.mp4";
     Player.SetState Player.PLAYING; Player.SetState Player.PAUSED] /\
  status_label_text (app (snd out)) = "Video Loaded - Press Play".
Proof. vm_compute. repeat split. Qed.

End AppFacts.

(* ===================================================================== *)
(** * Further properties of the modules *)
(* ===================================================================== *)

(** ** Frame rules of the monad *)

Section Preserves.

Context {S : Type} (P : S -> Prop).

Lemma preserves_ret {A} (a : A) : preserves P (ret a).
Proof. intros s H. exact H. Qed.

Lemma preserves_raise {A} (e : Exn) : preserves P (@raise S A e).
Proof. intros s H. exact H. Qed.

Lemma preserves_get : preserves P (@get S).
Proof. intros s H. exact H. Qed.

Lemma preserves_modify (f : S -> S) :
  (forall s, P s -> P (f s)) -> preserves P (modify f).
Proof. intros Hf s H. now apply Hf. Qed.

Lemma preserves_bind {A B} (m : M S A) (k : A -> M S B) :
  preserves P m -> (forall a, preserves P (k a)) -> preserves P (bind m k).
Proof.
  intros Hm Hk s H. unfold bind. specialize (Hm s H).
  destruct (m s) as [[a|e] s1]; simpl in *; [now apply Hk | exact Hm].
Qed.

Lemma preserves_try_except {A} (m : M S A) (h : Exn -> M S A) :
  preserves P m -> (forall e, preserves P (h e)) ->
  preserves P (try_except m h).
Proof.
  intros Hm Hh s H. unfold try_except. specialize (Hm s H).
  destruct (m s) as [[a|e] s1]; simpl in *; [exact Hm | now apply Hh].
Qed.

Lemma preserves_try_log (m : M S unit) :
  preserves P m -> preserves P (try_log m).
Proof.
  intros Hm. apply preserves_try_except; [exact Hm|].
  intros e. apply preserves_ret.
Qed.

Lemma preserves_when (b : bool) (m : M S unit) :
  preserves P m -> preserves P (when b m).
Proof. intros Hm. destruct b; [exact Hm | apply preserves_ret]. Qed.

End Preserves.

Lemma try_log_ok {S} (m : M S unit) (s : S) : fst (try_log m s) = Ok tt.
Proof.
  unfold try_log, try_except, ret. now destruct (m s) as [[[]|e] s'].
Qed.

Lemma bind_ok {S A B} (m : M S A) (k : A -> M S B) (s : S) (a : A) :
  fst (m s) = Ok a -> bind m k s = k a (snd (m s)).
Proof. unfold bind. destruct (m s) as [[a'|e] s']; simpl; congruence. Qed.

Lemma bind_get {S B} (k : S -> M S B) (s : S) : bind get k s = k s s.
Proof. reflexivity. Qed.

Lemma bind_eq_ok {S A B} (m : M S A) (k : A -> M S B) (s s' : S) (a : A) :
  m s = (Ok a, s') -> bind m k s = k a s'.
Proof. intros E. unfold bind. now rewrite E. Qed.

Lemma bind_eq_raised {S A B} (m : M S A) (k : A -> M S B) (s s' : S)
    (e : Exn) :
  m s = (Raised e, s') -> bind m k s = (Raised e, s').
Proof. intros E. unfold bind. now rewrite E. Qed.

(** ** Further properties of rfid_reader.py *)

Module RFIDMore.
Import RFID.

#[local] Arguments str_ne_opt : simpl never.

Lemma str_nonempty (n : Z) : str n <> "".
Proof.
  intros E. pose proof (str_parse n) as H. rewrite E in H. discriminate H.
Qed.

Lemma spaced_cons (d a : Q) (l : list Q) :
  Forall (fun b => (d <= b - a)%Q) l ->
  spaced d l = true -> spaced d (a :: l) = true.
Proof.
  intros Hall Hs. destruct l as [|b l]; [reflexivity|].
  inversion Hall as [|? ? Hb _]; subst. cbn [spaced].
  apply andb_true_iff. split; [now apply Qle_bool_iff | exact Hs].
Qed.

(** A disconnected reader answers [None] and stays as it is. *)
Lemma read_tag_disconnected (r : RFIDReader) (t : Q) (hw : Poll) :
  is_connected r = false -> read_tag r t hw = (r, None).
Proof. intros H. unfold read_tag. now rewrite H. Qed.

Lemma read_tags_disconnected (r : RFIDReader) (polls : list (Q * Poll)) :
  is_connected r = false ->
  fst (read_tags r polls) = r /\
  Forall (fun out => out = None) (snd (read_tags r polls)).
Proof.
  intros H. induction polls as [|[t hw] rest IH]; simpl.
  - split; [reflexivity | constructor].
  - rewrite (read_tag_disconnected r t hw H).
    destruct (read_tags r rest) as [r2 outs]. simpl in *.
    destruct IH as [-> Houts]. split; [reflexivity | now constructor].
Qed.

(** X1: a reader that is not connected returns [None] for every poll and
    is never reconnected; and a poll on which the hardware raises while
    the re-initialisation fails returns [None], keeps the remembered time
    and tag id, and leaves the reader in that silent state for good. *)
Theorem fallback_mode_is_permanent (r : RFIDReader) (t : Q)
    (polls : list (Q * Poll)) :
  (is_connected r = false ->
   fst (read_tags r polls) = r /\
   Forall (fun out => out = None) (snd (read_tags r polls))) /\
  (is_connected r = true -> (1 <= t - last_read_time r)%Q ->
   let r1 := fst (read_tag r t (PollRaises false)) in
   snd (read_tag r t (PollRaises false)) = None /\
   last_read_time r1 = last_read_time r /\
   last_tag_id r1 = last_tag_id r /\
   fst (read_tags r1 polls) = r1 /\
   Forall (fun out => out = None) (snd (read_tags r1 polls))).
Proof.
  split.
  - apply read_tags_disconnected.
  - intros Hc Hgate r1. subst r1. unfold read_tag. rewrite Hc. simpl.
    apply Qltb_ge in Hgate. rewrite Hgate. simpl.
    repeat split; apply read_tags_disconnected; reflexivity.
Qed.

Lemma fallback_mode_is_permanent_witness :
  let polls := [(5%Q, PollId (Some 3)); (9%Q, PollId (Some 4))] in
  let r1 := fst (read_tag (init true) 10 (PollRaises false)) in
  (fst (read_tags (init false) polls) = init false /\
   Forall (fun out => out = None) (snd (read_tags (init false) polls))) /\
  (snd (read_tag (init true) 10 (PollRaises false)) = None /\
   fst (read_tags r1 polls) = r1 /\
   Forall (fun out => out = None) (snd (read_tags r1 polls))).
Proof.
  intros polls r1.
  destruct (fallback_mode_is_permanent (init false) 0 polls) as [Off _].
  destruct (fallback_mode_is_permanent (init true) 10 polls) as [_ Fail].
  split; [apply Off; reflexivity|].
  destruct Fail as (A & _ & _ & B & C);
    [reflexivity | vm_compute; discriminate |].
  split; [exact A|]. split; [exact B | exact C].
Defined.

(** What one poll does to the two remembered values. *)
Lemma read_tag_step (r : RFIDReader) (t : Q) (hw : Poll) :
  let r1 := fst (read_tag r t hw) in
  match snd (read_tag r t hw) with
  | Some s =>
      is_connected r = true /\ (1 <= t - last_read_time r)%Q /\
      last_tag_id r <> Some s /\
      last_read_time r1 = t /\ last_tag_id r1 = Some s /\
      exists id, hw = PollId (Some id) /\ s = str id
  | None =>
      last_tag_id r1 = last_tag_id r /\
      (last_read_time r1 = last_read_time r \/
       (last_read_time r1 = t /\ (1 <= t - last_read_time r)%Q))
  end.
Proof.
  unfold read_tag.
  destruct (is_connected r) eqn:Hc; simpl; [|now split; [|left]].
  destruct (Qltb (t - last_read_time r) 1) eqn:Hg; simpl; [now split; [|left]|].
  apply Qltb_ge in Hg.
  destruct hw as [[id|]|ok]; simpl; try (now split; [|left]).
  unfold str_ne_opt.
  destruct (last_tag_id r) as [old|] eqn:Hl.
  - destruct (String.eqb_spec (str id) old) as [E|E]; simpl.
    + rewrite Hl. split; [reflexivity | right; now split].
    + repeat split; try assumption; [congruence | now exists id].
  - simpl. repeat split; try assumption; [discriminate | now exists id].
Qed.

(** X2: whenever [read_tag] returns a tag id, the reader was connected,
    at least one second had passed since the remembered read time, the
    hardware had answered an id, and the value returned is the decimal
    numeral of that id: a non-empty string, different from the tag id
    remembered before the call. *)
Theorem signal_is_new_numeral (r : RFIDReader) (t : Q) (hw : Poll)
    (s : string) :
  snd (read_tag r t hw) = Some s ->
  (exists id, hw = PollId (Some id) /\ s = str id) /\
  s <> "" /\
  is_connected r = true /\
  (1 <= t - last_read_time r)%Q /\
  last_tag_id r <> Some s.
Proof.
  intros H. pose proof (read_tag_step r t hw) as S. cbv zeta in S.
  rewrite H in S. destruct S as (Hc & Hg & Hn & _ & _ & id & -> & ->).
  repeat split; try assumption; [now exists id | apply str_nonempty].
Qed.

Lemma signal_is_new_numeral_witness :
  snd (read_tag (init true) 10 (PollId (Some 42))) = Some "42" /\
  "42" <> "" /\
  (1 <= 10 - last_read_time (init true))%Q.
Proof.
  assert (H : snd (read_tag (init true) 10 (PollId (Some 42))) = Some "42")
    by reflexivity.
  destruct (signal_is_new_numeral (init true) 10 (PollId (Some 42)) "42" H)
    as (_ & Hne & _ & Hgate & _).
  split; [exact H|]. split; [exact Hne | exact Hgate].
Defined.

Lemma signals_after (polls : list (Q * Poll)) (r : RFIDReader) :
  Forall (fun ts => (1 <= fst ts - last_read_time r)%Q) (signals r polls) /\
  spaced 1 (map fst (signals r polls)) = true.
Proof.
  revert r. induction polls as [|[t hw] rest IH]; intros r.
  - split; [constructor | reflexivity].
  - cbn [signals]. pose proof (read_tag_step r t hw) as S. cbv zeta in S.
    destruct (read_tag r t hw) as [r1 out]. cbn [fst snd] in S.
    destruct (IH r1) as [Hall Hsp].
    destruct out as [s|].
    + destruct S as (_ & Hg & _ & Ht & _). rewrite Ht in Hall.
      split.
      * constructor; [exact Hg|].
        eapply List.Forall_impl; [|exact Hall]. cbn. intros ts H. lra.
      * cbn [map fst]. apply spaced_cons; [|exact Hsp].
        apply List.Forall_map. exact Hall.
    + destruct S as (_ & [Ht | [Ht Hg]]); rewrite Ht in Hall.
      * now split.
      * split; [|exact Hsp].
        eapply List.Forall_impl; [|exact Hall]. cbn. intros ts H. lra.
Qed.

(** X3: in every run of polls, whatever their times and whatever the
    hardware answers, two consecutive signals (polls for which
    [read_tag] returns a tag id) are at least one second apart. *)
Theorem signals_one_second_apart (r : RFIDReader) (polls : list (Q * Poll)) :
  spaced 1 (map fst (signals r polls)) = true.
Proof. apply signals_after. Qed.

Lemma signals_fresh (polls : list (Q * Poll)) (r : RFIDReader) :
  match signals r polls with
  | (_, s) :: _ => last_tag_id r <> Some s
  | [] => True
  end /\
  no_repeat String.eqb (map snd (signals r polls)) = true.
Proof.
  revert r. induction polls as [|[t hw] rest IH]; intros r.
  - now split.
  - cbn [signals]. pose proof (read_tag_step r t hw) as S. cbv zeta in S.
    destruct (read_tag r t hw) as [r1 out]. cbn [fst snd] in S.
    destruct (IH r1) as [Hhead Hnr].
    destruct out as [s|].
    + destruct S as (_ & _ & Hn & _ & Hl & _). split; [exact Hn|].
      cbn [map snd]. destruct (signals r1 rest) as [|[t' s'] tl]; [reflexivity|].
      cbn [map snd no_repeat] in *. rewrite Hnr, andb_true_r.
      rewrite Hl in Hhead.
      destruct (String.eqb_spec s s'); [congruence | reflexivity].
    + destruct S as (Hl & _). rewrite Hl in Hhead. now split.
Qed.

(** X4: in every run of polls, no tag id is signalled twice in a row:
    two consecutive signals always carry different tag ids. *)
Theorem no_tag_signalled_twice_in_a_row (r : RFIDReader)
    (polls : list (Q * Poll)) :
  no_repeat String.eqb (map snd (signals r polls)) = true.
Proof. apply signals_fresh. Qed.

Example signals_of_a_run :
  signals (init true)
    [(10%Q, PollId (Some 1)); ((21 # 2)%Q, PollId (Some 2));
     (12%Q, PollId (Some 1)); (13%Q, PollId None);
     (14%Q, PollId (Some 2)); (16%Q, PollId (Some 1))]
  = [(10%Q, "1"); (14%Q, "2"); (16%Q, "1")].
Proof. vm_compute. reflexivity. Qed.

End RFIDMore.

Module BatteryMore.
Import Battery.

(** The quotient [_convert_to_percentage] rounds first. *)
Lemma quotient_above (raw_value k : Z) :
  k * 1023 <= raw_value ->
  (inject_Z k <=
   inject_Z (raw_value - min_value) / inject_Z (max_value - min_value))%Q.
Proof.
  intros H. unfold min_value, max_value.
  change (inject_Z (1023 - 0)) with (1023 # 1)%Q.
  unfold Qle, Qdiv. cbn [Qmult Qinv Qnum Qden inject_Z]. lia.
Qed.

Lemma quotient_below (raw_value k : Z) :
  raw_value <= k * 1023 ->
  (inject_Z (raw_value - min_value) / inject_Z (max_value - min_value) <=
   inject_Z k)%Q.
Proof.
  intros H. unfold min_value, max_value.
  change (inject_Z (1023 - 0)) with (1023 # 1)%Q.
  unfold Qle, Qdiv. cbn [Qmult Qinv Qnum Qden inject_Z]. lia.
Qed.

(** A raw value that is not positive gives 0 when the conversion
    returns. *)
Lemma convert_nonpos (raw_value p : Z) :
  _convert_to_percentage raw_value = Some p -> raw_value <= 0 -> p = 0.
Proof.
  unfold _convert_to_percentage.
  destruct (to_float (_ / _)) as [q|] eqn:E1; [|discriminate].
  destruct (to_float (q * 100)) as [pc|] eqn:E2; [|discriminate].
  intros [= <-] H.
  assert (Hq : (q <= 0)%Q).
  { apply (to_float_nonpos _ _ E1). apply (quotient_below raw_value 0). lia. }
  assert (Hpc : (pc <= 0)%Q).
  { apply (to_float_nonpos _ _ E2).
    unfold Qle in *. cbn [Qnum Qden Qmult] in *. lia. }
  pose proof (int_of_float_nonpos pc Hpc). lia.
Qed.

(** A raw value of 1023 or more gives 100 when the conversion returns. *)
Lemma convert_full (raw_value p : Z) :
  _convert_to_percentage raw_value = Some p -> 1023 <= raw_value -> p = 100.
Proof.
  unfold _convert_to_percentage.
  destruct (to_float (_ / _)) as [q|] eqn:E1; [|discriminate].
  destruct (to_float (q * 100)) as [pc|] eqn:E2; [|discriminate].
  intros [= <-] H.
  assert (Hq : (inject_Z 1 <= q)%Q).
  { apply (to_float_above _ _ 1 E1); [split; [lia | discriminate]|].
    apply quotient_above. lia. }
  assert (Hpc : (inject_Z 100 <= pc)%Q).
  { apply (to_float_above _ _ 100 E2); [split; [lia | discriminate]|].
    unfold Qle in *. cbn [Qnum Qden Qmult inject_Z] in *. lia. }
  pose proof (int_of_float_above pc 100 ltac:(lia) Hpc). lia.
Qed.

(** On the calibrated range the two roundings lose nothing: the result
    is the quotient of [100 * raw] by 1023, rounded down. *)
Lemma convert_calibrated_range (raw_value : Z) :
  0 <= raw_value <= 1023 ->
  _convert_to_percentage raw_value = Some (raw_value * 100 / 1023).
Proof.
  intros H.
  assert (A : forallb
                (fun r => match _convert_to_percentage (Z.of_nat r) with
                          | Some p => (p =? Z.of_nat r * 100 / 1023)%Z
                          | None => false
                          end)
                (seq 0 1024) = true) by (vm_compute; reflexivity).
  rewrite forallb_forall in A.
  specialize (A (Z.to_nat raw_value)). cbv beta in A.
  rewrite Z2Nat.id in A by lia.
  destruct (_convert_to_percentage raw_value) as [p|].
  - f_equal. apply Z.eqb_eq. apply A. apply in_seq. lia.
  - discriminate A. apply in_seq. lia.
Qed.

(** The conversion returns for every raw value of at most 1016 bits. *)
Lemma convert_returns (raw_value : Z) :
  Z.abs raw_value <= 2 ^ 1016 ->
  exists p, _convert_to_percentage raw_value = Some p.
Proof.
  intros H. unfold _convert_to_percentage.
  destruct (to_float_within
              (inject_Z (raw_value - min_value)
               / inject_Z (max_value - min_value)) 1016) as (q & E1 & B1).
  { split; lia || discriminate. }
  { unfold min_value, max_value.
    change (inject_Z (1023 - 0)) with (1023 # 1)%Q.
    unfold Qabs, Qle, Qdiv. cbn [Qmult Qinv Qnum Qden inject_Z].
    assert (0 < 2 ^ 1016) by reflexivity. lia. }
  rewrite E1.
  destruct (to_float_within (q * 100) 1023) as (pc & E2 & B2).
  { split; lia || discriminate. }
  { rewrite Qabs_Qmult. change (2 ^ 1023) with (2 ^ 1016 * 128).
    rewrite inject_Z_mult.
    apply Qmult_le_compat_nonneg.
    - split; [apply Qabs_nonneg | exact B1].
    - split; [apply Qabs_nonneg | unfold Qle; cbn; lia]. }
  rewrite E2. eauto.
Qed.

(** Beyond the float range the conversion raises. *)
Lemma convert_overflows (raw_value : Z) :
  2 ^ 1028 <= Z.abs raw_value -> _convert_to_percentage raw_value = None.
Proof.
  intros H. unfold _convert_to_percentage, min_value, max_value.
  change (inject_Z (1023 - 0)) with (1023 # 1)%Q.
  assert (P : 2 ^ 1028 = 2 ^ 1018 * 1024) by reflexivity.
  assert (P' : 0 < 2 ^ 1018) by reflexivity.
  destruct (to_float (inject_Z (raw_value - 0) / (1023 # 1))) as [q|] eqn:E1;
    [|reflexivity].
  destruct (to_float (q * 100)) as [pc|] eqn:E2; [|reflexivity].
  exfalso.
  pose proof (to_float_finite _ _ E2) as F.
  destruct (Z.le_gt_cases 0 raw_value) as [S|S].
  - assert (Hq : (inject_Z (2 ^ 1018) <= q)%Q).
    { apply (to_float_above_pow2 _ _ 1018 E1); [lia|].
      unfold Qle, Qdiv. cbn [Qmult Qinv Qnum Qden inject_Z]. lia. }
    assert (Hpc : (inject_Z (2 ^ 1024) <= pc)%Q).
    { apply (to_float_above_pow2 _ _ 1024 E2); [lia|].
      change (2 ^ 1024) with (2 ^ 1018 * 64).
      unfold Qle in *. cbn [Qmult Qnum Qden inject_Z] in *. lia. }
    apply (Qlt_irrefl (inject_Z (2 ^ 1024))).
    eapply Qle_lt_trans; [exact Hpc|].
    eapply Qle_lt_trans; [apply Qle_Qabs | exact F].
  - assert (Hq : (q <= - inject_Z (2 ^ 1018))%Q).
    { apply (to_float_below_pow2 _ _ 1018 E1); [lia|].
      unfold Qle, Qdiv. cbn [Qmult Qinv Qnum Qden inject_Z Qopp]. lia. }
    assert (Hpc : (pc <= - inject_Z (2 ^ 1024))%Q).
    { apply (to_float_below_pow2 _ _ 1024 E2); [lia|].
      change (2 ^ 1024) with (2 ^ 1018 * 64).
      unfold Qle in *. cbn [Qmult Qnum Qden inject_Z Qopp] in *. lia. }
    apply (Qlt_irrefl (inject_Z (2 ^ 1024))).
    eapply Qle_lt_trans; [|exact F].
    rewrite <- (Qabs_opp pc).
    eapply Qle_trans; [|apply Qle_Qabs].
    apply Qopp_le_compat in Hpc. rewrite Qopp_involutive in Hpc. exact Hpc.
Qed.

(** A raw value of at most 10 gives 0 when the conversion returns. *)
Lemma convert_small (raw_value p : Z) :
  _convert_to_percentage raw_value = Some p -> raw_value <= 10 -> p = 0.
Proof.
  intros E H. destruct (Z.le_gt_cases raw_value 0) as [L|L].
  - exact (convert_nonpos _ _ E L).
  - rewrite convert_calibrated_range in E by lia. injection E as <-.
    apply Z.div_small. lia.
Qed.

(** A raw value between 0 and 10 is converted to 0. *)
Lemma convert_digital (raw_value : Z) :
  0 <= raw_value <= 10 -> _convert_to_percentage raw_value = Some 0.
Proof.
  intros H. rewrite convert_calibrated_range by lia. f_equal.
  apply Z.div_small. lia.
Qed.

(** X5: [_convert_to_percentage] is monotone: of two raw values for
    which it returns, the larger never gives the smaller percentage. *)
Theorem convert_monotone (raw1 raw2 p1 p2 : Z) :
  raw1 <= raw2 ->
  _convert_to_percentage raw1 = Some p1 ->
  _convert_to_percentage raw2 = Some p2 ->
  p1 <= p2.
Proof.
  intros H E1 E2.
  pose proof (BatteryFacts.convert_in_range _ _ E1).
  pose proof (BatteryFacts.convert_in_range _ _ E2).
  destruct (Z.le_gt_cases raw1 0) as [L|L].
  - rewrite (convert_nonpos _ _ E1 L). lia.
  - destruct (Z.le_gt_cases 1023 raw2) as [U|U].
    + rewrite (convert_full _ _ E2 U). lia.
    + rewrite convert_calibrated_range in E1, E2 by lia.
      injection E1 as <-. injection E2 as <-.
      apply Z.div_le_mono; lia.
Qed.

Lemma convert_monotone_witness :
  300 <= 700 /\
  _convert_to_percentage 300 = Some 29 /\
  _convert_to_percentage 700 = Some 68 /\
  29 <= 68.
Proof.
  assert (H : 300 <= 700) by lia.
  assert (E1 : _convert_to_percentage 300 = Some 29)
    by (vm_compute; reflexivity).
  assert (E2 : _convert_to_percentage 700 = Some 68)
    by (vm_compute; reflexivity).
  split; [exact H|]. split; [exact E1|]. split; [exact E2|].
  exact (convert_monotone 300 700 29 68 H E1 E2).
Defined.

(** X6: on the calibrated range 0..1023 the conversion returns [100 *
    raw] divided by 1023, rounded down.  It returns for every raw value
    of magnitude at most [2 ^ 1016] and raises [OverflowError] for every
    raw value of magnitude [2 ^ 1028] or more; whenever it returns, a raw
    value of at most 10 (so both levels, 0 and 1, of a digital pin) gives
    0 and a raw value of 1023 or more gives 100. *)
Theorem convert_calibrated (raw_value : Z) :
  (0 <= raw_value <= 1023 ->
   _convert_to_percentage raw_value = Some (raw_value * 100 / 1023)) /\
  (Z.abs raw_value <= 2 ^ 1016 ->
   exists p, _convert_to_percentage raw_value = Some p) /\
  (2 ^ 1028 <= Z.abs raw_value -> _convert_to_percentage raw_value = None) /\
  (forall p, _convert_to_percentage raw_value = Some p ->
     (raw_value <= 10 -> p = 0) /\ (1023 <= raw_value -> p = 100)).
Proof.
  split; [apply convert_calibrated_range|].
  split; [apply convert_returns|].
  split; [apply convert_overflows|].
  intros p E. split; [apply (convert_small _ _ E) | apply (convert_full _ _ E)].
Qed.

Lemma convert_calibrated_witness :
  _convert_to_percentage 512 = Some (512 * 100 / 1023) /\
  _convert_to_percentage 1 = Some 0 /\
  _convert_to_percentage (2 ^ 1000) = Some 100 /\
  _convert_to_percentage (- 10 ^ 400) = None.
Proof.
  split; [|split; [|split]].
  - apply (proj1 (convert_calibrated 512)). lia.
  - destruct (proj1 (proj2 (convert_calibrated 1))) as [p E];
      [vm_compute; discriminate|].
    rewrite E. f_equal.
    apply (proj1 (proj2 (proj2 (proj2 (convert_calibrated 1))) p E)). lia.
  - destruct (proj1 (proj2 (convert_calibrated (2 ^ 1000)))) as [p E];
      [vm_compute; discriminate|].
    rewrite E. f_equal.
    apply (proj2 (proj2 (proj2 (proj2 (convert_calibrated (2 ^ 1000)))) p E)).
    vm_compute. discriminate.
  - apply (proj1 (proj2 (proj2 (convert_calibrated (- 10 ^ 400))))).
    vm_compute. discriminate.
Defined.

End BatteryMore.

Module ButtonMore.
Import Buttons.

(** What an edge does: nothing, or (for a configured button whose
    window has elapsed and whose level differs) it records level and time
    and invokes the registered callback. *)
Lemma button_callback_cases (cfg : Config) (c : ButtonController)
    (b : string) (t : Q) (hw : option bool) :
  _button_callback cfg c b t hw = (c, None) \/
  exists pin last level st,
    buttons c !! b = Some pin /\
    last_press_times c !! b = Some last /\
    (button_debounce_time cfg <= t - last)%Q /\
    hw = Some level /\
    button_states c !! b = Some st /\
    level <> st /\
    _button_callback cfg c b t hw =
      ({| buttons := buttons c;
          button_states := <[b := level]> (button_states c);
          last_press_times := <[b := t]> (last_press_times c);
          callbacks := callbacks c |},
       match callbacks c !! b with
       | Some cb => Some (cb, level)
       | None => None
       end).
Proof.
  unfold _button_callback.
  destruct (buttons c !! b) as [pin|] eqn:Hb; [|now left].
  destruct (last_press_times c !! b) as [last|] eqn:Hl; [|now left].
  destruct (Qltb (t - last) (button_debounce_time cfg)) eqn:Hq; [now left|].
  apply Qltb_ge in Hq.
  destruct hw as [level|]; [|now left].
  destruct (button_states c !! b) as [st|] eqn:Hs; [|now left].
  destruct (Bool.eqb level st) eqn:He; simpl; [now left|].
  right. exists pin, last, level, st.
  apply Bool.eqb_false_iff in He.
  repeat split; try assumption; try reflexivity.
  now destruct (callbacks c !! b).
Qed.

Lemma step_same_keys (cfg : Config) (c : ButtonController) (e : Event) :
  same_keys c ->
  same_keys (step cfg c e) /\
  dom (button_states (step cfg c e)) = dom (button_states c).
Proof.
  intros [H1 H2]. destruct e as [b t hw|b cb]; simpl; [|now repeat split].
  destruct (button_callback_cases cfg c b t hw)
    as [-> | (pin & last & level & st & Hb & Hl & _ & _ & Hs & _ & ->)];
    [now repeat split|].
  simpl. unfold same_keys. simpl.
  rewrite (dom_insert_lookup_L (button_states c)) by (rewrite Hs; eauto).
  rewrite (dom_insert_lookup_L (last_press_times c)) by (rewrite Hl; eauto).
  now repeat split.
Qed.

Lemma run_same_keys (cfg : Config) (es : list Event) (c : ButtonController) :
  same_keys c ->
  same_keys (run cfg c es) /\
  dom (button_states (run cfg c es)) = dom (button_states c).
Proof.
  revert c. induction es as [|e es IH]; intros c H; simpl.
  - now split.
  - destruct (step_same_keys cfg c e H) as [H' Hd].
    destruct (IH _ H') as [H'' Hd']. split; [exact H''|]. now rewrite Hd'.
Qed.

Lemma configure_same_keys (b : string) (pin : Z) (c : ButtonController) :
  same_keys c -> same_keys (configure b pin c).
Proof.
  intros [H1 H2]. unfold same_keys, configure. simpl.
  rewrite !dom_insert_L, H1, H2. now split.
Qed.

Lemma initialize_loop_same_keys (g : GpioInit) (items : list (string * Z))
    (c : ButtonController) :
  same_keys c -> same_keys (initialize_loop g items c).
Proof.
  revert c. induction items as [|[b pin] rest IH]; intros c H; simpl.
  - exact H.
  - destruct (negb (setup_ok g pin)); [exact H|].
    destruct (negb (add_event_detect_ok g pin)).
    + now apply configure_same_keys.
    + apply IH. now apply configure_same_keys.
Qed.

Lemma initialize_same_keys (cfg : Config) (g : GpioInit) :
  same_keys (initialize_buttons cfg g).
Proof.
  unfold initialize_buttons.
  destruct (negb (setmode_ok g)); [|apply initialize_loop_same_keys];
    unfold same_keys, empty; simpl; now rewrite !dom_empty_L.
Qed.

(** X7: after initialization and any sequence of pin events and callback
    registrations, the dictionaries [buttons], [button_states] and
    [last_press_times] have the same keys, and these are the keys
    [initialize_buttons] created: no event adds or removes a button. *)
Theorem button_dictionaries_share_keys (cfg : Config) (g : GpioInit)
    (es : list Event) :
  let c0 := initialize_buttons cfg g in
  let c := run cfg c0 es in
  dom (buttons c) = dom (button_states c) /\
  dom (last_press_times c) = dom (button_states c) /\
  dom (button_states c) = dom (button_states c0).
Proof.
  intros c0 c.
  destruct (run_same_keys cfg es c0 (initialize_same_keys cfg g))
    as [[H1 H2] H3].
  now repeat split.
Qed.

Lemma initialize_loop_fresh (g : GpioInit) (items : list (string * Z))
    (c : ButtonController) :
  fresh_entries c -> fresh_entries (initialize_loop g items c).
Proof.
  revert c. induction items as [|[b pin] rest IH]; intros c H; simpl.
  - exact H.
  - destruct (negb (setup_ok g pin)); [exact H|].
    assert (Hc : fresh_entries (configure b pin c)).
    { destruct H as [Hs Ht]. split; intros name x; unfold configure; simpl;
        rewrite lookup_insert; case_decide; try congruence; eauto. }
    destruct (negb (add_event_detect_ok g pin)); [exact Hc | now apply IH].
Qed.

Lemma initialize_loop_all (g : GpioInit) (items : list (string * Z))
    (c : ButtonController) (name : string) :
  (forall pin, setup_ok g pin = true /\ add_event_detect_ok g pin = true) ->
  name ∈ items.*1 \/ is_Some (button_states c !! name) ->
  is_Some (button_states (initialize_loop g items c) !! name).
Proof.
  intros Hok. revert c. induction items as [|[b pin] rest IH]; intros c H; simpl.
  - destruct H as [H|H]; [|exact H]. simpl in H. now apply elem_of_nil in H.
  - destruct (Hok pin) as [-> ->]. simpl. apply IH.
    destruct H as [H|H].
    + simpl in H. apply elem_of_cons in H as [->|H]; [right|now left].
      unfold configure. simpl. rewrite lookup_insert_eq. eauto.
    + right. unfold configure. simpl. rewrite lookup_insert.
      case_decide; eauto.
Qed.

(** X8: [initialize_buttons] records every button it configures as not
    pressed ([True]) with press time 0; when no GPIO call raises, the
    configured buttons are exactly the names of [config['gpio_pins']]. *)
Theorem initialize_buttons_entries (cfg : Config) (g : GpioInit)
    (name : string) :
  let c0 := initialize_buttons cfg g in
  (forall st, button_states c0 !! name = Some st -> st = true) /\
  (forall t, last_press_times c0 !! name = Some t -> t = 0%Q) /\
  (setmode_ok g = true ->
   (forall pin, setup_ok g pin = true /\ add_event_detect_ok g pin = true) ->
   (button_states c0 !! name = Some true <-> name ∈ (gpio_pins cfg).*1)).
Proof.
  intros c0.
  assert (Hf : fresh_entries c0).
  { subst c0. unfold initialize_buttons.
    destruct (negb (setmode_ok g)); [|apply initialize_loop_fresh];
      split; intros n x; simpl; rewrite lookup_empty; discriminate. }
  destruct Hf as [Hs Ht]. split; [apply Hs|]. split; [apply Ht|].
  intros Hm Hok. split.
  - intros H. destruct (decide (name ∈ (gpio_pins cfg).*1)) as [|Hn]; [done|].
    pose proof (ButtonFacts.unconfigured_has_no_entry cfg g name Hn) as E.
    fold c0 in E. congruence.
  - intros Hin. subst c0. unfold initialize_buttons in *. rewrite Hm in *.
    simpl in *.
    destruct (initialize_loop_all g (gpio_pins cfg) empty name Hok
                (or_introl Hin)) as [st Hst].
    rewrite Hst. f_equal. now apply (Hs name).
Qed.


Lemma levels_of_cons (b b' : string) (cb : nat) (level : bool)
    (l : list (string * nat * bool)) :
  levels_of b ((b', cb, level) :: l) =
    if String.eqb b' b then level :: levels_of b l else levels_of b l.
Proof. unfold levels_of. simpl. now destruct (String.eqb b' b). Qed.

Lemma fired_alternate (cfg : Config) (b : string) (es : list Event)
    (c : ButtonController) :
  no_repeat Bool.eqb (levels_of b (fired cfg c es)) = true /\
  (is_Some (callbacks c !! b) ->
   match levels_of b (fired cfg c es) with
   | level :: _ => button_states c !! b <> Some level
   | [] => True
   end).
Proof.
  revert c. induction es as [|e es IH]; intros c; [now split|].
  destruct e as [b' t hw|b' cb]; cbn [fired].
  - destruct (button_callback_cases cfg c b' t hw)
      as [-> | (pin & last & level & st & _ & _ & _ & _ & Hs & Hne & ->)];
      [apply IH|].
    set (c' := {| buttons := buttons c;
                  button_states := <[b' := level]> (button_states c);
                  last_press_times := <[b' := t]> (last_press_times c);
                  callbacks := callbacks c |}).
    destruct (IH c') as [Hnr Hhead].
    assert (Hother : b' <> b -> button_states c' !! b = button_states c !! b)
      by (intros Hb; subst c'; simpl; now rewrite lookup_insert_ne).
    destruct (callbacks c !! b') as [cb|] eqn:Hcb.
    + rewrite levels_of_cons.
      destruct (String.eqb_spec b' b) as [->|Hb].
      * assert (Hreg : is_Some (callbacks c' !! b))
          by (subst c'; simpl; rewrite Hcb; eauto).
        specialize (Hhead Hreg).
        split; [|intros _; rewrite Hs; congruence].
        destruct (levels_of b (fired cfg c' es)) as [|level' tl];
          [reflexivity|].
        cbn [no_repeat] in *. rewrite Hnr, andb_true_r.
        subst c'. simpl in Hhead. rewrite lookup_insert_eq in Hhead.
        destruct level, level'; simpl; congruence.
      * split; [exact Hnr|]. rewrite <- (Hother Hb). exact Hhead.
    + destruct (String.eqb_spec b' b) as [->|Hb].
      * split; [exact Hnr|]. rewrite Hcb. intros [x Hx]. discriminate Hx.
      * split; [exact Hnr|]. rewrite <- (Hother Hb). exact Hhead.
  - destruct (IH (register_callback c b' cb)) as [Hnr Hhead].
    split; [exact Hnr|]. intros Hreg. apply Hhead. simpl.
    rewrite lookup_insert. case_decide; eauto.
Qed.

(** X9: in every run, the levels passed to the callbacks of one button
    alternate: a callback is never invoked twice in a row with the same
    level. *)
Theorem callback_levels_alternate (cfg : Config) (c : ButtonController)
    (es : list Event) (b : string) :
  no_repeat Bool.eqb (levels_of b (fired cfg c es)) = true.
Proof. apply fired_alternate. Qed.

Lemma change_times_spaced (cfg : Config) (b : string) (es : list Event)
    (c : ButtonController) :
  spaced (button_debounce_time cfg) (change_times cfg b c es) = true /\
  match change_times cfg b c es with
  | t :: _ => exists last, last_press_times c !! b = Some last /\
                           (button_debounce_time cfg <= t - last)%Q
  | [] => True
  end.
Proof.
  revert c. induction es as [|e es IH]; intros c; [now split|].
  destruct e as [b' t hw|b' cb]; cbn [change_times step].
  - destruct (button_callback_cases cfg c b' t hw)
      as [-> | (pin & last & level & st & _ & Hl & Hd & _ & Hs & Hne & ->)].
    + cbn [fst]. rewrite bool_decide_eq_true_2 by reflexivity.
      rewrite andb_false_r. apply IH.
    + cbn [fst].
      set (c' := {| buttons := buttons c;
                    button_states := <[b' := level]> (button_states c);
                    last_press_times := <[b' := t]> (last_press_times c);
                    callbacks := callbacks c |}).
      destruct (IH c') as [Hsp Hhead].
      destruct (String.eqb_spec b' b) as [->|Hb]; cbn [andb].
      * rewrite bool_decide_eq_false_2
          by (subst c'; simpl; rewrite lookup_insert_eq, Hs; congruence).
        cbn [negb]. split; [|now exists last].
        destruct (change_times cfg b c' es) as [|t2 tl]; [reflexivity|].
        cbn [spaced] in *. rewrite Hsp, andb_true_r.
        destruct Hhead as (last' & Hl' & Hd').
        subst c'. simpl in Hl'. rewrite lookup_insert_eq in Hl'.
        injection Hl' as <-. now apply Qle_bool_iff.
      * split; [exact Hsp|].
        destruct (change_times cfg b c' es) as [|t2 tl]; [exact I|].
        destruct Hhead as (last' & Hl' & Hd'). exists last'.
        split; [|exact Hd']. subst c'. simpl in Hl'.
        now rewrite lookup_insert_ne in Hl'.
  - exact (IH (register_callback c b' cb)).
Qed.

(** X10: in every run, two consecutive accepted level changes of one
    button are at least [button_debounce_time] apart. *)
Theorem level_changes_debounced (cfg : Config) (c : ButtonController)
    (es : list Event) (b : string) :
  spaced (button_debounce_time cfg) (change_times cfg b c es) = true.
Proof. apply change_times_spaced. Qed.

Lemma initialize_buttons_entries_witness :
  let c0 := initialize_buttons Samples.button_cfg Samples.gpio_ok in
  "play" ∈ (gpio_pins Samples.button_cfg).*1 /\
  button_states c0 !! "play" = Some true.
Proof.
  intros c0.
  assert (Hin : "play" ∈ (gpio_pins Samples.button_cfg).*1)
    by (simpl; apply elem_of_cons; now left).
  split; [exact Hin|].
  destruct (initialize_buttons_entries Samples.button_cfg Samples.gpio_ok
              "play") as (_ & _ & All).
  apply All; [reflexivity | now split | exact Hin].
Defined.

Example button_run :
  let c0 := initialize_buttons Samples.button_cfg Samples.gpio_ok in
  let es := [Register "play" 7%nat;
             Edge "play" 5 (Some false); Edge "play" (51 # 10) (Some true);
             Edge "play" 6 (Some false); Edge "play" 7 (Some true);
             Edge "stop" 8 (Some false)] in
  fired Samples.button_cfg c0 es = [("play", 7%nat, false);
                                    ("play", 7%nat, true)] /\
  change_times Samples.button_cfg "play" c0 es = [5%Q; 7%Q].
Proof. vm_compute. split; reflexivity. Qed.

End ButtonMore.

Lemma bind_modify {S B} (f : S -> S) (k : unit -> M S B) (s : S) :
  bind (modify f) k s = k tt (f s).
Proof. reflexivity. Qed.

Lemma bind_ret_snd {S A B} (m : M S A) (b : B) (s : S) :
  snd (bind m (fun _ => ret b) s) = snd (m s).
Proof. unfold bind. now destruct (m s) as [[a|e] s']. Qed.

Module PlayerMore.
Import Player.

Lemma gst_call_returns (env : Env) (c : GstCall) (w : World) :
  gst_raises env (gst_log w) c = None ->
  gst_call env c w = (Ok tt, log_call c w).
Proof. intros H. unfold gst_call. now rewrite H. Qed.

Lemma gst_call_raises (env : Env) (c : GstCall) (w : World) (msg : string) :
  gst_raises env (gst_log w) c = Some msg ->
  gst_call env c w = (Raised (ExternalError msg), log_call c w).
Proof. intros H. unfold gst_call. now rewrite H. Qed.

(** One step of a frame proof. *)
Ltac frame_step :=
  lazymatch goal with
  | |- preserves _ (ret _) => apply preserves_ret
  | |- preserves _ (raise _) => apply preserves_raise
  | |- preserves _ get => apply preserves_get
  | |- preserves _ (try_log _) => apply preserves_try_log
  | |- preserves _ (when _ _) => apply preserves_when
  | |- preserves _ (bind _ _) => apply preserves_bind; [|intro]
  | |- preserves _ (try_except _ _) => apply preserves_try_except; [|intro]
  | |- preserves _ (let _ := _ in _) => cbv zeta
  | |- preserves _ (if ?b then _ else _) => destruct b
  | |- preserves _ (match ?x with _ => _ end) => destruct x
  end.

Section Frame.

Variable env : Env.
Variable P : World -> Prop.

Hypothesis P_log : forall c w, P w -> P (log_call c w).
Hypothesis P_playing : forall b w, P w -> P (set_vp (with_is_playing b) w).
Hypothesis P_volume :
  forall v w, 0 <= v <= 100 -> P w -> P (set_vp (with_volume v) w).
Hypothesis P_file : forall f w, P w -> P (set_state_file f w).
Hypothesis P_current :
  forall p w, P w -> P (set_vp (with_current_video (Some p)) w).
Hypothesis P_no_pipeline : forall w, P w -> P (set_vp (with_pipeline false) w).

Lemma frame_gst_call (c : GstCall) : preserves P (gst_call env c).
Proof.
  intros w H. unfold gst_call.
  destruct (gst_raises env (gst_log w) c); simpl; now apply P_log.
Qed.

Lemma frame_gst_ask (c : GstCall) : preserves P (gst_ask env c).
Proof.
  intros w H. unfold gst_ask.
  destruct (gst_query env (gst_log w) c); simpl; now apply P_log.
Qed.

Lemma frame_transport (st : GstState) (b : bool) :
  preserves P
    (try_log (w <- get ;;
              when (pipeline (vp w))
                   (gst_call env (SetState st) ;;
                    modify (set_vp (with_is_playing b))))%py).
Proof.
  repeat frame_step; [apply frame_gst_call|].
  apply preserves_modify. intros w. apply P_playing.
Qed.

Lemma frame_play : preserves P (play env).
Proof. apply frame_transport. Qed.

Lemma frame_pause : preserves P (pause env).
Proof. apply frame_transport. Qed.

Lemma frame_stop : preserves P (stop env).
Proof. apply frame_transport. Qed.

Lemma frame_seek (position : Q) : preserves P (seek env position).
Proof. unfold seek. repeat frame_step. apply frame_gst_call. Qed.

Lemma frame_set_volume (v : Z) : preserves P (set_volume env v).
Proof.
  unfold set_volume. repeat frame_step; [|apply frame_gst_call].
  apply preserves_modify. intros w. apply P_volume. lia.
Qed.

Lemma frame_query_seconds (c : GstCall) : preserves P (query_seconds env c).
Proof. unfold query_seconds. repeat frame_step. apply frame_gst_ask. Qed.

Lemma frame_save_state : preserves P (save_state env).
Proof.
  unfold save_state. repeat frame_step; [apply frame_query_seconds|].
  unfold write_state. repeat frame_step;
    apply preserves_modify; intros w; apply P_file.
Qed.

Lemma frame_load_saved_position : preserves P (load_saved_position env).
Proof.
  unfold load_saved_position, read_state, subscript. repeat frame_step;
    first [apply frame_seek | apply frame_set_volume].
Qed.

Lemma frame_load (video_path : string) : preserves P (load env video_path).
Proof.
  unfold load. repeat frame_step.
  - apply frame_gst_call.
  - apply frame_gst_call.
  - apply preserves_modify. intros w. apply P_current.
  - apply frame_load_saved_position.
  - apply frame_play.
  - apply frame_pause.
Qed.

Lemma frame_on_message (message : Message) :
  preserves P (_on_message env message).
Proof.
  unfold _on_message, _on_video_end. frame_step.
  destruct message as [|[text|]|]; repeat frame_step;
    [apply frame_seek | apply frame_pause].
Qed.

Lemma frame_cleanup : preserves P (cleanup env).
Proof.
  unfold cleanup. repeat frame_step;
    [apply frame_save_state | apply frame_gst_call |].
  apply preserves_modify. exact P_no_pipeline.
Qed.

Lemma frame_do_op (op : Op) (w : World) : P w -> P (do_op env w op).
Proof.
  intros H. destruct op; simpl.
  - now apply frame_play.
  - now apply frame_pause.
  - now apply frame_stop.
  - now apply frame_seek.
  - now apply frame_set_volume.
  - now apply frame_query_seconds.
  - now apply frame_query_seconds.
  - now apply frame_save_state.
  - now apply frame_load.
  - now apply frame_on_message.
  - now apply frame_cleanup.
Qed.

Lemma frame_run_ops (ops : list Op) (w : World) :
  P w -> P (run_ops env w ops).
Proof.
  revert w. induction ops as [|op ops IH]; intros w H; simpl; [exact H|].
  apply IH. now apply frame_do_op.
Qed.

End Frame.


(** *** Runs of single operations *)




Lemma pause_run (env : Env) (w : World) :
  pipeline (vp w) = true ->
  gst_raises env (gst_log w) (SetState PAUSED) = None ->
  pause env w =
    (Ok tt, set_vp (with_is_playing false) (log_call (SetState PAUSED) w)).
Proof.
  intros Hp Hc. unfold pause, gst_call. run_py. now rewrite Hp, Hc.
Qed.

(** The tail of [load] always returns. *)
Lemma load_tail_ok (env : Env) (w : World) :
  fst ((load_saved_position env ;; play env ;; pause env)%py w) = Ok tt.
Proof.
  rewrite (bind_ok _ _ w tt) by apply try_log_ok.
  rewrite (bind_ok _ _ _ tt) by apply try_log_ok.
  apply try_log_ok.
Qed.

(** [load] up to the assignment of [current_video]: it raises with the
    player and the state file untouched, or goes on from the world in
    which the new path is current, with a pipeline. *)
Lemma load_cases (env : Env) (video_path : string) (w : World) :
  (exists e w', load env video_path w = (Raised e, w') /\
                vp w' = vp w /\ state_file w' = state_file w) \/
  (exists w', load env video_path w =
                (load_saved_position env ;; play env ;; pause env)%py w' /\
              vp w' = with_current_video (Some video_path) (vp w) /\
              state_file w' = state_file w /\
              pipeline (vp w) = true /\
              path_exists env video_path = true).
Proof.
  unfold load. destruct (path_exists env video_path) eqn:He; simpl;
    [|left; now eexists _, w].
  rewrite bind_get.
  destruct (pipeline (vp w)) eqn:Hp; unfold when; cbv iota.
  - destruct (gst_raises env (gst_log w) (SetState NULL)) as [msg|] eqn:H1.
    { left. eexists _, _. split; [|split].
      - apply bind_eq_raised. exact (gst_call_raises env _ _ _ H1).
      - reflexivity.
      - reflexivity. }
    rewrite (bind_eq_ok _ _ _ _ _ (gst_call_returns env _ _ H1)).
    destruct (gst_raises env (gst_log (log_call (SetState NULL) w))
                (SetLocation video_path)) as [msg|] eqn:H2.
    { left. eexists _, _. split; [|split].
      - apply bind_eq_raised. exact (gst_call_raises env _ _ _ H2).
      - reflexivity.
      - reflexivity. }
    rewrite (bind_eq_ok _ _ _ _ _ (gst_call_returns env _ _ H2)).
    right. eexists. split; [reflexivity|]. now repeat split.
  - left. now eexists _, w.
Qed.

(** X13: [load] is all or nothing for the player: when it returns, the
    path is the player's current video (and the file exists and there is
    a pipeline); when it raises, the player's attributes and the state
    file are what they were; for a path that does not exist it raises
    [FileNotFoundError] before any call on the pipeline. *)
Theorem load_all_or_nothing (env : Env) (video_path : string) (w : World) :
  let out := load env video_path w in
  (fst out = Ok tt ->
   current_video (vp (snd out)) = Some video_path /\
   pipeline (vp (snd out)) = true /\
   path_exists env video_path = true) /\
  (forall e, fst out = Raised e ->
   vp (snd out) = vp w /\ state_file (snd out) = state_file w) /\
  (path_exists env video_path = false ->
   out = (Raised (FileNotFoundError
                    ("Video file not found: " ++ video_path)), w)).
Proof.
  intros out. subst out. split; [|split].
  - intros Hok.
    destruct (load_cases env video_path w)
      as [(e & w' & E & _) | (w' & E & Hvp & _ & Hp & He)];
      rewrite E in *; [discriminate Hok|].
    set (P := fun x : World =>
                current_video (vp x) = Some video_path /\
                pipeline (vp x) = true).
    assert (HP : P w') by (unfold P; rewrite Hvp; now split).
    assert (Hfin : P (snd ((load_saved_position env ;; play env ;;
                            pause env)%py w'))).
    { revert HP. apply preserves_bind;
        [apply frame_load_saved_position; unfold P; now intros|].
      intros _. apply preserves_bind;
        [apply frame_play; unfold P; now intros|].
      intros _. apply frame_pause; unfold P; now intros. }
    destruct Hfin as [H1 H2]. now repeat split.
  - intros e He.
    destruct (load_cases env video_path w)
      as [(e' & w' & E & Hvp & Hf) | (w' & E & _)]; rewrite E in *.
    + now split.
    + rewrite load_tail_ok in He. discriminate He.
  - intros He. unfold load. now rewrite He.
Qed.

Lemma load_all_or_nothing_witness :
  let ok := load Samples.env_ok "a.mp4" Samples.world0 in
  let missing := load Samples.env_ok "missing.mp4" Samples.world0 in
  (fst ok = Ok tt /\ current_video (vp (snd ok)) = Some "a.mp4") /\
  (fst missing =
     Raised (FileNotFoundError "Video file not found: missing.mp4") /\
   vp (snd missing) = vp Samples.world0 /\
   missing = (Raised (FileNotFoundError "Video file not found: missing.mp4"),
              Samples.world0)).
Proof.
  intros ok missing.
  destruct (load_all_or_nothing Samples.env_ok "a.mp4" Samples.world0)
    as (Hok & _ & _).
  destruct (load_all_or_nothing Samples.env_ok "missing.mp4" Samples.world0)
    as (_ & Hraise & Hmissing).
  assert (E : fst ok = Ok tt) by reflexivity.
  assert (F : fst missing =
              Raised (FileNotFoundError "Video file not found: missing.mp4"))
    by reflexivity.
  split; [split; [exact E | exact (proj1 (Hok E))]|].
  split; [exact F|]. split; [exact (proj1 (Hraise _ F))|].
  apply Hmissing. reflexivity.
Defined.

(** X14: with a pipeline that never refuses the PAUSED state, a [load]
    that returns leaves the player paused ([is_playing] is [False]),
    whatever it was before and whatever else the pipeline did. *)
Theorem load_leaves_player_paused (env : Env) (video_path : string)
    (w : World) :
  (forall log, gst_raises env log (SetState PAUSED) = None) ->
  fst (load env video_path w) = Ok tt ->
  is_playing (vp (snd (load env video_path w))) = false.
Proof.
  intros Hpause Hok.
  destruct (load_cases env video_path w)
    as [(e & w' & E & _) | (w' & E & Hvp & _ & Hp & _)];
    rewrite E in *; [discriminate Hok|].
  clear Hok E.
  set (P := fun x : World => pipeline (vp x) = true).
  assert (HP : P w') by (unfold P; now rewrite Hvp).
  rewrite (bind_ok _ _ w' tt) by apply try_log_ok.
  rewrite (bind_ok _ _ _ tt) by apply try_log_ok.
  apply (frame_load_saved_position env P) in HP; [|now intros..].
  apply (frame_play env P) in HP; [|now intros..].
  rewrite pause_run; [reflexivity | exact HP | apply Hpause].
Qed.

Lemma load_leaves_player_paused_witness :
  let playing := set_vp (with_is_playing true) Samples.world0 in
  is_playing (vp playing) = true /\
  fst (load Samples.env_ok "a.mp4" playing) = Ok tt /\
  is_playing (vp (snd (load Samples.env_ok "a.mp4" playing))) = false.
Proof.
  intros playing. split; [reflexivity|].
  assert (E : fst (load Samples.env_ok "a.mp4" playing) = Ok tt)
    by reflexivity.
  split; [exact E|].
  apply load_leaves_player_paused; [reflexivity | exact E].
Defined.


(** X11: the volume is always in [0,100]: every sequence of player
    operations (transport, seek, volume, queries, save, load, bus
    messages, cleanup) keeps a volume that is in range in range, and a
    player whose construction succeeds starts in range even when the
    configured default volume is not. *)
Theorem volume_always_in_range (env : Env) (ops : list Op) :
  (forall w, 0 <= volume (vp w) <= 100 ->
             0 <= volume (vp (run_ops env w ops)) <= 100) /\
  (forall o default_volume file,
     fst (__init__ env o default_volume file) = Ok tt ->
     0 <= volume (vp (run_ops env (snd (__init__ env o default_volume file))
                              ops)) <= 100).
Proof.
  assert (Hrun : forall w, 0 <= volume (vp w) <= 100 ->
                           0 <= volume (vp (run_ops env w ops)) <= 100).
  { intros w. apply (frame_run_ops env (fun x => 0 <= volume (vp x) <= 100));
      now intros. }
  split; [exact Hrun|].
  intros o dv file Hok. apply Hrun. revert Hok.
  unfold __init__, initialize_player.
  destruct o as [msg|msg|]; [discriminate | discriminate |]. intros _.
  match goal with |- context [bind _ _ ?w0] =>
    rewrite (bind_eq_ok (modify (set_vp (with_pipeline true))) _ w0
               (set_vp (with_pipeline true) w0) tt eq_refl)
  end.
  rewrite bind_get.
  rewrite PlayerFacts.set_volume_run by reflexivity. simpl. lia.
Qed.

Lemma volume_always_in_range_witness :
  let built := __init__ Samples.env_ok InitOk 150 Absent in
  let ops := [OpSetVolume 500; OpLoad "a.mp4"; OpSetVolume (-3);
              OpSaveState; OpMessage EOS] in
  fst built = Ok tt /\
  volume (vp (snd built)) = 100 /\
  0 <= volume (vp (run_ops Samples.env_ok (snd built) ops)) <= 100.
Proof.
  intros built ops.
  assert (E : fst built = Ok tt) by reflexivity.
  split; [exact E|]. split; [reflexivity|].
  exact (proj2 (volume_always_in_range Samples.env_ok ops)
               InitOk 150 Absent E).
Defined.

(** X12: a player without a pipeline (before a successful
    initialisation, after a completed cleanup) is inert: [play], [pause],
    [stop], [seek], [set_volume], [_on_message] and [cleanup] return and
    change nothing, the two queries return 0 without touching anything,
    and [load] of an existing file raises [AttributeError] and changes
    nothing. *)
Theorem no_pipeline_no_effect (env : Env) (w : World) :
  pipeline (vp w) = false ->
  play env w = (Ok tt, w) /\
  pause env w = (Ok tt, w) /\
  stop env w = (Ok tt, w) /\
  (forall position, seek env position w = (Ok tt, w)) /\
  (forall v, set_volume env v w = (Ok tt, w)) /\
  get_position env w = (Ok 0%Q, w) /\
  get_duration env w = (Ok 0%Q, w) /\
  (forall message, _on_message env message w = (Ok tt, w)) /\
  cleanup env w = (Ok tt, w) /\
  (forall video_path, path_exists env video_path = true ->
     load env video_path w =
       (Raised (AttributeError
                  "'NoneType' object has no attribute 'get_by_name'"), w)).
Proof.
  intros Hp.
  assert (Hseek : forall position, seek env position w = (Ok tt, w))
    by (intros q; unfold seek; run_py; now rewrite Hp).
  assert (Hpause : pause env w = (Ok tt, w))
    by (unfold pause; run_py; now rewrite Hp).
  repeat split; try assumption.
  - unfold play. run_py. now rewrite Hp.
  - unfold stop. run_py. now rewrite Hp.
  - intros v. unfold set_volume. run_py. now rewrite Hp.
  - unfold get_position, query_seconds. run_py. now rewrite Hp.
  - unfold get_duration, query_seconds. run_py. now rewrite Hp.
  - intros [|[text|]|]; unfold _on_message, _on_video_end; try reflexivity.
    unfold try_log at 1 2, try_except.
    rewrite (bind_eq_ok _ _ _ _ _ (Hseek 0%Q)). now rewrite Hpause.
  - unfold cleanup. run_py. now rewrite Hp.
  - intros video_path He. unfold load. rewrite He. simpl.
    rewrite bind_get, Hp. reflexivity.
Qed.

Lemma no_pipeline_no_effect_witness :
  let w := snd (cleanup Samples.env_ok Samples.world0) in
  pipeline (vp w) = false /\
  play Samples.env_ok w = (Ok tt, w) /\
  seek Samples.env_ok 30 w = (Ok tt, w) /\
  get_position Samples.env_ok w = (Ok 0%Q, w).
Proof.
  intros w.
  assert (Hp : pipeline (vp w) = false) by reflexivity.
  destruct (no_pipeline_no_effect Samples.env_ok w Hp)
    as (A & _ & _ & B & _ & C & _).
  split; [exact Hp|]. split; [exact A|]. split; [apply B | exact C].
Defined.

(** X15: [_on_message] never raises.  At end of stream, with a
    pipeline, it asks for a seek to 0 and then for the PAUSED state, and
    changes neither the state file, the volume nor the current video;
    for an error message (whose handler calls a method the class does
    not have) and for any other message it changes nothing. *)
Theorem on_message_never_raises (env : Env) (message : Message)
    (w : World) :
  fst (_on_message env message w) = Ok tt /\
  (message <> EOS -> snd (_on_message env message w) = w) /\
  (message = EOS -> pipeline (vp w) = true ->
   let w' := snd (_on_message env message w) in
   gst_log w' = (gst_log w ++ [SeekSimple (0 * SECOND);
                               SetState PAUSED])%list /\
   state_file w' = state_file w /\
   volume (vp w') = volume (vp w) /\
   current_video (vp w') = current_video (vp w)).
Proof.
  split; [apply try_log_ok|]. split.
  - intros Hne. destruct message as [|[text|]|]; [congruence|reflexivity..].
  - intros -> Hp w'. subst w'.
    set (w1 := log_call (SeekSimple (0 * SECOND)) w).
    assert (Hrun : _on_message env EOS w = (Ok tt, snd (pause env w1))).
    { unfold _on_message, _on_video_end, try_log, try_except.
      rewrite (bind_eq_ok _ _ _ _ _ (PlayerFacts.seek_run env 0 w Hp)).
      fold w1. assert (Hok : fst (pause env w1) = Ok tt) by apply try_log_ok.
      destruct (pause env w1) as [r w2]. simpl in *. now subst r. }
    rewrite Hrun. cbn [snd].
    destruct (PlayerFacts.transport_run env PAUSED false w1 Hp)
      as (_ & B & C & _ & E & F).
    fold (pause env) in B, C, E, F.
    rewrite B, C, E, F. subst w1. simpl. rewrite <- app_assoc.
    now repeat split.
Qed.

Lemma on_message_never_raises_witness :
  let w := Samples.world_saved in
  snd (_on_message Samples.env_ok (ERROR (Some "decode")) w) = w /\
  gst_log (snd (_on_message Samples.env_ok EOS w)) =
    [SeekSimple (0 * SECOND); SetState PAUSED] /\
  state_file (snd (_on_message Samples.env_ok EOS w)) = state_file w.
Proof.
  intros w.
  destruct (on_message_never_raises Samples.env_ok (ERROR (Some "decode")) w)
    as (_ & Same & _).
  destruct (on_message_never_raises Samples.env_ok EOS w) as (_ & _ & End).
  split; [apply Same; discriminate|].
  destruct End as (A & B & _); [reflexivity | reflexivity |].
  split; [exact A | exact B].
Defined.

(** [load_saved_position] with a state file it cannot use. *)
Lemma load_saved_position_unusable (env : Env) (w : World) :
  state_file w = Absent \/ state_file w = Garbage \/
  state_read_raises env = true ->
  load_saved_position env w = (Ok tt, w).
Proof.
  intros H. unfold load_saved_position, read_state. run_py.
  destruct (state_file w) eqn:Hf; simpl; [reflexivity| |].
  - destruct (state_read_raises env); simpl; [reflexivity|].
    now rewrite Hf.
  - destruct H as [H|[H|H]]; try discriminate. now rewrite H.
Qed.

(** [load_saved_position] with an object that does not name the current
    video together with a position: nothing is applied. *)
Lemma load_saved_position_unrelated (env : Env) (w : World)
    (o : StateObject) :
  state_file w = Object o ->
  (forall P, so_video_path o = Some P ->
             path_is P (current_video (vp w)) = true ->
             so_position o = None) ->
  load_saved_position env w = (Ok tt, w).
Proof.
  intros Hf Ho. unfold load_saved_position, read_state, subscript. run_py.
  rewrite Hf. destruct (state_read_raises env); [reflexivity|].
  rewrite Hf. destruct (so_video_path o) as [P|]; [|reflexivity].
  destruct (path_is P (current_video (vp w))) eqn:Hpath; [|reflexivity].
  now rewrite (Ho P eq_refl Hpath).
Qed.

(** [load_saved_position] with an object that names the current video
    and a position but lacks the volume: the seek runs, then the
    subscription of [volume] raises and the method returns. *)
Lemma load_saved_position_no_volume (env : Env) (w : World)
    (o : StateObject) (P : string) (p : Q) :
  state_file w = Object o ->
  state_read_raises env = false ->
  so_video_path o = Some P ->
  path_is P (current_video (vp w)) = true ->
  so_position o = Some p ->
  so_volume o = None ->
  load_saved_position env w = (Ok tt, snd (seek env p w)).
Proof.
  intros Hf Hr HP Hpath Hp Hv.
  unfold load_saved_position, read_state, subscript. run_py.
  rewrite Hf, Hr, Hf, HP, Hpath, Hp.
  destruct (seek env p w) as [[[]|e] w1] eqn:E; [|reflexivity].
  now rewrite Hv.
Qed.

(** X16: what [load_saved_position] does with a state file it cannot
    fully use.  A file that is missing, is not a JSON object, or cannot
    be read is ignored, and so is an object without [video_path], one
    that names another video, and one that names the current video but
    has no [position]: the method returns and changes nothing.  An
    object that names the current video and a position but has no
    [volume] is applied by half: the seek to that position is requested
    before the missing key raises, and the volume stays as it was. *)
Theorem incomplete_state_file (env : Env) (w : World) :
  (state_file w = Absent \/ state_file w = Garbage \/
   state_read_raises env = true ->
   load_saved_position env w = (Ok tt, w)) /\
  (forall o,
     state_file w = Object o ->
     (forall P, so_video_path o = Some P ->
                path_is P (current_video (vp w)) = true ->
                so_position o = None) ->
     load_saved_position env w = (Ok tt, w)) /\
  (forall o P p,
     state_file w = Object o ->
     state_read_raises env = false ->
     so_video_path o = Some P ->
     path_is P (current_video (vp w)) = true ->
     so_position o = Some p ->
     so_volume o = None ->
     pipeline (vp w) = true ->
     load_saved_position env w =
       (Ok tt, log_call (SeekSimple (p * SECOND)) w)).
Proof.
  split; [apply load_saved_position_unusable|].
  split; [apply load_saved_position_unrelated|].
  intros o P p Hf Hr HP Hpath Hp Hv Hpipe.
  rewrite (load_saved_position_no_volume env w o P p Hf Hr HP Hpath Hp Hv).
  now rewrite (PlayerFacts.seek_run env p w Hpipe).
Qed.

Lemma incomplete_state_file_witness :
  let current := set_vp (with_current_video (Some "a.mp4")) Samples.world0 in
  let garbage := set_state_file Garbage current in
  let other :=
    set_state_file
      (Object {| so_video_path := Some "b.mp4"; so_position := Some 42%Q;
                 so_volume := Some 60 |}) current in
  let no_position :=
    set_state_file
      (Object {| so_video_path := Some "a.mp4"; so_position := None;
                 so_volume := Some 60 |}) current in
  let no_volume :=
    set_state_file
      (Object {| so_video_path := Some "a.mp4"; so_position := Some 42%Q;
                 so_volume := None |}) current in
  load_saved_position Samples.env_ok garbage = (Ok tt, garbage) /\
  load_saved_position Samples.env_ok other = (Ok tt, other) /\
  load_saved_position Samples.env_ok no_position = (Ok tt, no_position) /\
  load_saved_position Samples.env_ok no_volume =
    (Ok tt, log_call (SeekSimple (42 * SECOND)) no_volume) /\
  volume (vp no_volume) = 80.
Proof.
  intros current garbage other no_position no_volume.
  split; [|split; [|split; [|split]]].
  - apply (proj1 (incomplete_state_file Samples.env_ok garbage)).
    right; left. reflexivity.
  - apply (proj1 (proj2 (incomplete_state_file Samples.env_ok other))
             _ eq_refl).
    intros P [= <-]. discriminate.
  - apply (proj1 (proj2 (incomplete_state_file Samples.env_ok no_position))
             _ eq_refl).
    reflexivity.
  - apply (proj2 (proj2 (incomplete_state_file Samples.env_ok no_volume))
             _ "a.mp4" 42%Q eq_refl); reflexivity.
  - reflexivity.
Defined.

Lemma save_state_frame (env : Env) (w : World) :
  vp (snd (save_state env w)) = vp w.
Proof.
  apply (frame_save_state env (fun x => vp x = vp w)); now intros.
Qed.

Lemma get_position_frame (env : Env) (w : World) :
  vp (snd (get_position env w)) = vp w /\
  state_file (snd (get_position env w)) = state_file w.
Proof.
  apply (frame_query_seconds env
           (fun x => vp x = vp w /\ state_file x = state_file w));
    now intros.
Qed.

(** X17: [save_state] never raises and never changes the player's
    attributes.  Without a current video it does nothing at all; when
    the state file cannot be opened the file keeps its old content; when
    the dump fails half-way the file is left unusable, and a later
    [load_saved_position] then silently restores nothing. *)
Theorem save_state_failure_modes (env : Env) (w : World) :
  let out := save_state env w in
  fst out = Ok tt /\
  vp (snd out) = vp w /\
  (truthy (current_video (vp w)) = false -> out = (Ok tt, w)) /\
  (state_write env = OpenFails -> state_file (snd out) = state_file w) /\
  (state_write env = DumpFails -> truthy (current_video (vp w)) = true ->
   state_file (snd out) = Garbage /\
   forall w', state_file w' = state_file (snd out) ->
              load_saved_position env w' = (Ok tt, w')).
Proof.
  intros out. subst out.
  split; [apply PlayerFacts.save_state_total|].
  split; [apply save_state_frame|].
  assert (Hbody : forall (Hcur : truthy (current_video (vp w)) = true),
            state_file (snd (save_state env w)) =
              match state_write env with
              | Written =>
                  state_file (snd (save_state env w))
              | OpenFails => state_file w
              | DumpFails => Garbage
              end).
  { intros Hcur. unfold save_state, try_log, try_except.
    rewrite bind_get, Hcur. unfold when.
    destruct (PlayerFacts.query_seconds_total env QueryPosition w) as [q Hq].
    fold (get_position env) in Hq.
    destruct (get_position_frame env w) as [_ Hf].
    rewrite (bind_ok _ _ w q Hq). rewrite bind_get. cbv zeta.
    unfold write_state.
    destruct (state_write env); simpl; [reflexivity | exact Hf | reflexivity]. }
  split; [|split].
  - intros Hcur. unfold save_state. run_py. now rewrite Hcur.
  - intros Hw. destruct (truthy (current_video (vp w))) eqn:Hcur.
    + rewrite (Hbody eq_refl), Hw. reflexivity.
    + unfold save_state. run_py. now rewrite Hcur.
  - intros Hw Hcur. rewrite (Hbody Hcur), Hw.
    split; [reflexivity|]. intros w' Hf.
    apply load_saved_position_unusable. now right; left.
Qed.

Lemma save_state_failure_modes_witness :
  let env := Samples.env_dump_fails in
  let w := set_vp (with_current_video (Some "a.mp4")) Samples.world_saved in
  save_state env Samples.world_saved = (Ok tt, Samples.world_saved) /\
  state_file (snd (save_state env w)) = Garbage /\
  load_saved_position env (snd (save_state env w)) =
    (Ok tt, snd (save_state env w)).
Proof.
  intros env w.
  destruct (save_state_failure_modes env Samples.world_saved)
    as (_ & _ & Idle & _).
  destruct (save_state_failure_modes env w) as (_ & _ & _ & _ & Dump).
  split; [apply Idle; reflexivity|].
  destruct Dump as [G L]; [reflexivity | reflexivity |].
  split; [exact G | apply L; reflexivity].
Defined.

(** X18: [cleanup] never raises.  With a pipeline it first saves the
    state; if the pipeline then accepts the NULL state the player is left
    without a pipeline and a second [cleanup] changes nothing; if the
    pipeline raises instead, the player keeps its pipeline. *)
Theorem cleanup_releases_pipeline (env : Env) (w : World) :
  let saved := snd (save_state env w) in
  fst (cleanup env w) = Ok tt /\
  (pipeline (vp w) = true ->
   gst_raises env (gst_log saved) (SetState NULL) = None ->
   snd (cleanup env w) =
     set_vp (with_pipeline false) (log_call (SetState NULL) saved) /\
   cleanup env (snd (cleanup env w)) = (Ok tt, snd (cleanup env w))) /\
  (pipeline (vp w) = true ->
   gst_raises env (gst_log saved) (SetState NULL) <> None ->
   snd (cleanup env w) = log_call (SetState NULL) saved /\
   pipeline (vp (snd (cleanup env w))) = true).
Proof.
  intros saved. split; [apply try_log_ok|].
  assert (Hstart : pipeline (vp w) = true ->
            cleanup env w =
              try_log (gst_call env (SetState NULL) ;;
                       modify (set_vp (with_pipeline false)))%py saved).
  { intros Hp. unfold cleanup, try_log, try_except.
    rewrite bind_get, Hp. unfold when.
    now rewrite (bind_ok _ _ w tt (PlayerFacts.save_state_total env w)). }
  split.
  - intros Hp Hc. rewrite (Hstart Hp). unfold try_log, try_except.
    rewrite (bind_eq_ok _ _ _ _ _ (gst_call_returns env _ _ Hc)).
    split; [reflexivity|]. simpl. unfold cleanup. run_py. reflexivity.
  - intros Hp Hc. rewrite (Hstart Hp). unfold try_log, try_except.
    destruct (gst_raises env (gst_log saved) (SetState NULL)) as [msg|] eqn:E;
      [|congruence].
    rewrite (bind_eq_raised _ _ _ _ _ (gst_call_raises env _ _ _ E)).
    split; [reflexivity|]. simpl. subst saved.
    now rewrite save_state_frame.
Qed.

Lemma cleanup_releases_pipeline_witness :
  let w := set_vp (with_current_video (Some "a.mp4")) Samples.world0 in
  let after := snd (cleanup Samples.env_ok w) in
  pipeline (vp w) = true /\
  pipeline (vp after) = false /\
  (exists p, state_file after =
               Stored {| ps_video_path := "a.mp4"; ps_position := p;
                         ps_volume := 80 |}) /\
  cleanup Samples.env_ok after = (Ok tt, after).
Proof.
  intros w after.
  destruct (cleanup_releases_pipeline Samples.env_ok w) as (_ & Done & _).
  destruct Done as [E Again]; [reflexivity | reflexivity |].
  split; [reflexivity|]. subst after. rewrite E.
  split; [reflexivity|]. split; [eexists; reflexivity|].
  rewrite <- E. exact Again.
Defined.

(** X19: with a video loaded and a writable state file, [save_state]
    returns and the file then holds exactly one record: the current
    path, the position the pipeline reports at that moment (0 when it
    reports none) and the current volume; whatever the file held before
    is overwritten. *)
Theorem save_state_stores_current_state (env : Env) (w : World)
    (P : string) :
  current_video (vp w) = Some P ->
  P <> "" ->
  state_write env = Written ->
  exists p,
    fst (get_position env w) = Ok p /\
    fst (save_state env w) = Ok tt /\
    state_file (snd (save_state env w)) =
      Stored {| ps_video_path := P; ps_position := p;
                ps_volume := volume (vp w) |} /\
    vp (snd (save_state env w)) = vp w.
Proof.
  intros Hc HP Hw.
  destruct (PlayerFacts.save_state_records env w P Hc HP Hw) as (p & Hp & Hf).
  exists p. split; [exact Hp|].
  split; [apply PlayerFacts.save_state_total|].
  split; [exact Hf | apply save_state_frame].
Qed.

Lemma save_state_stores_current_state_witness :
  let w := set_vp (with_current_video (Some "b.mp4")) Samples.world_saved in
  exists p,
    fst (get_position Samples.env_ok w) = Ok p /\
    state_file (snd (save_state Samples.env_ok w)) =
      Stored {| ps_video_path := "b.mp4"; ps_position := p;
                ps_volume := 80 |}.
Proof.
  intros w.
  destruct (save_state_stores_current_state Samples.env_ok w "b.mp4")
    as (p & A & _ & B & _); [reflexivity | discriminate | reflexivity |].
  exists p. split; [exact A | exact B].
Defined.

(** X20: the round trip through [load] itself.  With the record for [P]
    in the state file and a cooperating pipeline, [load P] makes exactly
    these calls on the pipeline: NULL state, new source, seek to the
    stored position, stored volume, PLAYING, PAUSED; and the player's
    volume is the stored one.  [load] of another path makes the same
    calls without the seek and the volume, and keeps the volume. *)
Theorem load_applies_matching_state_only (env : Env) (w : World)
    (P Q' : string) (p : Q) (v : Z) :
  state_file w =
    Stored {| ps_video_path := P; ps_position := p; ps_volume := v |} ->
  state_read_raises env = false ->
  0 <= v <= 100 ->
  pipeline (vp w) = true ->
  gst_raises env (gst_log w) (SetState NULL) = None ->
  (path_exists env P = true ->
   gst_raises env (gst_log w ++ [SetState NULL]) (SetLocation P) = None ->
   fst (load env P w) = Ok tt /\
   volume (vp (snd (load env P w))) = v /\
   gst_log (snd (load env P w)) =
     (gst_log w ++ [SetState NULL; SetLocation P; SeekSimple (p * SECOND);
                    SetSinkVolume (inject_Z v / 100);
                    SetState PLAYING; SetState PAUSED])%list) /\
  (Q' <> P -> path_exists env Q' = true ->
   gst_raises env (gst_log w ++ [SetState NULL]) (SetLocation Q') = None ->
   fst (load env Q' w) = Ok tt /\
   volume (vp (snd (load env Q' w))) = volume (vp w) /\
   gst_log (snd (load env Q' w)) =
     (gst_log w ++ [SetState NULL; SetLocation Q';
                    SetState PLAYING; SetState PAUSED])%list).
Proof.
  intros Hf Hr Hv Hp H1. split.
  - intros He H2.
    destruct (PlayerFacts.load_restores_saved_state env w P p v
                Hf Hr Hv He Hp H1 H2) as (A & _ & B & C).
    now repeat split.
  - intros Hne He H2.
    destruct (PlayerFacts.load_ignores_other_state env w P Q' p v
                Hf Hne He Hp H1 H2) as (A & _ & B & C).
    now repeat split.
Qed.

Lemma load_applies_matching_state_only_witness :
  let w := Samples.world_saved in
  (volume (vp w) = 80 /\
   volume (vp (snd (load Samples.env_ok "a.mp4" w))) = 60) /\
  volume (vp (snd (load Samples.env_ok "b.mp4" w))) = 80.
Proof.
  intros w.
  destruct (load_applies_matching_state_only Samples.env_ok w
              "a.mp4" "b.mp4" 42 60) as [Same Other];
    [reflexivity | reflexivity | lia | reflexivity | reflexivity |].
  split.
  - split; [reflexivity|].
    apply Same; reflexivity.
  - destruct Other as (_ & B & _); [discriminate | reflexivity | reflexivity|].
    exact B.
Defined.

End PlayerMore.

(** ** Further properties of media_player.py *)

Module AppMore.
Import App.

Create HintDb app_keeps.
#[local] Hint Resolve AppFacts.keeps_ret AppFacts.keeps_raise
  AppFacts.keeps_get AppFacts.keeps_when AppFacts.keeps_if
  AppFacts.keeps_on_player : app_keeps.

Section WithEnv.

Variable env : Player.Env.

(** A step that returns and keeps the auto-hide attributes hands the
    outcome of the rest of the run on. *)
Lemma bind_steady_outcome {A B} (m : M AppWorld A) (k : A -> M AppWorld B)
    (aw : AppWorld) (r : Res B) :
  returns m -> keeps hide_timer m ->
  (forall a aw1,
     hide_timer (app aw1) = hide_timer (app aw) -> fst (k a aw1) = r) ->
  fst (bind m k aw) = r.
Proof.
  intros Hr Hk Hrest.
  destruct (AppFacts.bind_returns m k aw Hr) as (a & aw1 & E & ->).
  apply Hrest. specialize (Hk aw). now rewrite E in Hk.
Qed.

(** X21: [update_progress] raises exactly when a video is loaded, the
    controls are visible and the idle timeout has elapsed since the last
    touch (the exception is the [AttributeError] of the lookup of
    [player] in [hide_controls]); in every other state it returns. *)
Theorem update_progress_outcome (now : Q) (aw : AppWorld) :
  let due :=
    truthy (current_video (app aw)) && controls_visible (app aw)
    && Qltb (controls_timeout (app aw)) (now - last_touch_time (app aw)) in
  fst (update_progress env now aw) =
    if due then Raised no_player_attribute else Ok tt.
Proof.
  intros due. subst due. unfold update_progress. rewrite bind_get.
  destruct (truthy (current_video (app aw))) eqn:Hcur; [|reflexivity].
  unfold when at 1. cbn [andb].
  apply bind_steady_outcome;
    [apply AppFacts.returns_get_position | apply AppFacts.keeps_on_player |].
  intros position aw1 K1.
  apply bind_steady_outcome;
    [apply AppFacts.returns_get_duration | apply AppFacts.keeps_on_player |].
  intros duration aw2 K2.
  apply bind_steady_outcome;
    [apply AppFacts.returns_when, AppFacts.returns_set_progress_bar_value
    |apply AppFacts.keeps_when, AppFacts.keeps_set_progress_bar_value |].
  intros [] aw3 K3.
  assert (Hall : hide_timer (app aw3) = hide_timer (app aw)) by congruence.
  unfold hide_timer in Hall. injection Hall as Hv Ht Hc.
  rewrite bind_get, Hv, Ht, Hc.
  destruct (controls_visible (app aw)) eqn:Hvis; [|reflexivity].
  destruct (Qltb _ _); [|reflexivity].
  simpl. rewrite AppFacts.hide_controls_run, Hv. reflexivity.
Qed.

(** X22: while no video is loaded, the progress step, the slider
    callback and the two touch handlers return at once and change
    nothing: no control is shown and no call reaches the player. *)
Theorem no_video_handlers_idle (aw : AppWorld) :
  truthy (current_video (app aw)) = false ->
  (forall now, update_progress env now aw = (Ok tt, aw)) /\
  (forall value, on_progress_change env value aw = (Ok tt, aw)) /\
  (forall now touch_x width,
     on_touch_down env now touch_x width aw = (Ok tt, aw)) /\
  (forall touch_x touch_y width height,
     on_touch_up env touch_x touch_y width height aw = (Ok tt, aw)).
Proof.
  intros Hcur. repeat split; intros.
  - unfold update_progress. now rewrite bind_get, Hcur.
  - unfold on_progress_change. now rewrite bind_get, Hcur.
  - unfold on_touch_down. now rewrite bind_get, Hcur.
  - unfold on_touch_up. now rewrite bind_get, Hcur.
Qed.


Lemma returns_seek_relative (delta : Q) :
  returns
    (position <- on_player (Player.get_position env) ;;
     on_player (Player.seek env (position + delta)))%py.
Proof.
  apply AppFacts.returns_bind; [apply AppFacts.returns_get_position|].
  intros p. apply AppFacts.returns_seek.
Qed.





(** X27: [load_video] never raises and always shows the controls with
    a message.  When the file exists and the player loads it, the path
    becomes the current video, the message is "Video Loaded - Press
    Play" and one more progress timer is scheduled; when the player
    raises, the current video and the timers are unchanged and the
    message is "Error loading video: " followed by the error text. *)
Theorem load_video_outcomes (now : Q) (path : string) (aw : AppWorld) :
  let out := load_video env now path aw in
  let player := Player.load env path (video_player aw) in
  fst out = Ok tt /\
  controls_visible (app (snd out)) = true /\
  last_touch_time (app (snd out)) = now /\
  (Player.path_exists env path = true -> fst player = Ok tt ->
   current_video (app (snd out)) = Some path /\
   status_label_text (app (snd out)) = "Video Loaded - Press Play" /\
   update_progress_scheduled (app (snd out)) =
     S (update_progress_scheduled (app aw))) /\
  (forall e, Player.path_exists env path = true -> fst player = Raised e ->
   current_video (app (snd out)) = current_video (app aw) /\
   status_label_text (app (snd out)) = "Error loading video: " ++ exn_str e /\
   update_progress_scheduled (app (snd out)) =
     update_progress_scheduled (app aw)).
Proof.
  intros out player. subst out player.
  split; [apply AppFacts.load_video_total|].
  unfold load_video. run_py. unfold on_player.
  destruct (Player.path_exists env path); [|now repeat split].
  destruct (Player.load env path (video_player aw)) as [[[]|e] w']; simpl.
  - repeat split; intros; discriminate.
  - repeat split; intros; try discriminate; congruence.
Qed.

(** *** Invariants of the session state *)

(** A property of the application that no method of the player can
    affect. *)
Lemma preserves_on_player_blind {A} (P : AppWorld -> Prop)
    (m : M Player.World A) :
  (forall a r w w', P (mkAppWorld a r w) -> P (mkAppWorld a r w')) ->
  preserves P (on_player m).
Proof.
  intros Hblind [a r w] H. unfold on_player. simpl.
  destruct (m w) as [res w']. simpl. now apply (Hblind a r w).
Qed.

Section Invariant.

Variable P : AppWorld -> Prop.

Hypothesis P_controls :
  forall v o aw, P aw -> P (set_app (with_controls v o) aw).
Hypothesis P_touch :
  forall t aw, P aw -> P (set_app (with_last_touch_time t) aw).
Hypothesis P_status : forall m aw, P aw -> P (set_app (with_status m) aw).
Hypothesis P_progress :
  forall v aw, P aw -> P (set_app (with_progress v) aw).
Hypothesis P_test : forall aw, P aw -> P (set_app (with_test_mode true) aw).
Hypothesis P_reader : forall r aw, P aw -> P (set_rfid_reader r aw).
Hypothesis P_query :
  forall c, preserves P (on_player (Player.query_seconds env c)).
Hypothesis P_seek :
  forall position, preserves P (on_player (Player.seek env position)).
Hypothesis P_load_video :
  forall now path, preserves P (load_video env now path).

Lemma inv_show_controls (now : Q) : preserves P (show_controls now).
Proof.
  unfold show_controls. apply preserves_bind; [|intros _];
    apply preserves_modify; intros aw; [apply P_controls | apply P_touch].
Qed.

Lemma inv_show_message (now : Q) (message : string) :
  preserves P (show_message now message).
Proof.
  unfold show_message. apply preserves_bind;
    [apply preserves_modify; intros aw; apply P_status|].
  intros _. apply inv_show_controls.
Qed.

Lemma inv_hide_controls : preserves P hide_controls.
Proof.
  intros aw H. rewrite AppFacts.hide_controls_run.
  now destruct (controls_visible (app aw)).
Qed.

Lemma inv_on_progress_change (value : Q) :
  preserves P (on_progress_change env value).
Proof.
  unfold on_progress_change. apply preserves_bind; [apply preserves_get|].
  intros aw. destruct (negb (truthy (current_video (app aw))));
    [apply preserves_ret|].
  apply preserves_bind; [apply P_query|]. intros d. apply P_seek.
Qed.

Lemma inv_update_progress (now : Q) : preserves P (update_progress env now).
Proof.
  unfold update_progress, set_progress_bar_value.
  apply preserves_bind; [apply preserves_get|]. intros aw.
  apply preserves_when.
  apply preserves_bind; [apply P_query|]. intros position.
  apply preserves_bind; [apply P_query|]. intros duration.
  apply preserves_bind.
  - apply preserves_when. apply preserves_bind; [apply preserves_get|].
    intros aw1. destruct (Qeq_bool _ _); [apply preserves_ret|].
    apply preserves_bind;
      [apply preserves_modify; intros x; apply P_progress|].
    intros _. apply inv_on_progress_change.
  - intros _. apply preserves_bind; [apply preserves_get|]. intros aw1.
    apply preserves_when. apply inv_hide_controls.
Qed.

Lemma inv_touch_action (touch_x width : Q) :
  preserves P (touch_action env touch_x width).
Proof.
  unfold touch_action, check_divisor, getattr_player.
  apply preserves_bind.
  { destruct (Qeq_bool width 0); [apply preserves_raise|apply preserves_ret]. }
  intros _. cbv zeta.
  destruct (Qltb _ _).
  { apply preserves_bind; [apply P_query|]. intros p. apply P_seek. }
  destruct (Qltb _ _).
  { apply preserves_bind; [apply P_query|]. intros p. apply P_seek. }
  apply preserves_bind; [apply preserves_get|]. intros aw1.
  apply preserves_raise.
Qed.

Lemma inv_on_touch_down (now touch_x width : Q) :
  preserves P (on_touch_down env now touch_x width).
Proof.
  unfold on_touch_down. apply preserves_bind; [apply preserves_get|].
  intros aw. destruct (negb _); [apply preserves_ret|].
  apply preserves_bind; [apply inv_show_controls|]. intros _.
  apply inv_touch_action.
Qed.

Lemma inv_on_touch_up (touch_x touch_y width height : Q) :
  preserves P (on_touch_up env touch_x touch_y width height).
Proof.
  unfold on_touch_up, check_divisor.
  apply preserves_bind; [apply preserves_get|].
  intros aw. destruct (negb _); [apply preserves_ret|].
  apply preserves_when. apply preserves_bind.
  { destruct (Qeq_bool width 0); [apply preserves_raise|apply preserves_ret]. }
  intros _. apply preserves_bind; [apply P_query|]. intros d. apply P_seek.
Qed.

Lemma inv_handle_tag_loop (now : Q) (tags : list TagBinding)
    (scanned : string) :
  preserves P (handle_tag_loop env now tags scanned).
Proof.
  induction tags as [|tag rest IH]; simpl.
  - apply preserves_bind; [apply preserves_get|]. intros aw.
    apply preserves_when. apply inv_show_message.
  - destruct (String.eqb _ _); [apply P_load_video | exact IH].
Qed.

Lemma inv_handle_tag_detection (now : Q) (scanned : string) :
  preserves P (handle_tag_detection env now scanned).
Proof.
  unfold handle_tag_detection. apply preserves_try_log.
  apply preserves_bind; [apply preserves_get|]. intros aw.
  apply inv_handle_tag_loop.
Qed.

Lemma inv_scan_rfid (current_time now : Q) (hw : RFID.Poll) :
  preserves P (scan_rfid env current_time now hw).
Proof.
  unfold scan_rfid. apply preserves_bind; [apply preserves_get|].
  intros aw. destruct (is_test_mode (app aw)); [apply preserves_ret|].
  apply preserves_try_log.
  destruct (RFID.read_tag (rfid_reader aw) current_time hw) as [r tag].
  apply preserves_bind;
    [apply preserves_modify; intros x; apply P_reader|].
  intros _. destruct tag as [t|]; [|apply preserves_ret].
  apply preserves_when. apply inv_handle_tag_detection.
Qed.

Lemma inv_activate_test_mode (now : Q) (test_video : string) :
  preserves P (activate_test_mode env now test_video).
Proof.
  unfold activate_test_mode. apply preserves_bind;
    [apply preserves_modify; exact P_test|].
  intros _. destruct (Player.path_exists env test_video);
    [apply P_load_video | apply inv_show_message].
Qed.

Lemma inv_on_keyboard (now : Q) (key : Z) (test_video : string) :
  preserves P (on_keyboard env now key test_video).
Proof.
  unfold on_keyboard. apply preserves_bind; [|intros _; apply preserves_ret].
  apply preserves_when. apply inv_activate_test_mode.
Qed.

Lemma inv_handle (aw : AppWorld) (h : Handler) : P aw -> P (handle env aw h).
Proof.
  intros H. destruct h; simpl.
  - now apply inv_scan_rfid.
  - now apply inv_update_progress.
  - now apply inv_on_touch_down.
  - now apply inv_on_touch_up.
  - now apply inv_on_progress_change.
  - now apply inv_on_keyboard.
Qed.

Lemma inv_run_handlers (hs : list Handler) (aw : AppWorld) :
  P aw -> P (run_handlers env aw hs).
Proof.
  revert aw. induction hs as [|h hs IH]; intros aw H; simpl; [exact H|].
  apply IH. now apply inv_handle.
Qed.

End Invariant.

(** [load_video] for a property that does not look at the player and
    holds of every loaded path. *)
Lemma load_video_blind (P : AppWorld -> Prop) (now : Q) (path : string) :
  (forall a r w w', P (mkAppWorld a r w) -> P (mkAppWorld a r w')) ->
  (forall f aw,
     (forall a, is_test_mode (f a) = is_test_mode a) ->
     (forall a, is_Some (current_video a) -> is_Some (current_video (f a))) ->
     P aw -> P (set_app f aw)) ->
  preserves P (load_video env now path).
Proof.
  intros Hblind Hset. unfold load_video.
  assert (Hmsg : forall m, preserves P (show_message now m)).
  { intros m. apply inv_show_message; intros; apply Hset; auto. }
  apply preserves_try_except; [|intros e; apply Hmsg].
  destruct (Player.path_exists env path); [|apply Hmsg].
  apply preserves_bind; [now apply preserves_on_player_blind|]. intros _.
  apply preserves_bind.
  { apply preserves_modify. intros aw. apply Hset; simpl; eauto. }
  intros _. apply preserves_bind; [apply Hmsg|]. intros _.
  apply preserves_modify. intros aw. apply Hset; auto.
Qed.

(** A handler-level invariant from such a property. *)
Lemma blind_invariant (P : AppWorld -> Prop) (hs : list Handler)
    (aw : AppWorld) :
  (forall a r w w', P (mkAppWorld a r w) -> P (mkAppWorld a r w')) ->
  (forall r aw, P aw -> P (set_rfid_reader r aw)) ->
  (forall f aw,
     (forall a, is_test_mode (f a) = is_test_mode a) ->
     (forall a, is_Some (current_video a) -> is_Some (current_video (f a))) ->
     P aw -> P (set_app f aw)) ->
  (forall aw, P aw -> P (set_app (with_test_mode true) aw)) ->
  P aw -> P (run_handlers env aw hs).
Proof.
  intros Hblind Hreader Hset Htest. apply inv_run_handlers;
    try (intros; apply Hset; auto; fail); try assumption.
  - intros c. now apply preserves_on_player_blind.
  - intros q. now apply preserves_on_player_blind.
  - intros now path. now apply load_video_blind.
Qed.

Lemma test_mode_kept (hs : list Handler) (aw : AppWorld) :
  in_test_mode aw -> in_test_mode (run_handlers env aw hs).
Proof.
  apply blind_invariant; unfold in_test_mode; simpl; try (intros; assumption).
  - intros f x Hf _ H. now rewrite Hf.
  - reflexivity.
Qed.

(** X24: test mode is permanent.  [on_keyboard] with key 301 (F10)
    turns it on; once on, no sequence of handlers turns it off, and
    [scan_rfid] returns without polling the reader or changing
    anything. *)
Theorem test_mode_is_permanent (aw : AppWorld) :
  (forall now test_video hs,
     let entered := snd (on_keyboard env now 301 test_video aw) in
     is_test_mode (app entered) = true /\
     is_test_mode (app (run_handlers env entered hs)) = true) /\
  (is_test_mode (app aw) = true ->
   (forall hs, is_test_mode (app (run_handlers env aw hs)) = true) /\
   (forall current_time now hw,
      scan_rfid env current_time now hw aw = (Ok tt, aw))).
Proof.
  split.
  - intros now tv hs entered.
    assert (H : in_test_mode entered).
    { subst entered. unfold on_keyboard, activate_test_mode.
      change (301 =? 301)%Z with true. unfold when.
      rewrite bind_ret_snd, bind_modify.
      assert (HP : in_test_mode (set_app (with_test_mode true) aw))
        by reflexivity.
      revert HP.
      destruct (Player.path_exists env tv).
      - apply load_video_blind; unfold in_test_mode; simpl;
          try (intros; assumption).
        intros f x Hf _ H. now rewrite Hf.
      - apply inv_show_message; unfold in_test_mode; now intros. }
    split; [exact H | now apply test_mode_kept].
  - intros H. split; [intros hs; now apply test_mode_kept|].
    intros t now hw. unfold scan_rfid. now rewrite bind_get, H.
Qed.

Lemma agree_on_player {A} (m : M Player.World A) :
  (forall cv, preserves
                (fun w => Player.current_video (Player.vp w) = cv) m) ->
  preserves agree (on_player m).
Proof.
  intros Hm [a r w] H. unfold agree, on_player in *. simpl in *.
  specialize (Hm (Player.current_video (Player.vp w)) w eq_refl).
  destruct (m w) as [res w']. simpl in *. congruence.
Qed.

Lemma agree_load_video (now : Q) (path : string) :
  preserves agree (load_video env now path).
Proof.
  intros aw H. unfold load_video. run_py. unfold on_player.
  destruct (Player.path_exists env path); [|exact H].
  destruct (PlayerMore.load_cases env path (video_player aw))
    as [(e & w' & E & Hvp & _) | (w' & E & Hvp & _)].
  - rewrite E. simpl. unfold agree in *. simpl. now rewrite Hvp.
  - pose proof (PlayerMore.load_tail_ok env w') as Hok.
    rewrite <- E in Hok.
    assert (Hcur : Player.current_video
                     (Player.vp (snd (Player.load env path (video_player aw))))
                   = Some path).
    { rewrite E.
      apply (preserves_bind
               (fun x => Player.current_video (Player.vp x) = Some path)).
      - apply PlayerMore.frame_load_saved_position; now intros.
      - intros _. apply preserves_bind.
        + apply PlayerMore.frame_play; now intros.
        + intros _. apply PlayerMore.frame_pause; now intros.
      - now rewrite Hvp. }
    destruct (Player.load env path (video_player aw)) as [[[]|e] w2];
      simpl in *; [|discriminate].
    unfold agree. simpl. now rewrite Hcur.
Qed.

Lemma agree_kept (hs : list Handler) (aw : AppWorld) :
  agree aw -> agree (run_handlers env aw hs).
Proof.
  apply inv_run_handlers; try (unfold agree; now intros).
  - intros c. apply agree_on_player. intros cv.
    apply PlayerMore.frame_query_seconds; now intros.
  - intros q. apply agree_on_player. intros cv.
    apply PlayerMore.frame_seek; now intros.
  - apply agree_load_video.
Qed.

Lemma video_loaded_kept (hs : list Handler) (aw : AppWorld) :
  video_loaded aw -> video_loaded (run_handlers env aw hs).
Proof.
  apply blind_invariant; unfold video_loaded; simpl; try (intros; assumption).
  intros f x _ Hf H. now apply Hf.
Qed.

(** X25: along every sequence of handlers, an application and player
    that agree on the current video still agree afterwards (the
    application records a path only after the player has accepted it),
    and a video that is loaded is never unloaded. *)
Theorem current_video_invariants (hs : list Handler) (aw : AppWorld) :
  (current_video (app aw) =
     Player.current_video (Player.vp (video_player aw)) ->
   current_video (app (run_handlers env aw hs)) =
     Player.current_video
       (Player.vp (video_player (run_handlers env aw hs)))) /\
  (is_Some (current_video (app aw)) ->
   is_Some (current_video (app (run_handlers env aw hs)))).
Proof. split; [apply agree_kept | apply video_loaded_kept]. Qed.

(** X26: a tag left on the reader loads its video once: while the
    reader remembers tag [T], any sequence of scans that only ever sees
    [T] (or nothing, or a failing reader) leaves the application and the
    player exactly as they were. *)
Theorem same_tag_scans_change_nothing (T : Z)
    (polls : list (Q * Q * RFID.Poll)) (aw : AppWorld) :
  RFID.last_tag_id (rfid_reader aw) = Some (str T) ->
  forallb (fun p => RFID.only_tag T (fst (fst p), snd p)) polls = true ->
  let aw' := run_handlers env aw (scans_of polls) in
  app aw' = app aw /\
  video_player aw' = video_player aw /\
  RFID.last_tag_id (rfid_reader aw') = Some (str T).
Proof.
  revert aw. induction polls as [|[[t now] hw] rest IH]; intros aw HT Hall.
  - now repeat split.
  - simpl in Hall. apply andb_true_iff in Hall as [Hp Hrest].
    change (run_handlers env aw (scans_of ((t, now, hw) :: rest)))
      with (run_handlers env (snd (scan_rfid env t now hw aw))
                         (scans_of rest)).
    assert (Hstep : let aw1 := snd (scan_rfid env t now hw aw) in
              app aw1 = app aw /\ video_player aw1 = video_player aw /\
              RFID.last_tag_id (rfid_reader aw1) = Some (str T)).
    { unfold scan_rfid. rewrite bind_get.
      destruct (is_test_mode (app aw)); [now repeat split|].
      destruct (RFIDFacts.read_tag_only_tag (rfid_reader aw) T (t, hw) HT Hp)
        as [Hout Hlast]. cbn [fst snd] in Hout, Hlast.
      destruct (RFID.read_tag (rfid_reader aw) t hw) as [r out].
      cbn [fst snd] in Hout, Hlast. subst out. now repeat split. }
    cbv zeta in Hstep. destruct Hstep as (Ha & Hv & Hl).
    destruct (IH _ Hl Hrest) as (Ha' & Hv' & Hl').
    cbv zeta in *. rewrite Ha', Hv', Hl'. now repeat split.
Qed.

End WithEnv.

Lemma no_video_handlers_idle_witness :
  let aw := Samples.app0 in
  truthy (current_video (app aw)) = false /\
  update_progress Samples.env_ok 10 aw = (Ok tt, aw) /\
  on_touch_down Samples.env_ok 10 400 800 aw = (Ok tt, aw).
Proof.
  intros aw.
  assert (H : truthy (current_video (app aw)) = false) by reflexivity.
  destruct (no_video_handlers_idle Samples.env_ok aw H) as (A & _ & B & _).
  split; [exact H|]. split; [apply A | apply B].
Defined.


Lemma test_mode_is_permanent_witness :
  let entered := snd (on_keyboard Samples.env_ok 5 301 "a.mp4" Samples.app0) in
  let hs := [Scan 10 10 (RFID.PollId (Some 1002)); TouchDown 11 100 800;
             UpdateProgress 12] in
  is_test_mode (app Samples.app0) = false /\
  is_test_mode (app entered) = true /\
  is_test_mode (app (run_handlers Samples.env_ok entered hs)) = true /\
  scan_rfid Samples.env_ok 10 10 (RFID.PollId (Some 1002)) entered =
    (Ok tt, entered).
Proof.
  intros entered hs.
  destruct (test_mode_is_permanent Samples.env_ok Samples.app0) as [On _].
  destruct (On 5%Q "a.mp4" hs) as [A B].
  destruct (test_mode_is_permanent Samples.env_ok entered) as [_ Stay].
  split; [reflexivity|]. split; [exact A|]. split; [exact B|].
  apply (proj2 (Stay A)).
Defined.

Lemma current_video_invariants_witness :
  let hs := [Scan 10 10 (RFID.PollId (Some 1002)); TouchDown 11 100 800;
             Scan 20 20 (RFID.PollId (Some 77));
             Scan 30 30 (RFID.PollId (Some 1001))] in
  let aw := run_handlers Samples.env_ok Samples.app0 hs in
  current_video (app aw) = Some "a.mp4" /\
  current_video (app aw) =
    Player.current_video (Player.vp (video_player aw)).
Proof.
  intros hs aw. split; [reflexivity|].
  apply (proj1 (current_video_invariants Samples.env_ok hs Samples.app0)).
  reflexivity.
Defined.

Lemma same_tag_scans_change_nothing_witness :
  let aw := snd (scan_rfid Samples.env_ok 10 10 (RFID.PollId (Some 1002))
                           Samples.app0) in
  let polls := [(12%Q, 12%Q, RFID.PollId (Some 1002));
                (13%Q, 13%Q, RFID.PollId None);
                (20%Q, 20%Q, RFID.PollId (Some 1002))] in
  let aw' := run_handlers Samples.env_ok aw (scans_of polls) in
  current_video (app aw) = Some "b.mp4" /\
  app aw' = app aw /\ video_player aw' = video_player aw.
Proof.
  intros aw polls aw'. split; [reflexivity|].
  destruct (same_tag_scans_change_nothing Samples.env_ok 1002 polls aw)
    as (A & B & _); [reflexivity | reflexivity |].
  split; [exact A | exact B].
Defined.

Lemma load_video_outcomes_witness :
  let ok := load_video Samples.env_ok 5 "a.mp4" Samples.app0 in
  let failed := load_video Samples.env_refuses 5 "a.mp4" Samples.app0 in
  (current_video (app (snd ok)) = Some "a.mp4" /\
   update_progress_scheduled (app (snd ok)) = 1%nat) /\
  (current_video (app (snd failed)) = None /\
   status_label_text (app (snd failed)) = "Error loading video: busy").
Proof.
  intros ok failed.
  destruct (load_video_outcomes Samples.env_ok 5 "a.mp4" Samples.app0)
    as (_ & _ & _ & Loaded & _).
  destruct (load_video_outcomes Samples.env_refuses 5 "a.mp4" Samples.app0)
    as (_ & _ & _ & _ & Failed).
  split.
  - destruct Loaded as (A & _ & B); [reflexivity | reflexivity |].
    split; [exact A | exact B].
  - destruct (Failed (ExternalError "busy")) as (A & B & _);
      [reflexivity | reflexivity |].
    split; [exact A | exact B].
Defined.

End AppMore.

Module PowerMore.
Import Power.

Section WithEnv.

Variable env : Player.Env.
Variable thresholds : Thresholds.

Lemma shutdown_system_run (s : System) :
  shutdown_system env s =
    (Ok tt,
     {| world :=
          {| App.app := App.app (world s);
             App.rfid_reader := App.rfid_reader (world s);
             App.video_player := player_at_shutdown env (world s) |};
        battery_monitor := battery_monitor s;
        shutdown_commands := S (shutdown_commands s) |}).
Proof.
  unfold shutdown_system, try_log, try_except, player_at_shutdown.
  rewrite bind_get.
  destruct (truthy (App.current_video (App.app (world s)))); unfold when.
  - unfold bind, on_app, App.on_player.
    pose proof (PlayerFacts.save_state_total env
                  (App.video_player (world s))) as Hok.
    destruct (Player.save_state env (App.video_player (world s)))
      as [r w']. simpl in Hok. subst r. reflexivity.
  - destruct s as [[a r w] m n]. reflexivity.
Qed.

Lemma on_app_show_message (now : Q) (message : string) (s : System) :
  on_app (App.show_message now message) s =
    (Ok tt,
     {| world :=
          App.set_app
            (fun a => App.with_last_touch_time now
                        (App.with_controls true 1
                           (App.with_status message a))) (world s);
        battery_monitor := battery_monitor s;
        shutdown_commands := shutdown_commands s |}).
Proof. reflexivity. Qed.

(** X28: [check_battery] never raises and records the level it read.
    At or below the critical threshold it shows the critical message and
    runs the shutdown command once, after saving the playback state when
    a video is loaded (and only then); the critical branch wins over the
    low one.  Above critical and at or below the low threshold it only
    shows "Low Battery: <level>%".  Above both it changes nothing but
    the monitor. *)
Theorem check_battery_outcomes (now : Q) (hw : option Z) (s : System) :
  let read := Battery.get_level (battery_monitor s) hw in
  let level := snd read in
  let out := check_battery env thresholds now hw s in
  fst out = Ok tt /\
  battery_monitor (snd out) = fst read /\
  (level <= critical_battery_threshold thresholds ->
   shutdown_commands (snd out) = S (shutdown_commands s) /\
   App.status_label_text (App.app (world (snd out))) =
     "Critical Battery Level - Shutting Down in 5 seconds" /\
   App.video_player (world (snd out)) = player_at_shutdown env (world s)) /\
  (critical_battery_threshold thresholds < level ->
   level <= low_battery_threshold thresholds ->
   shutdown_commands (snd out) = shutdown_commands s /\
   App.status_label_text (App.app (world (snd out))) =
     "Low Battery: " ++ str level ++ "%" /\
   App.video_player (world (snd out)) = App.video_player (world s)) /\
  (critical_battery_threshold thresholds < level ->
   low_battery_threshold thresholds < level ->
   snd out = set_battery_monitor (fst read) s).
Proof.
  intros read level out. subst out. unfold check_battery.
  split; [apply try_log_ok|].
  unfold try_log, try_except. rewrite bind_get.
  fold read. destruct read as [m lvl] eqn:Hread. subst level. cbn [fst snd].
  rewrite bind_modify.
  destruct (Z.leb_spec lvl (critical_battery_threshold thresholds)) as [Hc|Hc].
  - unfold handle_critical_battery.
    rewrite (bind_eq_ok _ _ _ _ _ (on_app_show_message _ _ _)).
    rewrite shutdown_system_run. cbn.
    repeat split; try lia; intros; lia.
  - destruct (Z.leb_spec lvl (low_battery_threshold thresholds)) as [Hl|Hl].
    + rewrite on_app_show_message. cbn. repeat split; try lia; intros; lia.
    + cbn. repeat split; try lia; intros; lia.
Qed.

Lemma check_battery_step (now : Q) (hw : option Z) (s : System) :
  let read := Battery.get_level (battery_monitor s) hw in
  let s' := snd (check_battery env thresholds now hw s) in
  battery_monitor s' = fst read /\
  (snd read <= critical_battery_threshold thresholds ->
   shutdown_commands s' = S (shutdown_commands s)).
Proof.
  intros read s'. subst s'. unfold check_battery.
  unfold try_log, try_except. rewrite bind_get.
  fold read. destruct read as [m lvl]. cbn [fst snd].
  rewrite bind_modify.
  destruct (Z.leb_spec lvl (critical_battery_threshold thresholds)) as [Hc|Hc].
  - unfold handle_critical_battery.
    rewrite (bind_eq_ok _ _ _ _ _ (on_app_show_message _ _ _)).
    rewrite shutdown_system_run. cbn. now split.
  - destruct (Z.leb_spec lvl (low_battery_threshold thresholds)) as [Hl|Hl].
    + rewrite on_app_show_message. cbn. split; [reflexivity | lia].
    + cbn. split; [reflexivity | lia].
Qed.

Lemma run_checks_critical (checks : list (Q * option Z)) (s : System) :
  Forall (fun level => level <= critical_battery_threshold thresholds)
         (snd (Battery.get_levels (battery_monitor s) (map snd checks))) ->
  shutdown_commands (run_checks env thresholds s checks) =
    (shutdown_commands s + length checks)%nat.
Proof.
  revert s. induction checks as [|[now hw] rest IH]; intros s Hall.
  - simpl. lia.
  - change (run_checks env thresholds s ((now, hw) :: rest))
      with (run_checks env thresholds
              (snd (check_battery env thresholds now hw s)) rest).
    destruct (check_battery_step now hw s) as [Hm Hc].
    cbn [map snd Battery.get_levels] in Hall.
    destruct (Battery.get_level (battery_monitor s) hw) as [m1 v] eqn:E.
    cbn [fst snd] in Hm, Hc.
    destruct (Battery.get_levels m1 (map snd rest)) as [m2 vs] eqn:E2.
    cbn [snd] in Hall. apply List.Forall_cons_iff in Hall as [Hv Hvs].
    rewrite IH.
    + rewrite (Hc Hv). simpl. lia.
    + rewrite Hm, E2. exact Hvs.
Qed.

Lemma digital_levels (checks : list (Q * option Z))
    (m : Battery.BatteryMonitor) :
  forallb (fun c => match snd c with
                    | Some raw => (0 <=? raw) && (raw <=? 10)
                    | None => false
                    end)%Z checks = true ->
  Forall (fun level => level = 0)
         (snd (Battery.get_levels m (map snd checks))).
Proof.
  revert m. induction checks as [|[now hw] rest IH]; intros m H; simpl.
  - constructor.
  - simpl in H. apply andb_true_iff in H as [Hhw Hrest].
    destruct hw as [raw|]; [|discriminate].
    apply andb_true_iff in Hhw as [H0 H10].
    apply Z.leb_le in H0. apply Z.leb_le in H10.
    unfold Battery.get_level.
    rewrite (BatteryMore.convert_digital raw) by lia.
    specialize (IH {| Battery.battery_level := 0 |} Hrest).
    destruct (Battery.get_levels _ (map snd rest)) as [m2 vs]. simpl in *.
    constructor; [reflexivity | exact IH].
Qed.

(** X29: there is no latch on the shutdown: over any sequence of
    battery checks whose levels are all at or below the critical
    threshold, the shutdown command is run once per check.  With a
    non-negative threshold this is the case whenever every read answers
    a raw value between 0 and 10, as both levels of a digital pin
    are. *)
Theorem every_critical_check_shuts_down (checks : list (Q * option Z))
    (s : System) :
  (Forall (fun level => level <= critical_battery_threshold thresholds)
          (snd (Battery.get_levels (battery_monitor s) (map snd checks))) ->
   shutdown_commands (run_checks env thresholds s checks) =
     (shutdown_commands s + length checks)%nat) /\
  (0 <= critical_battery_threshold thresholds ->
   forallb (fun c => match snd c with
                     | Some raw => (0 <=? raw) && (raw <=? 10)
                     | None => false
                     end)%Z checks = true ->
   shutdown_commands (run_checks env thresholds s checks) =
     (shutdown_commands s + length checks)%nat).
Proof.
  split; [apply run_checks_critical|].
  intros Hc Hall. apply run_checks_critical.
  eapply List.Forall_impl; [|apply digital_levels; exact Hall].
  cbn. intros level ->. exact Hc.
Qed.

End WithEnv.

Lemma check_battery_outcomes_witness :
  let critical := check_battery Samples.env_ok Samples.thresholds 60
                    (Some 1) Samples.system0 in
  let low := check_battery Samples.env_ok Samples.thresholds 60
               (Some 150) Samples.system0 in
  let fine := check_battery Samples.env_ok Samples.thresholds 60
                (Some 512) Samples.system0 in
  shutdown_commands (snd critical) = 1%nat /\
  (shutdown_commands (snd low) = 0%nat /\
   App.status_label_text (App.app (world (snd low))) = "Low Battery: 14%") /\
  world (snd fine) = world Samples.system0.
Proof.
  intros critical low fine.
  destruct (check_battery_outcomes Samples.env_ok Samples.thresholds 60
              (Some 1) Samples.system0) as (_ & _ & Crit & _).
  destruct (check_battery_outcomes Samples.env_ok Samples.thresholds 60
              (Some 150) Samples.system0) as (_ & _ & _ & Low & _).
  destruct (check_battery_outcomes Samples.env_ok Samples.thresholds 60
              (Some 512) Samples.system0) as (_ & _ & _ & _ & Fine).
  split; [|split].
  - apply Crit. vm_compute. discriminate.
  - destruct Low as (A & B & _);
      [vm_compute; reflexivity | vm_compute; discriminate |].
    split; [exact A | exact B].
  - subst fine. rewrite Fine; [reflexivity | vm_compute; reflexivity..].
Defined.

Lemma every_critical_check_shuts_down_witness :
  let checks := [(60%Q, Some 1); (120%Q, Some 0); (180%Q, Some 1)] in
  shutdown_commands
    (run_checks Samples.env_ok Samples.thresholds Samples.system0 checks)
  = 3%nat.
Proof.
  intros checks.
  apply (proj2 (every_critical_check_shuts_down Samples.env_ok
                  Samples.thresholds checks Samples.system0)).
  - vm_compute. discriminate.
  - reflexivity.
Defined.

End PowerMore.
